(** * The configuration parser of the gateway daemon ([src/conf.c])

    A shallow embedding of [conf.c]: the keyword table, the top-level
    dispatcher [config_read], the block parsers [parse_server] and
    [parse_firewall_ruleset], the rule mini-parser [_parse_firewall_rule],
    the trusted-MAC parser, the validator and the runtime mutator
    [mark_auth_server_bad], followed by the properties of the
    specification that concern them.

    Conventions.
    - A C string is a [string]; a nullable [char *] is an [option string].
    - An [int] is a [Z].
    - The linked lists built by the parsers are Rocq lists in link order;
      a tail walk followed by [tmp->next = new] is an append.  The one
      function that re-links an existing list, [mark_auth_server_bad], is
      modelled on an explicit heap of nodes (module [AuthList]).
    - [debug(LOG_ERR, ...)] appends a message to the error log of the
      process; messages of lower severity are not modelled.
    - [exit(n)] ends the run with outcome [Exits n]; the text of the file
      is assumed free of NUL bytes. *)

From Stdlib Require Import ZArith String Ascii List Lia Bool.
From stdpp Require Import base option list gmap strings.

Local Open Scope string_scope.
Local Open Scope Z_scope.

(** ** The C library functions the parser relies on (C locale) *)

Module Libc.

Definition HT : ascii := "009".
Definition LF : ascii := "010".
Definition VT : ascii := "011".
Definition FF : ascii := "012".
Definition CR : ascii := "013".

Definition isblank (c : ascii) : bool :=
  Ascii.eqb c " " || Ascii.eqb c HT.

Definition isspace (c : ascii) : bool :=
  isblank c || Ascii.eqb c LF || Ascii.eqb c VT
  || Ascii.eqb c FF || Ascii.eqb c CR.

Definition isdigit (c : ascii) : bool :=
  let n := N_of_ascii c in ((48 <=? n) && (n <=? 57))%N.

Definition tolower (c : ascii) : ascii :=
  let n := N_of_ascii c in
  if ((65 <=? n) && (n <=? 90))%N then ascii_of_N (n + 32) else c.

Fixpoint strlower (s : string) : string :=
  match s with
  | EmptyString => EmptyString
  | String c s' => String (tolower c) (strlower s')
  end.

(** [strcasecmp(a, b) == 0] *)
Definition strcaseeq (a b : string) : bool :=
  String.eqb (strlower a) (strlower b).

(** [strcmp(a, b) == 0] *)
Definition streq (a b : string) : bool := String.eqb a b.

(** [strncmp(s, lit, strlen(lit)) == 0] for a literal [lit] *)
Definition has_prefix (lit s : string) : bool := String.prefix lit s.

(** [p = strchr(s, c)] followed by [*p = 0]: when [c] occurs in [s],
    the text before its first occurrence and the text after it. *)
Fixpoint cut_at (c : ascii) (s : string) : option (string * string) :=
  match s with
  | EmptyString => None
  | String a s' =>
      if Ascii.eqb a c then Some (EmptyString, s')
      else match cut_at c s' with
           | Some (u, v) => Some (String a u, v)
           | None => None
           end
  end.

(** [strchr(s, c) != NULL] *)
Definition contains (c : ascii) (s : string) : bool :=
  match cut_at c s with Some _ => true | None => false end.

(** [p = strstr(s, needle)] followed by [*p = 0]: the text before the
    first occurrence of [needle], when there is one. *)
Fixpoint cut_at_str (needle s : string) : option string :=
  if String.prefix needle s then Some EmptyString
  else match s with
       | EmptyString => None
       | String a s' =>
           match cut_at_str needle s' with
           | Some u => Some (String a u)
           | None => None
           end
       end.

(** [while (isblank( *p )) p++] *)
Fixpoint skip_blanks (s : string) : string :=
  match s with
  | EmptyString => EmptyString
  | String c s' => if isblank c then skip_blanks s' else s
  end.

(** [while ( *p != 0 && !isblank( *p )) p++]: the characters walked over,
    and, when the walk stopped on a blank, the text after that blank. *)
Fixpoint word_end (s : string) : string * option string :=
  match s with
  | EmptyString => (EmptyString, None)
  | String c s' =>
      if isblank c then (EmptyString, Some s')
      else let (w, r) := word_end s' in (String c w, r)
  end.

(** The text scanned by [strtol] in base 10, after white space: an
    optional sign and at least one digit. *)
Fixpoint digits (s : string) (acc : Z) (seen : bool) : option Z :=
  match s with
  | EmptyString => if seen then Some acc else None
  | String c s' =>
      if isdigit c then digits s' (10 * acc + (Z.of_N (N_of_ascii c) - 48)) true
      else if seen then Some acc else None
  end.

Fixpoint skip_spaces (s : string) : string :=
  match s with
  | EmptyString => EmptyString
  | String c s' => if isspace c then skip_spaces s' else s
  end.

Definition strtol (s : string) : option Z :=
  match skip_spaces s with
  | String "-" s' => option_map Z.opp (digits s' 0 false)
  | String "+" s' => digits s' 0 false
  | s' => digits s' 0 false
  end.

(** The value stored in an [int] for a decimal numeral: glibc converts
    through [strtol], which saturates at the bounds of a 64-bit [long],
    and the result is then truncated to 32 bits. *)
Definition int_of_long (v : Z) : Z :=
  let l := Z.max (- 2 ^ 63) (Z.min v (2 ^ 63 - 1)) in
  (l + 2 ^ 31) mod 2 ^ 32 - 2 ^ 31.

(** [atoi(s)] *)
Definition atoi (s : string) : Z :=
  match strtol s with Some v => int_of_long v | None => 0 end.

(** [sscanf(s, "%d", &x)]: the new value of [x] *)
Definition sscanf_d (s : string) (x : Z) : Z :=
  match strtol s with Some v => int_of_long v | None => x end.

(** Membership in the scan set [[A-Fa-f0-9:]] *)
Definition in_mac_scanset (c : ascii) : bool :=
  let n := N_of_ascii c in
  (((65 <=? n) && (n <=? 70)) || ((97 <=? n) && (n <=? 102))
   || ((48 <=? n) && (n <=? 57)) || (n =? 58))%N.

Fixpoint scan_set (width : nat) (s : string) : string :=
  match width, s with
  | S w, String c s' =>
      if in_mac_scanset c then String c (scan_set w s') else EmptyString
  | _, _ => EmptyString
  end.

(** [sscanf(s, " %17[A-Fa-f0-9:]", mac) == 1], with the text stored in
    [mac] *)
Definition sscanf_mac (s : string) : option string :=
  match scan_set 17 (skip_spaces s) with
  | EmptyString => None
  | m => Some m
  end.

(** The successive results of [strsep(&p, ", ")] until it returns NULL *)
Fixpoint strsep_tokens (s : string) : list string :=
  match s with
  | EmptyString => [EmptyString]
  | String c s' =>
      if Ascii.eqb c "," || Ascii.eqb c " " then EmptyString :: strsep_tokens s'
      else match strsep_tokens s' with
           | t :: ts => String c t :: ts
           | [] => [String c EmptyString]
           end
  end.

(** A stream opened for reading: the text not yet read and the
    end-of-file indicator. *)
Record FILE : Type := mkFILE { content : string; at_eof : bool }.

(** [fgets] reads at most [k] characters and stops after a newline:
    the characters read, the text left and whether the end of the file
    was hit while reading. *)
Fixpoint read_line (k : nat) (s : string) : string * string * bool :=
  match k with
  | O => (EmptyString, s, false)
  | S k' =>
      match s with
      | EmptyString => (EmptyString, EmptyString, true)
      | String c s' =>
          if Ascii.eqb c LF then (String c EmptyString, s', false)
          else let '(l, r, e) := read_line k' s' in (String c l, r, e)
      end
  end.

(** [fgets(line, n, f)]: [None] is the NULL result (nothing read before
    the end of the file). *)
Definition fgets (n : nat) (f : FILE) : option string * FILE :=
  let '(l, r, e) := read_line (n - 1) (content f) in
  let f' := mkFILE r (at_eof f || e) in
  match l with
  | EmptyString => if e then (None, f') else (Some l, f')
  | _ => (Some l, f')
  end.

Definition feof (f : FILE) : bool := at_eof f.

End Libc.
Import Libc.

(** ** Data model

    The structures are declared in [conf.h] and [firewall.h]; they are
    given here with the fields [conf.c] reads and writes. *)

(** A remote server ([t_serv]); the [next] link is the list order. *)
Record t_serv : Type := mk_serv {
  serv_hostname : option string;
  last_ip : option string;
  serv_use_ssl : Z;
  serv_http_port : Z;
  serv_ssl_port : Z;
  serv_path : option string;
  serv_login_script_path_fragment : option string;
  serv_portal_script_path_fragment : option string;
  serv_msg_script_path_fragment : option string;
  serv_ping_script_path_fragment : option string;
  serv_auth_script_path_fragment : option string;
  serv_update_script_path_fragment : option string
}.

Inductive t_firewall_target : Type :=
| TARGET_DROP | TARGET_REJECT | TARGET_ACCEPT | TARGET_LOG | TARGET_ULOG.

(** A firewall rule ([t_firewall_rule]: target, protocol, port, mask). *)
Record t_firewall_rule : Type := mk_rule {
  fr_target : t_firewall_target;
  fr_protocol : option string;
  fr_port : option string;
  fr_mask : option string
}.

(** A named ruleset ([t_firewall_ruleset]: name, rules). *)
Record t_firewall_ruleset : Type := mk_ruleset {
  rs_name : string;
  rs_rules : list t_firewall_rule
}.

(** An entry of the trusted list ([t_trusted_mac]: mac). *)
Definition t_trusted_mac : Type := string.

(** The configuration of the gateway ([s_config]). *)
Record s_config : Type := mk_config {
  configfile : string;
  htmlmsgfile : option string;
  debuglevel : Z;
  httpdmaxconn : Z;
  external_interface : option string;
  gw_id : option string;
  dev_id : option string;
  gw_mac : option string;
  gw_interface : option string;
  gw_address : option string;
  gw_port : Z;
  auth_servers : list t_serv;
  portal_servers : list t_serv;
  plat_servers : list t_serv;
  log_servers : list t_serv;
  update_servers : list t_serv;
  httpdname : option string;
  httpdrealm : option string;
  httpdusername : option string;
  httpdpassword : option string;
  clienttimeout : Z;
  checkinterval : Z;
  authinterval : Z;
  syslog_facility : Z;
  daemon : Z;
  log_syslog : Z;
  wdctl_sock : option string;
  internal_sock : option string;
  rulesets : list t_firewall_ruleset;
  trustedmaclist : list t_trusted_mac;
  proxy_port : Z
}.

(** Assignments to the fields of the configuration. *)
Definition set_configfile (v : string) (c : s_config) : s_config :=
  let 'mk_config _ x1 x2 x3 x4 x5 x6 x7 x8 x9 x10 x11 x12 x13 x14 x15 x16 x17 x18 x19 x20 x21 x22 x23 x24 x25 x26 x27 x28 x29 x30 := c in
  mk_config v x1 x2 x3 x4 x5 x6 x7 x8 x9 x10 x11 x12 x13 x14 x15 x16 x17 x18 x19 x20 x21 x22 x23 x24 x25 x26 x27 x28 x29 x30.
Definition set_htmlmsgfile (v : option string) (c : s_config) : s_config :=
  let 'mk_config x0 _ x2 x3 x4 x5 x6 x7 x8 x9 x10 x11 x12 x13 x14 x15 x16 x17 x18 x19 x20 x21 x22 x23 x24 x25 x26 x27 x28 x29 x30 := c in
  mk_config x0 v x2 x3 x4 x5 x6 x7 x8 x9 x10 x11 x12 x13 x14 x15 x16 x17 x18 x19 x20 x21 x22 x23 x24 x25 x26 x27 x28 x29 x30.
Definition set_debuglevel (v : Z) (c : s_config) : s_config :=
  let 'mk_config x0 x1 _ x3 x4 x5 x6 x7 x8 x9 x10 x11 x12 x13 x14 x15 x16 x17 x18 x19 x20 x21 x22 x23 x24 x25 x26 x27 x28 x29 x30 := c in
  mk_config x0 x1 v x3 x4 x5 x6 x7 x8 x9 x10 x11 x12 x13 x14 x15 x16 x17 x18 x19 x20 x21 x22 x23 x24 x25 x26 x27 x28 x29 x30.
Definition set_httpdmaxconn (v : Z) (c : s_config) : s_config :=
  let 'mk_config x0 x1 x2 _ x4 x5 x6 x7 x8 x9 x10 x11 x12 x13 x14 x15 x16 x17 x18 x19 x20 x21 x22 x23 x24 x25 x26 x27 x28 x29 x30 := c in
  mk_config x0 x1 x2 v x4 x5 x6 x7 x8 x9 x10 x11 x12 x13 x14 x15 x16 x17 x18 x19 x20 x21 x22 x23 x24 x25 x26 x27 x28 x29 x30.
Definition set_external_interface (v : option string) (c : s_config) : s_config :=
  let 'mk_config x0 x1 x2 x3 _ x5 x6 x7 x8 x9 x10 x11 x12 x13 x14 x15 x16 x17 x18 x19 x20 x21 x22 x23 x24 x25 x26 x27 x28 x29 x30 := c in
  mk_config x0 x1 x2 x3 v x5 x6 x7 x8 x9 x10 x11 x12 x13 x14 x15 x16 x17 x18 x19 x20 x21 x22 x23 x24 x25 x26 x27 x28 x29 x30.
Definition set_gw_id (v : option string) (c : s_config) : s_config :=
  let 'mk_config x0 x1 x2 x3 x4 _ x6 x7 x8 x9 x10 x11 x12 x13 x14 x15 x16 x17 x18 x19 x20 x21 x22 x23 x24 x25 x26 x27 x28 x29 x30 := c in
  mk_config x0 x1 x2 x3 x4 v x6 x7 x8 x9 x10 x11 x12 x13 x14 x15 x16 x17 x18 x19 x20 x21 x22 x23 x24 x25 x26 x27 x28 x29 x30.
Definition set_dev_id (v : option string) (c : s_config) : s_config :=
  let 'mk_config x0 x1 x2 x3 x4 x5 _ x7 x8 x9 x10 x11 x12 x13 x14 x15 x16 x17 x18 x19 x20 x21 x22 x23 x24 x25 x26 x27 x28 x29 x30 := c in
  mk_config x0 x1 x2 x3 x4 x5 v x7 x8 x9 x10 x11 x12 x13 x14 x15 x16 x17 x18 x19 x20 x21 x22 x23 x24 x25 x26 x27 x28 x29 x30.
Definition set_gw_mac (v : option string) (c : s_config) : s_config :=
  let 'mk_config x0 x1 x2 x3 x4 x5 x6 _ x8 x9 x10 x11 x12 x13 x14 x15 x16 x17 x18 x19 x20 x21 x22 x23 x24 x25 x26 x27 x28 x29 x30 := c in
  mk_config x0 x1 x2 x3 x4 x5 x6 v x8 x9 x10 x11 x12 x13 x14 x15 x16 x17 x18 x19 x20 x21 x22 x23 x24 x25 x26 x27 x28 x29 x30.
Definition set_gw_interface (v : option string) (c : s_config) : s_config :=
  let 'mk_config x0 x1 x2 x3 x4 x5 x6 x7 _ x9 x10 x11 x12 x13 x14 x15 x16 x17 x18 x19 x20 x21 x22 x23 x24 x25 x26 x27 x28 x29 x30 := c in
  mk_config x0 x1 x2 x3 x4 x5 x6 x7 v x9 x10 x11 x12 x13 x14 x15 x16 x17 x18 x19 x20 x21 x22 x23 x24 x25 x26 x27 x28 x29 x30.
Definition set_gw_address (v : option string) (c : s_config) : s_config :=
  let 'mk_config x0 x1 x2 x3 x4 x5 x6 x7 x8 _ x10 x11 x12 x13 x14 x15 x16 x17 x18 x19 x20 x21 x22 x23 x24 x25 x26 x27 x28 x29 x30 := c in
  mk_config x0 x1 x2 x3 x4 x5 x6 x7 x8 v x10 x11 x12 x13 x14 x15 x16 x17 x18 x19 x20 x21 x22 x23 x24 x25 x26 x27 x28 x29 x30.
Definition set_gw_port (v : Z) (c : s_config) : s_config :=
  let 'mk_config x0 x1 x2 x3 x4 x5 x6 x7 x8 x9 _ x11 x12 x13 x14 x15 x16 x17 x18 x19 x20 x21 x22 x23 x24 x25 x26 x27 x28 x29 x30 := c in
  mk_config x0 x1 x2 x3 x4 x5 x6 x7 x8 x9 v x11 x12 x13 x14 x15 x16 x17 x18 x19 x20 x21 x22 x23 x24 x25 x26 x27 x28 x29 x30.
Definition set_auth_servers (v : list t_serv) (c : s_config) : s_config :=
  let 'mk_config x0 x1 x2 x3 x4 x5 x6 x7 x8 x9 x10 _ x12 x13 x14 x15 x16 x17 x18 x19 x20 x21 x22 x23 x24 x25 x26 x27 x28 x29 x30 := c in
  mk_config x0 x1 x2 x3 x4 x5 x6 x7 x8 x9 x10 v x12 x13 x14 x15 x16 x17 x18 x19 x20 x21 x22 x23 x24 x25 x26 x27 x28 x29 x30.
Definition set_portal_servers (v : list t_serv) (c : s_config) : s_config :=
  let 'mk_config x0 x1 x2 x3 x4 x5 x6 x7 x8 x9 x10 x11 _ x13 x14 x15 x16 x17 x18 x19 x20 x21 x22 x23 x24 x25 x26 x27 x28 x29 x30 := c in
  mk_config x0 x1 x2 x3 x4 x5 x6 x7 x8 x9 x10 x11 v x13 x14 x15 x16 x17 x18 x19 x20 x21 x22 x23 x24 x25 x26 x27 x28 x29 x30.
Definition set_plat_servers (v : list t_serv) (c : s_config) : s_config :=
  let 'mk_config x0 x1 x2 x3 x4 x5 x6 x7 x8 x9 x10 x11 x12 _ x14 x15 x16 x17 x18 x19 x20 x21 x22 x23 x24 x25 x26 x27 x28 x29 x30 := c in
  mk_config x0 x1 x2 x3 x4 x5 x6 x7 x8 x9 x10 x11 x12 v x14 x15 x16 x17 x18 x19 x20 x21 x22 x23 x24 x25 x26 x27 x28 x29 x30.
Definition set_log_servers (v : list t_serv) (c : s_config) : s_config :=
  let 'mk_config x0 x1 x2 x3 x4 x5 x6 x7 x8 x9 x10 x11 x12 x13 _ x15 x16 x17 x18 x19 x20 x21 x22 x23 x24 x25 x26 x27 x28 x29 x30 := c in
  mk_config x0 x1 x2 x3 x4 x5 x6 x7 x8 x9 x10 x11 x12 x13 v x15 x16 x17 x18 x19 x20 x21 x22 x23 x24 x25 x26 x27 x28 x29 x30.
Definition set_update_servers (v : list t_serv) (c : s_config) : s_config :=
  let 'mk_config x0 x1 x2 x3 x4 x5 x6 x7 x8 x9 x10 x11 x12 x13 x14 _ x16 x17 x18 x19 x20 x21 x22 x23 x24 x25 x26 x27 x28 x29 x30 := c in
  mk_config x0 x1 x2 x3 x4 x5 x6 x7 x8 x9 x10 x11 x12 x13 x14 v x16 x17 x18 x19 x20 x21 x22 x23 x24 x25 x26 x27 x28 x29 x30.
Definition set_httpdname (v : option string) (c : s_config) : s_config :=
  let 'mk_config x0 x1 x2 x3 x4 x5 x6 x7 x8 x9 x10 x11 x12 x13 x14 x15 _ x17 x18 x19 x20 x21 x22 x23 x24 x25 x26 x27 x28 x29 x30 := c in
  mk_config x0 x1 x2 x3 x4 x5 x6 x7 x8 x9 x10 x11 x12 x13 x14 x15 v x17 x18 x19 x20 x21 x22 x23 x24 x25 x26 x27 x28 x29 x30.
Definition set_httpdrealm (v : option string) (c : s_config) : s_config :=
  let 'mk_config x0 x1 x2 x3 x4 x5 x6 x7 x8 x9 x10 x11 x12 x13 x14 x15 x16 _ x18 x19 x20 x21 x22 x23 x24 x25 x26 x27 x28 x29 x30 := c in
  mk_config x0 x1 x2 x3 x4 x5 x6 x7 x8 x9 x10 x11 x12 x13 x14 x15 x16 v x18 x19 x20 x21 x22 x23 x24 x25 x26 x27 x28 x29 x30.
Definition set_httpdusername (v : option string) (c : s_config) : s_config :=
  let 'mk_config x0 x1 x2 x3 x4 x5 x6 x7 x8 x9 x10 x11 x12 x13 x14 x15 x16 x17 _ x19 x20 x21 x22 x23 x24 x25 x26 x27 x28 x29 x30 := c in
  mk_config x0 x1 x2 x3 x4 x5 x6 x7 x8 x9 x10 x11 x12 x13 x14 x15 x16 x17 v x19 x20 x21 x22 x23 x24 x25 x26 x27 x28 x29 x30.
Definition set_httpdpassword (v : option string) (c : s_config) : s_config :=
  let 'mk_config x0 x1 x2 x3 x4 x5 x6 x7 x8 x9 x10 x11 x12 x13 x14 x15 x16 x17 x18 _ x20 x21 x22 x23 x24 x25 x26 x27 x28 x29 x30 := c in
  mk_config x0 x1 x2 x3 x4 x5 x6 x7 x8 x9 x10 x11 x12 x13 x14 x15 x16 x17 x18 v x20 x21 x22 x23 x24 x25 x26 x27 x28 x29 x30.
Definition set_clienttimeout (v : Z) (c : s_config) : s_config :=
  let 'mk_config x0 x1 x2 x3 x4 x5 x6 x7 x8 x9 x10 x11 x12 x13 x14 x15 x16 x17 x18 x19 _ x21 x22 x23 x24 x25 x26 x27 x28 x29 x30 := c in
  mk_config x0 x1 x2 x3 x4 x5 x6 x7 x8 x9 x10 x11 x12 x13 x14 x15 x16 x17 x18 x19 v x21 x22 x23 x24 x25 x26 x27 x28 x29 x30.
Definition set_checkinterval (v : Z) (c : s_config) : s_config :=
  let 'mk_config x0 x1 x2 x3 x4 x5 x6 x7 x8 x9 x10 x11 x12 x13 x14 x15 x16 x17 x18 x19 x20 _ x22 x23 x24 x25 x26 x27 x28 x29 x30 := c in
  mk_config x0 x1 x2 x3 x4 x5 x6 x7 x8 x9 x10 x11 x12 x13 x14 x15 x16 x17 x18 x19 x20 v x22 x23 x24 x25 x26 x27 x28 x29 x30.
Definition set_authinterval (v : Z) (c : s_config) : s_config :=
  let 'mk_config x0 x1 x2 x3 x4 x5 x6 x7 x8 x9 x10 x11 x12 x13 x14 x15 x16 x17 x18 x19 x20 x21 _ x23 x24 x25 x26 x27 x28 x29 x30 := c in
  mk_config x0 x1 x2 x3 x4 x5 x6 x7 x8 x9 x10 x11 x12 x13 x14 x15 x16 x17 x18 x19 x20 x21 v x23 x24 x25 x26 x27 x28 x29 x30.
Definition set_syslog_facility (v : Z) (c : s_config) : s_config :=
  let 'mk_config x0 x1 x2 x3 x4 x5 x6 x7 x8 x9 x10 x11 x12 x13 x14 x15 x16 x17 x18 x19 x20 x21 x22 _ x24 x25 x26 x27 x28 x29 x30 := c in
  mk_config x0 x1 x2 x3 x4 x5 x6 x7 x8 x9 x10 x11 x12 x13 x14 x15 x16 x17 x18 x19 x20 x21 x22 v x24 x25 x26 x27 x28 x29 x30.
Definition set_daemon (v : Z) (c : s_config) : s_config :=
  let 'mk_config x0 x1 x2 x3 x4 x5 x6 x7 x8 x9 x10 x11 x12 x13 x14 x15 x16 x17 x18 x19 x20 x21 x22 x23 _ x25 x26 x27 x28 x29 x30 := c in
  mk_config x0 x1 x2 x3 x4 x5 x6 x7 x8 x9 x10 x11 x12 x13 x14 x15 x16 x17 x18 x19 x20 x21 x22 x23 v x25 x26 x27 x28 x29 x30.
Definition set_log_syslog (v : Z) (c : s_config) : s_config :=
  let 'mk_config x0 x1 x2 x3 x4 x5 x6 x7 x8 x9 x10 x11 x12 x13 x14 x15 x16 x17 x18 x19 x20 x21 x22 x23 x24 _ x26 x27 x28 x29 x30 := c in
  mk_config x0 x1 x2 x3 x4 x5 x6 x7 x8 x9 x10 x11 x12 x13 x14 x15 x16 x17 x18 x19 x20 x21 x22 x23 x24 v x26 x27 x28 x29 x30.
Definition set_wdctl_sock (v : option string) (c : s_config) : s_config :=
  let 'mk_config x0 x1 x2 x3 x4 x5 x6 x7 x8 x9 x10 x11 x12 x13 x14 x15 x16 x17 x18 x19 x20 x21 x22 x23 x24 x25 _ x27 x28 x29 x30 := c in
  mk_config x0 x1 x2 x3 x4 x5 x6 x7 x8 x9 x10 x11 x12 x13 x14 x15 x16 x17 x18 x19 x20 x21 x22 x23 x24 x25 v x27 x28 x29 x30.
Definition set_internal_sock (v : option string) (c : s_config) : s_config :=
  let 'mk_config x0 x1 x2 x3 x4 x5 x6 x7 x8 x9 x10 x11 x12 x13 x14 x15 x16 x17 x18 x19 x20 x21 x22 x23 x24 x25 x26 _ x28 x29 x30 := c in
  mk_config x0 x1 x2 x3 x4 x5 x6 x7 x8 x9 x10 x11 x12 x13 x14 x15 x16 x17 x18 x19 x20 x21 x22 x23 x24 x25 x26 v x28 x29 x30.
Definition set_rulesets (v : list t_firewall_ruleset) (c : s_config) : s_config :=
  let 'mk_config x0 x1 x2 x3 x4 x5 x6 x7 x8 x9 x10 x11 x12 x13 x14 x15 x16 x17 x18 x19 x20 x21 x22 x23 x24 x25 x26 x27 _ x29 x30 := c in
  mk_config x0 x1 x2 x3 x4 x5 x6 x7 x8 x9 x10 x11 x12 x13 x14 x15 x16 x17 x18 x19 x20 x21 x22 x23 x24 x25 x26 x27 v x29 x30.
Definition set_trustedmaclist (v : list t_trusted_mac) (c : s_config) : s_config :=
  let 'mk_config x0 x1 x2 x3 x4 x5 x6 x7 x8 x9 x10 x11 x12 x13 x14 x15 x16 x17 x18 x19 x20 x21 x22 x23 x24 x25 x26 x27 x28 _ x30 := c in
  mk_config x0 x1 x2 x3 x4 x5 x6 x7 x8 x9 x10 x11 x12 x13 x14 x15 x16 x17 x18 x19 x20 x21 x22 x23 x24 x25 x26 x27 x28 v x30.
Definition set_proxy_port (v : Z) (c : s_config) : s_config :=
  let 'mk_config x0 x1 x2 x3 x4 x5 x6 x7 x8 x9 x10 x11 x12 x13 x14 x15 x16 x17 x18 x19 x20 x21 x22 x23 x24 x25 x26 x27 x28 x29 _ := c in
  mk_config x0 x1 x2 x3 x4 x5 x6 x7 x8 x9 x10 x11 x12 x13 x14 x15 x16 x17 x18 x19 x20 x21 x22 x23 x24 x25 x26 x27 x28 x29 v.

(** ** The process: global state, error log, termination *)

(** The messages written with [debug(LOG_ERR, ...)], with the values
    their format strings print. *)
Inductive log_msg : Type :=
| Bad_configuration_option (filename : string) (linenum : Z) (cp : string)
| Bad_option_on_line (linenum : Z) (filename : string)
| Exiting
| Invalid_rule_type (token : string)
| Invalid_port (port : string)
| Invalid_keyword (other_kw : string)
| Invalid_mask (mask : string)
| Could_not_open (filename : string)
| Username_requires_password
| Is_not_set (parmname : string)
| Configuration_not_complete.

(** The file-scope variables of [conf.c] ([config], [missing_parms]) and
    the error log. *)
Record process : Type := mk_process {
  config : s_config;
  missing_parms : Z;
  errlog : list log_msg
}.

(** How a call ends: it returns, the process exits, or the C program has
    no defined result (undefined behaviour, or a loop that never ends). *)
Inductive outcome (A : Type) : Type :=
| Returns (a : A) (w : process)
| Exits (status : Z) (w : process)
| NoResult.
Arguments Returns {A} a w.
Arguments Exits {A} status w.
Arguments NoResult {A}.

Definition M (A : Type) : Type := process -> outcome A.

Definition ret {A} (a : A) : M A := fun w => Returns a w.

Definition bind {A B} (m : M A) (k : A -> M B) : M B :=
  fun w =>
    match m w with
    | Returns a w' => k a w'
    | Exits n w' => Exits n w'
    | NoResult => NoResult
    end.

Notation "'let*' x ':=' m 'in' k" := (bind m (fun x => k))
  (at level 10, x pattern, m at level 100, k at level 200).
Notation "m '>>' k" := (bind m (fun _ => k))
  (at level 90, right associativity).

Definition exit {A} (status : Z) : M A := fun w => Exits status w.

Definition no_result {A} : M A := fun _ => NoResult.

Definition debug_err (m : log_msg) : M unit :=
  fun w => Returns tt (mk_process (config w) (missing_parms w) (errlog w ++ [m])).

Definition get_config : M s_config := fun w => Returns (config w) w.

Definition update_config (f : s_config -> s_config) : M unit :=
  fun w => Returns tt (mk_process (f (config w)) (missing_parms w) (errlog w)).

Definition set_missing_parms (v : Z) : M unit :=
  fun w => Returns tt (mk_process (config w) v (errlog w)).

Definition get_missing_parms : M Z := fun w => Returns (missing_parms w) w.

(** ** Constants of the headers and external services

    [conf.c] takes [MAX_BUF] from [common.h], the [DEFAULT_*] macros from
    [conf.h] and the resolver [wd_gethostbyname] from [util.c]; they are
    parameters of the development.  The resolver is given with the text
    [inet_ntoa] prints for the address it finds. *)
Class Platform : Type := mk_platform {
  MAX_BUF : nat;
  DEFAULT_CONFIGFILE : string;
  DEFAULT_HTMLMSGFILE : string;
  DEFAULT_DEBUGLEVEL : Z;
  DEFAULT_HTTPDMAXCONN : Z;
  DEFAULT_DEV : string;
  DEFAULT_GATEWAYPORT : Z;
  DEFAULT_HTTPDNAME : string;
  DEFAULT_CLIENTTIMEOUT : Z;
  DEFAULT_CHECKINTERVAL : Z;
  DEFAULT_AUTHINTERVAL : Z;
  DEFAULT_SYSLOG_FACILITY : Z;
  DEFAULT_DAEMON : Z;
  DEFAULT_LOG_SYSLOG : Z;
  DEFAULT_WDCTL_SOCK : string;
  DEFAULT_INTERNAL_SOCK : string;
  DEFAULT_LOGSERVER : string;
  DEFAULT_UPDATESERVER : string;
  DEFAULT_UPDATESERVERPATH : string;
  DEFAULT_UPDATESERVERPATHFRAGMENT : string;
  DEFAULT_AUTHSERVPATH : string;
  DEFAULT_AUTHSERVLOGINPATHFRAGMENT : string;
  DEFAULT_AUTHSERVPORTALPATHFRAGMENT : string;
  DEFAULT_AUTHSERVMSGPATHFRAGMENT : string;
  DEFAULT_AUTHSERVPINGPATHFRAGMENT : string;
  DEFAULT_AUTHSERVAUTHPATHFRAGMENT : string;
  DEFAULT_AUTHSERVPORT : Z;
  DEFAULT_AUTHSERVSSLPORT : Z;
  DEFAULT_AUTHSERVSSLAVAILABLE : Z;
  wd_gethostbyname : string -> option string
}.

(** ** Keywords *)

Inductive OpCodes : Type :=
| oBadOption
| oDaemon
| oDebugLevel
| oExternalInterface
| oGatewayID
| oDevID
| oGatewayInterface
| oGatewayAddress
| oGatewayPort
| oPortalServer
| oPlatServer
| oLogServer
| oAuthServer
| oServHostname
| oServSSLAvailable
| oServSSLPort
| oServHTTPPort
| oLogServPort
| oServPath
| oServLoginScriptPathFragment
| oServPortalScriptPathFragment
| oServMsgScriptPathFragment
| oServPingScriptPathFragment
| oServAuthScriptPathFragment
| oHTTPDMaxConn
| oHTTPDName
| oHTTPDRealm
| oHTTPDUsername
| oHTTPDPassword
| oClientTimeout
| oCheckInterval
| oAuthInterval
| oWdctlSocket
| oSyslogFacility
| oFirewallRule
| oFirewallRuleSet
| oTrustedMACList
| oHtmlMessageFile
| oProxyPort.

#[global] Instance OpCodes_eq_dec : EqDecision OpCodes.
Proof. solve_decision. Defined.

Definition keywords : list (string * OpCodes) :=
  [ ("daemon", oDaemon);
    ("debuglevel", oDebugLevel);
    ("externalinterface", oExternalInterface);
    ("gatewayid", oGatewayID);
    ("devid", oDevID);
    ("gatewayinterface", oGatewayInterface);
    ("gatewayaddress", oGatewayAddress);
    ("gatewayport", oGatewayPort);
    ("authserver", oAuthServer);
    ("portalserver", oPortalServer);
    ("platformserver", oPlatServer);
    ("logserver", oLogServer);
    ("httpdmaxconn", oHTTPDMaxConn);
    ("httpdname", oHTTPDName);
    ("httpdrealm", oHTTPDRealm);
    ("httpdusername", oHTTPDUsername);
    ("httpdpassword", oHTTPDPassword);
    ("clienttimeout", oClientTimeout);
    ("checkinterval", oCheckInterval);
    ("authinterval", oAuthInterval);
    ("syslogfacility", oSyslogFacility);
    ("wdctlsocket", oWdctlSocket);
    ("hostname", oServHostname);
    ("sslavailable", oServSSLAvailable);
    ("sslport", oServSSLPort);
    ("httpport", oServHTTPPort);
    ("logport", oLogServPort);
    ("path", oServPath);
    ("loginscriptpathfragment", oServLoginScriptPathFragment);
    ("portalscriptpathfragment", oServPortalScriptPathFragment);
    ("msgscriptpathfragment", oServMsgScriptPathFragment);
    ("pingscriptpathfragment", oServPingScriptPathFragment);
    ("authscriptpathfragment", oServAuthScriptPathFragment);
    ("firewallruleset", oFirewallRuleSet);
    ("firewallrule", oFirewallRule);
    ("trustedmaclist", oTrustedMACList);
    ("htmlmessagefile", oHtmlMessageFile);
    ("proxyport", oProxyPort) ].

(** The search loop of [config_parse_token]: the opcode of the first
    keyword equal to [cp] up to case, if there is one. *)
Fixpoint keyword_search (table : list (string * OpCodes)) (cp : string)
  : option OpCodes :=
  match table with
  | [] => None
  | (name, opcode) :: table' =>
      if strcaseeq cp name then Some opcode else keyword_search table' cp
  end.

Definition config_parse_token (cp filename : string) (linenum : Z) : M OpCodes :=
  match keyword_search keywords cp with
  | Some opcode => ret opcode
  | None =>
      debug_err (Bad_configuration_option filename linenum cp) >>
      ret oBadOption
  end.

Definition parse_boolean_value (line : string) : Z :=
  if strcaseeq line "yes" then 1
  else if strcaseeq line "no" then 0
  else if streq line "1" then 1
  else if streq line "0" then 0
  else -1.

(** ** The firewall-rule mini-parser *)

(** The macro [TO_NEXT_WORD(s, e)]: the word [s] pointed to, now
    terminated, then the new values of [s] and [e]. *)
Definition TO_NEXT_WORD (s : string) (e : bool) : string * string * bool :=
  match word_end s with
  | (w, Some r) => (w, skip_blanks r, e)
  | (w, None) => (w, EmptyString, true)
  end.

Definition all_digits (s : string) : bool :=
  forallb isdigit (list_ascii_of_string s).

Definition all_mask_chars (s : string) : bool :=
  forallb (fun c => isdigit c || Ascii.eqb c "." || Ascii.eqb c "/")
          (list_ascii_of_string s).

(** The target chosen for the first word, [None] where the code reports
    an invalid rule type. *)
Definition rule_target (token : string) (finished : bool)
  : option t_firewall_target :=
  if strcaseeq token "block" || finished then Some TARGET_REJECT
  else if strcaseeq token "drop" then Some TARGET_DROP
  else if strcaseeq token "allow" then Some TARGET_ACCEPT
  else if strcaseeq token "log" then Some TARGET_LOG
  else if strcaseeq token "ulog" then Some TARGET_ULOG
  else None.

(** The optional ["to" mask] clause and the rule record. *)
Definition rule_mask (target : t_firewall_target) (protocol port : option string)
    (leftover : string) (finished : bool)
  : (Z * log_msg) + t_firewall_rule :=
  if negb finished then
    let '(other_kw, leftover, finished) := TO_NEXT_WORD leftover finished in
    if negb (streq other_kw "to") || finished then
      inl (-4, Invalid_keyword other_kw)
    else
      let '(mask, leftover, finished) := TO_NEXT_WORD leftover finished in
      if negb (all_mask_chars mask) then inl (-3, Invalid_mask mask)
      else inr (mk_rule target protocol port (Some mask))
  else inr (mk_rule target protocol port (Some "0.0.0.0/0")).

(** The optional ["port" port] clause. *)
Definition rule_port (target : t_firewall_target) (protocol : option string)
    (leftover : string) (finished : bool)
  : (Z * log_msg) + t_firewall_rule :=
  if has_prefix "port" leftover then
    let '(_, leftover, finished) := TO_NEXT_WORD leftover finished in
    let '(port, leftover, finished) := TO_NEXT_WORD leftover finished in
    if negb (all_digits port) then inl (-3, Invalid_port port)
    else rule_mask target protocol (Some port) leftover finished
  else rule_mask target protocol None leftover finished.

(** The parsing part of [_parse_firewall_rule], up to the rule record: a
    failure code with its message, or the rule. *)
Definition parse_rule (leftover : string) : (Z * log_msg) + t_firewall_rule :=
  let leftover := strlower leftover in
  let '(token, leftover, finished) := TO_NEXT_WORD leftover false in
  match rule_target token finished with
  | None => inl (-1, Invalid_rule_type token)
  | Some target =>
      if has_prefix "tcp" leftover || has_prefix "udp" leftover
         || has_prefix "icmp" leftover
      then
        let '(protocol, leftover, finished) := TO_NEXT_WORD leftover finished in
        rule_port target (Some protocol) leftover finished
      else rule_port target None leftover finished
  end.

(** The appending part of [_parse_firewall_rule]: the ruleset named
    [ruleset] is searched from the head with [strcmp] and created at the
    tail when absent; the rule goes to the tail of its rules. *)
Fixpoint append_rule (ruleset : string) (tmp : t_firewall_rule)
    (l : list t_firewall_ruleset) : list t_firewall_ruleset :=
  match l with
  | [] => [mk_ruleset ruleset [tmp]]
  | tmpr :: l' =>
      if streq (rs_name tmpr) ruleset
      then mk_ruleset (rs_name tmpr) (rs_rules tmpr ++ [tmp]) :: l'
      else tmpr :: append_rule ruleset tmp l'
  end.

Definition _parse_firewall_rule (ruleset leftover : string) : M Z :=
  match parse_rule leftover with
  | inl (code, msg) => debug_err msg >> ret code
  | inr tmp =>
      update_config (fun c => set_rulesets (append_rule ruleset tmp (rulesets c)) c) >>
      ret 1
  end.

Definition get_ruleset (c : s_config) (ruleset : string)
  : option (list t_firewall_rule) :=
  match List.find (fun tmp => streq (rs_name tmp) ruleset) (rulesets c) with
  | Some tmp => Some (rs_rules tmp)
  | None => None
  end.

(** [p != NULL] *)
Definition not_null {A} (p : option A) : bool :=
  match p with Some _ => true | None => false end.

(** ** Block parsers *)

Section Parser.
Context `{Platform}.

(** The loop condition shared by [parse_server] and
    [parse_firewall_ruleset]: [memset], then [fgets(line, MAX_BUF - 1,
    file)], then the search for the closing brace.  [None] ends the loop. *)
Definition block_fgets (file : FILE) : option string * FILE :=
  match fgets (MAX_BUF - 1) file with
  | (Some line, file') =>
      if contains "}" line then (None, file') else (Some line, file')
  | (None, file') => (None, file')
  end.

(** The scanning both block parsers do on a line: [p1] skips the leading
    blanks and is cut at the first ['#'], else at the first carriage
    return, else at the first newline; when it is not empty its first
    word is terminated and [p2] is moved one character further, then over
    blanks.  When the first word runs up to the cut, [p2] lands in the
    text that followed the cut character, the buffer being zeroed beyond
    the line.  The result is [(p1, p2)], or [None] for an empty [p1]. *)
Definition block_tokens (line : string) : option (string * string) :=
  let p1 := skip_blanks line in
  let '(p1, beyond) :=
    match cut_at "#" p1 with
    | Some (u, v) => (u, v)
    | None =>
        match cut_at CR p1 with
        | Some (u, v) => (u, v)
        | None =>
            match cut_at LF p1 with
            | Some (u, v) => (u, v)
            | None => (p1, EmptyString)
            end
        end
    end in
  match p1 with
  | EmptyString => None
  | _ =>
      match word_end p1 with
      | (w, Some r) => Some (w, skip_blanks r)
      | (w, None) => Some (w, skip_blanks beyond)
      end
  end.

(** The local variables of [parse_server]. *)
Record serv_vars : Type := mk_vars {
  v_host : option string;
  v_path : option string;
  v_loginscriptpathfragment : option string;
  v_portalscriptpathfragment : option string;
  v_msgscriptpathfragment : option string;
  v_pingscriptpathfragment : option string;
  v_authscriptpathfragment : option string;
  v_http_port : Z;
  v_ssl_port : Z;
  v_ssl_available : Z
}.

Definition serv_defaults : serv_vars :=
  mk_vars None
          (Some DEFAULT_AUTHSERVPATH)
          (Some DEFAULT_AUTHSERVLOGINPATHFRAGMENT)
          (Some DEFAULT_AUTHSERVPORTALPATHFRAGMENT)
          (Some DEFAULT_AUTHSERVMSGPATHFRAGMENT)
          (Some DEFAULT_AUTHSERVPINGPATHFRAGMENT)
          (Some DEFAULT_AUTHSERVAUTHPATHFRAGMENT)
          DEFAULT_AUTHSERVPORT
          DEFAULT_AUTHSERVSSLPORT
          DEFAULT_AUTHSERVSSLAVAILABLE.

(** The [switch] of [parse_server] on the opcode of an interior line. *)
Definition parse_server_case (opcode : OpCodes) (p2 filename : string)
    (linenum : Z) (v : serv_vars) : M serv_vars :=
  let 'mk_vars host path login portal msg ping auth http_port ssl_port ssl_available := v in
  match opcode with
  | oServHostname =>
      ret (mk_vars (Some p2) path login portal msg ping auth http_port ssl_port ssl_available)
  | oServPath =>
      ret (mk_vars host (Some p2) login portal msg ping auth http_port ssl_port ssl_available)
  | oServLoginScriptPathFragment =>
      ret (mk_vars host path (Some p2) portal msg ping auth http_port ssl_port ssl_available)
  | oServPortalScriptPathFragment =>
      ret (mk_vars host path login (Some p2) msg ping auth http_port ssl_port ssl_available)
  | oServMsgScriptPathFragment =>
      ret (mk_vars host path login portal (Some p2) ping auth http_port ssl_port ssl_available)
  | oServPingScriptPathFragment =>
      ret (mk_vars host path login portal msg (Some p2) auth http_port ssl_port ssl_available)
  | oServAuthScriptPathFragment =>
      ret (mk_vars host path login portal msg ping (Some p2) http_port ssl_port ssl_available)
  | oServSSLPort =>
      ret (mk_vars host path login portal msg ping auth http_port (atoi p2) ssl_available)
  | oServHTTPPort =>
      ret (mk_vars host path login portal msg ping auth (atoi p2) ssl_port ssl_available)
  | oLogServPort => ret v
  | oServSSLAvailable =>
      let b := parse_boolean_value p2 in
      ret (mk_vars host path login portal msg ping auth http_port ssl_port
                   (if b <? 0 then 0 else b))
  | _ =>
      debug_err (Bad_option_on_line linenum filename) >>
      debug_err Exiting >>
      exit (-1)
  end.

(** The parsing loop of [parse_server].  [fuel] bounds the number of
    turns; every turn reads at least one character when [MAX_BUF] is at
    least 3. *)
Fixpoint parse_server_loop (fuel : nat) (file : FILE) (filename : string)
    (linenum : Z) (v : serv_vars) : M (FILE * Z * serv_vars) :=
  match fuel with
  | O => no_result
  | S fuel' =>
      match block_fgets file with
      | (None, file') => ret (file', linenum, v)
      | (Some line, file') =>
          let linenum := linenum + 1 in
          match block_tokens line with
          | None => parse_server_loop fuel' file' filename linenum v
          | Some (p1, p2) =>
              let* opcode := config_parse_token p1 filename linenum in
              let* v' := parse_server_case opcode p2 filename linenum v in
              parse_server_loop fuel' file' filename linenum v'
          end
      end
  end.

(** The address lookup done for portal and platform servers. *)
Definition resolve_last_ip (new : t_serv) : t_serv :=
  let 'mk_serv hostname old_ip a b c d e f g h i j := new in
  match wd_gethostbyname (default EmptyString hostname) with
  | Some ip =>
      match old_ip with
      | Some old =>
          if streq old ip then new
          else mk_serv hostname (Some ip) a b c d e f g h i j
      | None => mk_serv hostname (Some ip) a b c d e f g h i j
      end
  | None => new
  end.

Definition parse_server (file : FILE) (filename : string) (linenum : Z)
    (type : Z) : M (FILE * Z) :=
  let* (file, linenum, v) :=
    parse_server_loop (S (String.length (content file))) file filename
                      linenum serv_defaults in
  match v_host v with
  | None => ret (file, linenum)
  | Some host =>
      let new :=
        mk_serv (Some host) None (v_ssl_available v) (v_http_port v)
                (v_ssl_port v) (v_path v)
                (v_loginscriptpathfragment v) (v_portalscriptpathfragment v)
                (v_msgscriptpathfragment v) (v_pingscriptpathfragment v)
                (v_authscriptpathfragment v) None in
      match type with
      | 1 =>
          update_config (fun c => set_auth_servers (auth_servers c ++ [new]) c)
      | 2 =>
          update_config
            (fun c => set_portal_servers (portal_servers c ++ [resolve_last_ip new]) c)
      | 3 =>
          update_config
            (fun c => set_plat_servers (plat_servers c ++ [resolve_last_ip new]) c)
      | _ =>
          debug_err (Bad_option_on_line linenum filename) >>
          debug_err Exiting
      end >>
      ret (file, linenum)
  end.

(** The parsing loop of [parse_firewall_ruleset]; the value returned by
    [_parse_firewall_rule] is not used. *)
Fixpoint parse_firewall_ruleset_loop (fuel : nat) (ruleset : string)
    (file : FILE) (filename : string) (linenum : Z) : M (FILE * Z) :=
  match fuel with
  | O => no_result
  | S fuel' =>
      match block_fgets file with
      | (None, file') => ret (file', linenum)
      | (Some line, file') =>
          let linenum := linenum + 1 in
          match block_tokens line with
          | None => parse_firewall_ruleset_loop fuel' ruleset file' filename linenum
          | Some (p1, p2) =>
              let* opcode := config_parse_token p1 filename linenum in
              match opcode with
              | oFirewallRule =>
                  let* _ := _parse_firewall_rule ruleset p2 in
                  parse_firewall_ruleset_loop fuel' ruleset file' filename linenum
              | _ =>
                  debug_err (Bad_option_on_line linenum filename) >>
                  debug_err Exiting >>
                  exit (-1)
              end
          end
      end
  end.

Definition parse_firewall_ruleset (ruleset : string) (file : FILE)
    (filename : string) (linenum : Z) : M (FILE * Z) :=
  parse_firewall_ruleset_loop (S (String.length (content file))) ruleset file
                              filename linenum.

(** ** The trusted-MAC list *)

(** The walk of [parse_trusted_mac_list] over a non-empty list: [p] is
    the current entry, [next] the entries after it; an entry is compared
    with [mac] only when another entry follows it. *)
Fixpoint trusted_walk (mac : string) (p : t_trusted_mac)
    (next : list t_trusted_mac) (skipmac : bool) : bool :=
  match next with
  | [] => skipmac
  | q :: next' =>
      trusted_walk mac q next' (if streq p mac then true else skipmac)
  end.

(** What one accepted token does to the list. *)
Definition trusted_add (mac : string) (l : list t_trusted_mac)
  : list t_trusted_mac :=
  match l with
  | [] => [mac]
  | p :: next =>
      let skipmac := if streq p mac then true else false in
      let skipmac := trusted_walk mac p next skipmac in
      if negb skipmac then l ++ [mac] else l
  end.

(** The body of the [strsep] loop. *)
Definition trusted_token (l : list t_trusted_mac) (possiblemac : string)
  : list t_trusted_mac :=
  match sscanf_mac possiblemac with
  | Some mac => trusted_add mac l
  | None => l
  end.

Definition parse_trusted_mac_list (ptr : string) : M unit :=
  update_config
    (fun c => set_trustedmaclist
                (fold_left trusted_token (strsep_tokens ptr) (trustedmaclist c)) c).

(** ** The top-level dispatcher *)

(** The leading-space trimming of [config_read] (spaces only). *)
Fixpoint trim_spaces (p1 : string) : string :=
  match p1 with
  | String " " p1' => trim_spaces p1'
  | _ => p1
  end.

(** Removal of a final newline: [if (s[strlen(s) - 1] == '\n')
    s[strlen(s) - 1] = 0]. *)
Fixpoint chop_newline (s : string) : string :=
  match s with
  | EmptyString => EmptyString
  | String c EmptyString => if Ascii.eqb c LF then EmptyString else s
  | String c s' => String c (chop_newline s')
  end.

(** The scanning [config_read] does on a line: [s] is cut at the first
    space, else at the first tab; [p1], when there was a cut, starts after
    it, skips spaces and is cut at the first space, else at the first
    carriage return followed by a newline, else at the first newline. *)
Definition top_tokens (line : string) : string * option string :=
  let s := chop_newline line in
  let cut :=
    match cut_at " " s with
    | Some sp => Some sp
    | None => cut_at HT s
    end in
  match cut with
  | Some (s, p1) =>
      let p1 := trim_spaces p1 in
      let p1 :=
        match cut_at " " p1 with
        | Some (u, _) => u
        | None =>
            match cut_at_str (String CR (String LF EmptyString)) p1 with
            | Some u => u
            | None =>
                match cut_at LF p1 with
                | Some (u, _) => u
                | None => p1
                end
            end
        end in
      (s, Some p1)
  | None => (s, None)
  end.

(** The [switch] of [config_read]; it has no [default] case. *)
Definition config_read_case (opcode : OpCodes) (p1 : string) (fd : FILE)
    (filename : string) (linenum : Z) : M (FILE * Z) :=
  match opcode with
  | oDaemon =>
      let* c := get_config in
      (if (daemon c =? -1) && negb (parse_boolean_value p1 =? -1)
       then update_config (set_daemon (parse_boolean_value p1))
       else ret tt) >>
      ret (fd, linenum)
  | oExternalInterface =>
      update_config (set_external_interface (Some p1)) >> ret (fd, linenum)
  | oGatewayID =>
      update_config (set_gw_id (Some p1)) >> ret (fd, linenum)
  | oDevID =>
      update_config (set_dev_id (Some p1)) >> ret (fd, linenum)
  | oGatewayInterface =>
      update_config (set_gw_interface (Some p1)) >> ret (fd, linenum)
  | oGatewayAddress =>
      update_config (set_gw_address (Some p1)) >> ret (fd, linenum)
  | oGatewayPort =>
      update_config (fun c => set_gw_port (sscanf_d p1 (gw_port c)) c) >>
      ret (fd, linenum)
  | oAuthServer => parse_server fd filename linenum 1
  | oPortalServer => parse_server fd filename linenum 2
  | oPlatServer => parse_server fd filename linenum 3
  | oLogServer => ret (fd, linenum)
  | oFirewallRuleSet => parse_firewall_ruleset p1 fd filename linenum
  | oTrustedMACList => parse_trusted_mac_list p1 >> ret (fd, linenum)
  | oHTTPDName =>
      update_config (set_httpdname (Some p1)) >> ret (fd, linenum)
  | oHTTPDMaxConn =>
      update_config (fun c => set_httpdmaxconn (sscanf_d p1 (httpdmaxconn c)) c) >>
      ret (fd, linenum)
  | oHTTPDRealm =>
      update_config (set_httpdrealm (Some p1)) >> ret (fd, linenum)
  | oHTTPDUsername =>
      update_config (set_httpdusername (Some p1)) >> ret (fd, linenum)
  | oHTTPDPassword =>
      update_config (set_httpdpassword (Some p1)) >> ret (fd, linenum)
  | oBadOption =>
      debug_err (Bad_option_on_line linenum filename) >>
      debug_err Exiting >>
      exit (-1)
  | oCheckInterval =>
      update_config (fun c => set_checkinterval (sscanf_d p1 (checkinterval c)) c) >>
      ret (fd, linenum)
  | oAuthInterval =>
      update_config (fun c => set_authinterval (sscanf_d p1 (authinterval c)) c) >>
      ret (fd, linenum)
  | oWdctlSocket =>
      update_config (set_wdctl_sock (Some p1)) >> ret (fd, linenum)
  | oClientTimeout =>
      update_config (fun c => set_clienttimeout (sscanf_d p1 (clienttimeout c)) c) >>
      ret (fd, linenum)
  | oSyslogFacility =>
      update_config (fun c => set_syslog_facility (sscanf_d p1 (syslog_facility c)) c) >>
      ret (fd, linenum)
  | oHtmlMessageFile =>
      update_config (set_htmlmsgfile (Some p1)) >> ret (fd, linenum)
  | oProxyPort =>
      update_config (fun c => set_proxy_port (sscanf_d p1 (proxy_port c)) c) >>
      ret (fd, linenum)
  | _ => ret (fd, linenum)
  end.

(** The body of the reading loop of [config_read] for the line [line]
    just read; [linenum] is already incremented.  A line read by [fgets]
    is never empty; on an empty one the C code reads before the buffer. *)
Definition config_read_line (line : string) (fd : FILE) (filename : string)
    (linenum : Z) : M (FILE * Z) :=
  match line with
  | EmptyString => no_result
  | _ =>
      match top_tokens line with
      | (s, Some p1) =>
          if negb (streq p1 EmptyString) then
            if negb (has_prefix "#" s) then
              let* opcode := config_parse_token s filename linenum in
              config_read_case opcode p1 fd filename linenum
            else ret (fd, linenum)
          else ret (fd, linenum)
      | (s, None) => ret (fd, linenum)
      end
  end.

Fixpoint config_read_loop (fuel : nat) (fd : FILE) (filename : string)
    (linenum : Z) : M unit :=
  match fuel with
  | O => no_result
  | S fuel' =>
      if feof fd then ret tt
      else
        match fgets MAX_BUF fd with
        | (None, fd') => ret tt
        | (Some line, fd') =>
            let* (fd'', linenum') :=
              config_read_line line fd' filename (linenum + 1) in
            config_read_loop fuel' fd'' filename linenum'
        end
  end.

(** [config_read(filename)], where [fd] is what [fopen(filename, "r")]
    returns.  The closing [fclose] has no effect on the process. *)
Definition config_read (fd : option FILE) (filename : string) : M unit :=
  match fd with
  | None => debug_err (Could_not_open filename) >> exit 1
  | Some fd =>
      config_read_loop (S (String.length (content fd))) fd filename 0 >>
      let* c := get_config in
      if not_null (httpdusername c) && negb (not_null (httpdpassword c))
      then debug_err Username_requires_password >> exit (-1)
      else ret tt
  end.

(** ** Validation *)

(** [config_notnull(parm, parmname)], with [parm == NULL] as a boolean. *)
Definition config_notnull (parm_is_null : bool) (parmname : string) : M unit :=
  if parm_is_null then
    debug_err (Is_not_set parmname) >> set_missing_parms 1
  else ret tt.

Definition config_validate : M unit :=
  let* c := get_config in
  config_notnull (negb (not_null (gw_interface c))) "GatewayInterface" >>
  let* c := get_config in
  config_notnull (match auth_servers c with [] => true | _ => false end) "AuthServer" >>
  let* m := get_missing_parms in
  if negb (m =? 0) then debug_err Configuration_not_complete >> exit (-1)
  else ret tt.

(** ** Initialisation *)

Definition config_update_server_init : M unit :=
  let new :=
    mk_serv (Some DEFAULT_UPDATESERVER) None DEFAULT_AUTHSERVSSLAVAILABLE
            DEFAULT_AUTHSERVPORT DEFAULT_AUTHSERVSSLPORT
            (Some DEFAULT_UPDATESERVERPATH)
            (Some DEFAULT_AUTHSERVLOGINPATHFRAGMENT)
            (Some DEFAULT_AUTHSERVPORTALPATHFRAGMENT)
            (Some DEFAULT_AUTHSERVMSGPATHFRAGMENT)
            (Some DEFAULT_AUTHSERVPINGPATHFRAGMENT)
            (Some DEFAULT_AUTHSERVAUTHPATHFRAGMENT)
            (Some DEFAULT_UPDATESERVERPATHFRAGMENT) in
  update_config
    (fun c => match update_servers c with
              | [] => set_update_servers [new] c
              | _ => c
              end).

Definition config_init : M unit :=
  let new :=
    mk_serv (Some DEFAULT_LOGSERVER) None DEFAULT_AUTHSERVSSLAVAILABLE
            DEFAULT_AUTHSERVPORT DEFAULT_AUTHSERVSSLPORT
            (Some DEFAULT_AUTHSERVPATH)
            (Some DEFAULT_AUTHSERVLOGINPATHFRAGMENT)
            (Some DEFAULT_AUTHSERVPORTALPATHFRAGMENT)
            (Some DEFAULT_AUTHSERVMSGPATHFRAGMENT)
            (Some DEFAULT_AUTHSERVPINGPATHFRAGMENT)
            (Some DEFAULT_AUTHSERVAUTHPATHFRAGMENT)
            None in
  update_config
    (fun c =>
       mk_config DEFAULT_CONFIGFILE (Some DEFAULT_HTMLMSGFILE)
                 DEFAULT_DEBUGLEVEL DEFAULT_HTTPDMAXCONN
                 None (gw_id c) (Some DEFAULT_DEV) None None None
                 DEFAULT_GATEWAYPORT
                 [] [] []
                 (match log_servers c with [] => [new] | l => l end)
                 []
                 None (Some DEFAULT_HTTPDNAME) None None
                 DEFAULT_CLIENTTIMEOUT DEFAULT_CHECKINTERVAL
                 DEFAULT_AUTHINTERVAL DEFAULT_SYSLOG_FACILITY
                 (-1) DEFAULT_LOG_SYSLOG
                 (Some DEFAULT_WDCTL_SOCK) (Some DEFAULT_INTERNAL_SOCK)
                 [] [] 0) >>
  config_update_server_init.

Definition config_init_override : M unit :=
  update_config
    (fun c => if daemon c =? -1 then set_daemon DEFAULT_DAEMON c else c).

(** ** Notions used to state the properties *)

(** The interior lines of a block: the lines its loop condition lets
    through, in file order.  [fuel] bounds their number. *)
Fixpoint block_lines (fuel : nat) (file : FILE) : list string :=
  match fuel with
  | O => []
  | S fuel' =>
      match block_fgets file with
      | (Some line, file') => line :: block_lines fuel' file'
      | (None, _) => []
      end
  end.

Definition block_interior (file : FILE) : list string :=
  block_lines (S (String.length (content file))) file.

(** The opcode of the first word of an interior line, [None] for a line
    that is blank or a comment. *)
Definition line_opcode (line : string) : option OpCodes :=
  match block_tokens line with
  | Some (p1, _) => Some (default oBadOption (keyword_search keywords p1))
  | None => None
  end.

(** A line a ruleset block accepts: blank, comment, or [FirewallRule]. *)
Definition is_rule_line (line : string) : bool :=
  match line_opcode line with
  | Some opcode => bool_decide (opcode = oFirewallRule)
  | None => true
  end.

(** The rule an interior line of a ruleset block contributes. *)
Definition line_rule (line : string) : option t_firewall_rule :=
  match block_tokens line with
  | Some (p1, p2) =>
      match parse_rule p2 with
      | inr tmp => Some tmp
      | inl _ => None
      end
  | None => None
  end.

(** The rules parsed from the lines of a block, in file order. *)
Definition block_rules (file : FILE) : list t_firewall_rule :=
  omap line_rule (block_interior file).

(** The message an interior line of a ruleset block leaves in the log
    when its rule does not parse. *)
Definition line_error (line : string) : option log_msg :=
  match block_tokens line with
  | Some (p1, p2) =>
      match parse_rule p2 with
      | inl (_, msg) => Some msg
      | inr _ => None
      end
  | None => None
  end.

(** The rulesets after the rules [rs] were appended, one after the other,
    under the name [ruleset]. *)
Definition add_rules (ruleset : string) (rs : list t_firewall_rule)
    (l : list t_firewall_ruleset) : list t_firewall_ruleset :=
  fold_left (fun l tmp => append_rule ruleset tmp l) rs l.

(** The process with more messages in its log, and with one more rule. *)
Definition logged (w : process) (msgs : list log_msg) : process :=
  mk_process (config w) (missing_parms w) (errlog w ++ msgs).

Definition with_rules (ruleset : string) (rs : list t_firewall_rule)
    (w : process) : process :=
  mk_process (set_rulesets (add_rules ruleset rs (rulesets (config w))) (config w))
             (missing_parms w) (errlog w).

(** The rules held under a name ([get_ruleset], with NULL read as the
    empty list). *)
Definition ruleset_rules (c : s_config) (ruleset : string)
  : list t_firewall_rule :=
  default [] (get_ruleset c ruleset).

(** The same, read in a list of rulesets. *)
Definition rules_in (l : list t_firewall_ruleset) (ruleset : string)
  : list t_firewall_rule :=
  default [] (rs_rules <$> List.find (fun tmp => streq (rs_name tmp) ruleset) l).

Definition ruleset_names (c : s_config) : list string :=
  map rs_name (rulesets c).

(** The server-block directives other than [Hostname]. *)
Definition server_field_not_hostname (opcode : OpCodes) : bool :=
  match opcode with
  | oServPath | oServLoginScriptPathFragment | oServPortalScriptPathFragment
  | oServMsgScriptPathFragment | oServPingScriptPathFragment
  | oServAuthScriptPathFragment | oServSSLPort | oServHTTPPort
  | oLogServPort | oServSSLAvailable => true
  | _ => false
  end.

(** A line of a server block that sets no host name: blank, comment, or
    one of the other server directives. *)
Definition sets_no_hostname (line : string) : bool :=
  match line_opcode line with
  | Some opcode => server_field_not_hostname opcode
  | None => true
  end.

(** The process a call leaves behind, when it has a result. *)
Definition final {A} (o : outcome A) : option process :=
  match o with
  | Returns _ w => Some w
  | Exits _ w => Some w
  | NoResult => None
  end.

(** The daemon flag has the value [d]. *)
Definition daemon_is (d : Z) (w : process) : Prop := daemon (config w) = d.

(** The messages [config_validate] logs for the mandatory parameters that
    are missing from a configuration. *)
Definition missing_msgs (c : s_config) : list log_msg :=
  (if not_null (gw_interface c) then [] else [Is_not_set "GatewayInterface"])
  ++ (match auth_servers c with [] => [Is_not_set "AuthServer"] | _ => [] end).

(** [m] keeps the property [I] of the process, however it ends. *)
Definition preserves {A} (I : process -> Prop) (m : M A) : Prop :=
  forall w, I w ->
    match m w with
    | Returns _ w' => I w'
    | Exits _ w' => I w'
    | NoResult => True
    end.

(** ** Further notions *)

(** What the rule parser guarantees of a rule: a mask is set and is made
    of digits, dots and slashes; a port that is set is made of digits; a
    protocol that is set begins with tcp, udp or icmp. *)
Definition rule_ok (r : t_firewall_rule) : bool :=
  match fr_mask r with Some m => all_mask_chars m | None => false end
  && match fr_port r with Some p => all_digits p | None => true end
  && match fr_protocol r with
     | Some pr => has_prefix "tcp" pr || has_prefix "udp" pr || has_prefix "icmp" pr
     | None => true
     end.

(** A ruleset holds at least one rule, and rules of that kind only. *)
Definition ruleset_ok (rs : t_firewall_ruleset) : bool :=
  match rs_rules rs with
  | [] => false
  | rules => forallb rule_ok rules
  end.

(** An entry of the trusted list as [sscanf] stores it: one to seventeen
    characters, hexadecimal digits and colons. *)
Definition mac_ok (mac : t_trusted_mac) : bool :=
  negb (streq mac EmptyString)
  && (String.length mac <=? 17)%nat
  && forallb in_mac_scanset (list_ascii_of_string mac).

(** The shape of what the parsers build: ruleset names are distinct,
    rulesets and trusted entries are as above. *)
Definition parsed_ok (w : process) : Prop :=
  NoDup (ruleset_names (config w))
  /\ forallb ruleset_ok (rulesets (config w)) = true
  /\ forallb mac_ok (trustedmaclist (config w)) = true.

(** An outcome reached from [w] in good order: the log was only added
    to, an exit has status -1 and comes after at least one new message,
    and there is a result unless [hopeless] holds. *)
Definition orderly {A} (hopeless : Prop) (w : process) (o : outcome A) : Prop :=
  match o with
  | Returns _ w' => exists msgs, errlog w' = (errlog w ++ msgs)%list
  | Exits status w' =>
      status = -1
      /\ exists msgs, msgs <> [] /\ errlog w' = (errlog w ++ msgs)%list
  | NoResult => hopeless
  end.

(** The host name an interior line of a server block sets. *)
Definition line_hostname (line : string) : option string :=
  match block_tokens line with
  | Some (p1, p2) =>
      match keyword_search keywords p1 with
      | Some oServHostname => Some p2
      | _ => None
      end
  | None => None
  end.

(** The host name a server block ends with: that of its last [Hostname]
    line. *)
Definition block_hostname (lines : list string) : option string :=
  last (omap line_hostname lines).

(** The server list a kind of block appends to, and its assignment. *)
Definition servers_of (type : Z) (c : s_config) : list t_serv :=
  match type with
  | 1 => auth_servers c
  | 2 => portal_servers c
  | 3 => plat_servers c
  | _ => []
  end.

Definition set_servers_of (type : Z) (l : list t_serv) (c : s_config) : s_config :=
  match type with
  | 1 => set_auth_servers l c
  | 2 => set_portal_servers l c
  | 3 => set_plat_servers l c
  | _ => c
  end.

(** The directives read with [sscanf(p1, "%d", ...)], and the field each
    one is stored in. *)
Definition numeric_field (opcode : OpCodes) : option (s_config -> Z) :=
  match opcode with
  | oGatewayPort => Some gw_port
  | oHTTPDMaxConn => Some httpdmaxconn
  | oCheckInterval => Some checkinterval
  | oAuthInterval => Some authinterval
  | oClientTimeout => Some clienttimeout
  | oSyslogFacility => Some syslog_facility
  | oProxyPort => Some proxy_port
  | _ => None
  end.

(** A text [strtol] finds no number in: after white space comes neither
    a digit nor a sign followed by a digit. *)
Definition not_a_number (s : string) : bool :=
  match skip_spaces s with
  | EmptyString => true
  | String c s' =>
      if isdigit c then false
      else if Ascii.eqb c "+" || Ascii.eqb c "-" then
        match s' with
        | String d _ => negb (isdigit d)
        | EmptyString => true
        end
      else true
  end.

(** The record [parse_server] fills from its local variables for a block
    of the given kind that has set a host name. *)
Definition new_server (type : Z) (host : string) (v : serv_vars) : t_serv :=
  let new :=
    mk_serv (Some host) None (v_ssl_available v) (v_http_port v)
            (v_ssl_port v) (v_path v)
            (v_loginscriptpathfragment v) (v_portalscriptpathfragment v)
            (v_msgscriptpathfragment v) (v_pingscriptpathfragment v)
            (v_authscriptpathfragment v) None in
  match type with
  | 2 | 3 => resolve_last_ip new
  | _ => new
  end.

End Parser.

(** The file-scope variables when the program starts (zero-initialised
    static storage). *)
Definition config_at_start : s_config :=
  mk_config EmptyString None 0 0 None None None None None None 0
            [] [] [] [] [] None None None None 0 0 0 0 0 0 None None [] [] 0.

Definition process_at_start : process := mk_process config_at_start 0 [].

(** ** Sample inputs

    Values for the constants of the headers, used to evaluate the model
    on concrete files; the resolver finds no address. *)
Definition sample_platform : Platform :=
  mk_platform 4096 "/etc/wifidog.conf" "/etc/wifidog-msg.html" 6 10 "dev"
              2060 "WiFiDog" 5 60 60 24 1 0 "/tmp/wdctl.sock"
              "/tmp/wifidog.sock" "log.example.org" "update.example.org"
              "/update/" "check/?" "/wifidog/" "login/?" "portal/?"
              "gw_message.php?" "ping/?" "auth/?" 80 443 0
              (fun _ => None).

(** A text file from its lines, each ended by a newline. *)
Fixpoint text_of (lines : list string) : string :=
  match lines with
  | [] => EmptyString
  | l :: lines' => l +:+ String LF (text_of lines')
  end.

Definition file_of (lines : list string) : FILE := mkFILE (text_of lines) false.

(** The process after [config_init] with the sample constants. *)
Definition sample_start : process :=
  match @config_init sample_platform process_at_start with
  | Returns _ w => w
  | _ => process_at_start
  end.

(** ** The authentication-server list in memory

    [mark_auth_server_bad] re-links the list through its [next]
    pointers, so it is modelled on the nodes themselves. *)

Module AuthList.
Local Open Scope nat_scope.

(** A [t_serv] in memory: its fields and its [next] pointer (NULL is
    [None]). *)
Record node : Type := mk_node { serv : t_serv; next : option positive }.

(** The allocated servers by address, and [config.auth_servers]. *)
Record memory : Type := mk_memory {
  heap : gmap positive node;
  auth_servers : option positive
}.

(** [p->next = v] *)
Definition set_next (p : positive) (v : option positive)
    (h : gmap positive node) : gmap positive node :=
  alter (fun n => mk_node (serv n) v) p h.

(** [for (tmp = ...; tmp->next != NULL; tmp = tmp->next);] from [tmp];
    [None] when a pointer that is followed is not allocated or the
    walk does not end within [fuel] steps. *)
Fixpoint walk_to_last (fuel : nat) (h : gmap positive node)
    (tmp : positive) : option positive :=
  match fuel with
  | O => None
  | S fuel' =>
      match h !! tmp with
      | None => None
      | Some n =>
          match next n with
          | None => Some tmp
          | Some q => walk_to_last fuel' h q
          end
      end
  end.

(** [mark_auth_server_bad(bad_server)]; [None] where the C code has no
    defined result.  The new head is read from [bad_server->next] after
    the first assignment to [tmp->next], as in the source. *)
Definition mark_auth_server_bad (bad_server : option positive)
    (m : memory) : option (memory) :=
  if decide (auth_servers m = bad_server) then
    match bad_server with
    | None => None
    | Some b =>
        match heap m !! b with
        | None => None
        | Some n =>
            match next n with
            | None => Some m
            | Some _ =>
                match walk_to_last (size (heap m)) (heap m) b with
                | None => None
                | Some tmp =>
                    let h1 := set_next tmp (Some b) (heap m) in
                    match h1 !! b with
                    | None => None
                    | Some nb =>
                        let h2 := set_next tmp None h1 in
                        Some (mk_memory h2 (next nb))
                    end
                end
            end
        end
    end
  else Some m.

(** The chain of [next] pointers from [p] ends in NULL after visiting
    exactly the addresses [l]. *)
Inductive is_list (h : gmap positive node)
  : option positive -> list positive -> Prop :=
| is_list_nil : is_list h None []
| is_list_cons a n l :
    h !! a = Some n -> is_list h (next n) l -> is_list h (Some a) (a :: l).

(** The addresses reached from [p], computed. *)
Fixpoint servers_from (fuel : nat) (h : gmap positive node)
    (p : option positive) : option (list positive) :=
  match p with
  | None => Some []
  | Some a =>
      match fuel with
      | O => None
      | S fuel' =>
          match h !! a with
          | None => None
          | Some n =>
              match servers_from fuel' h (next n) with
              | Some l => Some (a :: l)
              | None => None
              end
          end
      end
  end.

Definition server_list (m : memory) : option (list positive) :=
  servers_from (size (heap m)) (heap m) (auth_servers m).

(** A server with the given host name and port 80. *)
Definition sample_serv (host : string) : t_serv :=
  mk_serv (Some host) None 0 80 443 (Some "/") None None None None None None.

(** Three servers at addresses 1, 2 and 3, linked in this order. *)
Definition three_servers : memory :=
  mk_memory
    (<[1%positive := mk_node (sample_serv "a") (Some 2%positive)]>
       (<[2%positive := mk_node (sample_serv "b") (Some 3%positive)]>
          (<[3%positive := mk_node (sample_serv "c") None]> ∅)))
    (Some 1%positive).

Section Lemmas.
Implicit Types (h : gmap positive node) (l : list positive).

Lemma is_list_fun h p l1 l2 : is_list h p l1 -> is_list h p l2 -> l1 = l2.
Proof.
  intros H1; revert l2; induction H1; intros l2 H2; inversion H2; subst; auto.
  f_equal. apply IHis_list. congruence.
Qed.

Lemma is_list_suffix h p l a l' :
  is_list h p l -> a :: l' `suffix_of` l -> is_list h (Some a) (a :: l').
Proof.
  induction 1 as [|b n l Hb Hl IH]; intros Hs.
  - apply suffix_nil_inv in Hs. discriminate.
  - apply suffix_cons_inv in Hs as [Heq | Hs].
    + inversion Heq; subst. econstructor; eauto.
    + auto.
Qed.

Lemma is_list_NoDup h p l : is_list h p l -> NoDup l.
Proof.
  induction 1 as [|a n l Ha Hl IH]; constructor; auto.
  intros Hin. apply list_elem_of_split in Hin as (l1 & l2 & ->).
  assert (Hs : is_list h (Some a) (a :: l2)).
  { eapply is_list_suffix; [exact Hl|]. by apply suffix_app_r. }
  assert (Hfull : is_list h (Some a) (a :: l1 ++ a :: l2)) by (econstructor; eauto).
  pose proof (is_list_fun _ _ _ _ Hs Hfull) as Heq.
  apply (f_equal length) in Heq. simpl in Heq. rewrite length_app in Heq. simpl in Heq. lia.
Qed.

Lemma is_list_dom h p l : is_list h p l -> forall a, a ∈ l -> is_Some (h !! a).
Proof.
  induction 1; intros b Hb.
  - by apply elem_of_nil in Hb.
  - apply elem_of_cons in Hb as [->|Hb]; eauto.
Qed.

Lemma is_list_length h p l : is_list h p l -> length l <= size h.
Proof.
  intros Hl.
  pose proof (is_list_NoDup _ _ _ Hl) as Hnd.
  pose proof (is_list_dom _ _ _ Hl) as Hdom.
  assert (Hsub : (list_to_set l : gset positive) ⊆ dom h).
  { intros x Hx. apply elem_of_list_to_set in Hx. apply elem_of_dom. auto. }
  apply subseteq_size in Hsub.
  rewrite size_list_to_set in Hsub; [|done].
  by rewrite size_dom in Hsub.
Qed.

Lemma servers_from_is_list h fuel p l :
  is_list h p l -> length l <= fuel -> servers_from fuel h p = Some l.
Proof.
  intros Hl. revert fuel. induction Hl as [|a n l Ha Hl IH]; intros fuel Hf.
  - by destruct fuel.
  - destruct fuel as [|fuel]; simpl in *; [lia|].
    rewrite Ha, IH; [done|lia].
Qed.

Lemma walk_to_last_is_list h fuel a l :
  is_list h (Some a) (a :: l) -> length (a :: l) <= fuel ->
  exists t n, walk_to_last fuel h a = Some t /\ last (a :: l) = Some t
              /\ h !! t = Some n /\ next n = None.
Proof.
  revert fuel a. induction l as [|b l IH]; intros fuel a Hl Hf.
  - inversion Hl as [|? n ? Ha Hn]; subst. inversion Hn; subst.
    destruct fuel; simpl in *; [lia|]. rewrite Ha. 
    exists a, n. destruct (next n) eqn:E; [discriminate|]. done.
  - inversion Hl as [|? n ? Ha Hn]; subst. inversion Hn as [|? nb ? Hb Hnb Heq]; subst.
    destruct fuel; simpl in Hf; [lia|]. 
    destruct (IH fuel b) as (t & nt & Hw & Hlast & Ht & Hnt).
    { econstructor; eauto. }
    { simpl. lia. }
    exists t, nt. simpl. rewrite Ha, <- Heq. split; [done|]. split; [|done].
    done.
Qed.

Lemma set_next_twice_id h t n v :
  h !! t = Some n -> next n = None ->
  set_next t None (set_next t v h) = h.
Proof.
  intros Ht Hn. unfold set_next. apply map_eq. intros i.
  destruct (decide (i = t)) as [->|Hne].
  - rewrite !lookup_alter_eq, Ht. simpl. destruct n; simpl in *; by subst.
  - by rewrite !lookup_alter_ne.
Qed.

Lemma lookup_set_next_ne h p q v :
  p <> q -> set_next p v h !! q = h !! q.
Proof. intros Hne. unfold set_next. by rewrite lookup_alter_ne. Qed.

Lemma mark_auth_server_bad_result (m : memory) a b l :
  auth_servers m = Some a ->
  is_list (heap m) (Some a) (a :: b :: l) ->
  mark_auth_server_bad (Some a) m = Some (mk_memory (heap m) (Some b)).
Proof.
  intros Hhead Hl. unfold mark_auth_server_bad.
  rewrite decide_True; [|done].
  pose proof (is_list_length _ _ _ Hl) as Hlen.
  destruct (walk_to_last_is_list _ (size (heap m)) _ _ Hl Hlen) as (t & nt & Hw & Hlast & Ht & Hnt).
  inversion Hl as [|? n ? Ha Hn]; subst.
  inversion Hn as [|? nb ? Hb Hnb Heq]; subst.
  rewrite Ha, <- Heq, Hw.
  assert (Hta : t ≠ a).
  { intros ->. rewrite Ha in Ht. inversion Ht; subst. rewrite <- Heq in Hnt. discriminate. }
  cbv zeta. rewrite lookup_set_next_ne by done. rewrite Ha, <- Heq.
  erewrite set_next_twice_id; eauto.
Qed.

(** C1.  On a list of at least two servers, [mark_auth_server_bad]
    applied to the head leaves every node as it was and moves
    [config.auth_servers] to the second server: the list read from the
    head is the former list without its first entry, which is on it no
    more (it is not moved to the end). *)
Theorem mark_auth_server_bad_drops_head (m : memory) a b l :
  auth_servers m = Some a ->
  is_list (heap m) (Some a) (a :: b :: l) ->
  exists m',
    mark_auth_server_bad (Some a) m = Some m'
    /\ heap m' = heap m
    /\ is_list (heap m') (auth_servers m') (b :: l)
    /\ server_list m' = Some (b :: l)
    /\ a ∉ b :: l.
Proof.
  intros Hhead Hl.
  exists (mk_memory (heap m) (Some b)).
  pose proof (is_list_NoDup _ _ _ Hl) as Hnd.
  assert (Htl : is_list (heap m) (Some b) (b :: l)).
  { eapply is_list_suffix; [exact Hl|]. by exists [a]. }
  split; [by apply (mark_auth_server_bad_result m a b l)|].
  split; [done|]. split; [done|]. split.
  - apply servers_from_is_list; [done|]. by eapply is_list_length.
  - apply NoDup_cons in Hnd as [Hnotin _]. exact Hnotin.
Qed.

Lemma three_servers_is_list :
  is_list (heap three_servers) (Some 1%positive)
          [1%positive; 2%positive; 3%positive].
Proof.
  eapply (is_list_cons _ 1%positive _ _); [by vm_compute|]. simpl.
  eapply (is_list_cons _ 2%positive _ _); [by vm_compute|]. simpl.
  eapply (is_list_cons _ 3%positive _ _); [by vm_compute|]. simpl.
  constructor.
Qed.

(** The three-server list [1; 2; 3] becomes [2; 3]. *)
Lemma mark_auth_server_bad_drops_head_witness :
  server_list three_servers = Some [1%positive; 2%positive; 3%positive]
  /\ exists m',
       mark_auth_server_bad (Some 1%positive) three_servers = Some m'
       /\ heap m' = heap three_servers
       /\ is_list (heap m') (auth_servers m') [2%positive; 3%positive]
       /\ server_list m' = Some [2%positive; 3%positive]
       /\ 1%positive ∉ [2%positive; 3%positive].
Proof.
  split; [by vm_compute|].
  apply (mark_auth_server_bad_drops_head three_servers 1%positive 2%positive
           [3%positive]); [reflexivity|apply three_servers_is_list].
Defined.

End Lemmas.
End AuthList.

(** * Properties *)

(** ** The rule mini-parser on the lines of the specification *)



Lemma parse_rule_foo :
  parse_rule "foo" = inr (mk_rule TARGET_REJECT None None (Some "0.0.0.0/0")).
Proof. vm_compute. reflexivity. Qed.

Lemma parse_rule_allow_port_abc :
  parse_rule "allow port abc" = inl (-3, Invalid_port "abc").
Proof. vm_compute. reflexivity. Qed.

(** What [_parse_firewall_rule] does with a line that parses. *)
Lemma parse_firewall_rule_ok ruleset leftover tmp w :
  parse_rule leftover = inr tmp ->
  _parse_firewall_rule ruleset leftover w
  = Returns 1 (mk_process
                 (set_rulesets (append_rule ruleset tmp (rulesets (config w))) (config w))
                 (missing_parms w) (errlog w)).
Proof. intros Hp. unfold _parse_firewall_rule. rewrite Hp. reflexivity. Qed.

(** What it does with a line that does not. *)
Lemma parse_firewall_rule_fail ruleset leftover code msg w :
  parse_rule leftover = inl (code, msg) ->
  _parse_firewall_rule ruleset leftover w
  = Returns code (mk_process (config w) (missing_parms w) (errlog w ++ [msg])).
Proof. intros Hp. unfold _parse_firewall_rule. rewrite Hp. reflexivity. Qed.


(** C5.  The line [foo] is not rejected: being the only word of the
    line it is taken for [block], the call returns 1 and a reject rule is
    appended.  The line [allow port abc] fails with code -3 and appends
    nothing; a line whose unknown first word is followed by another word
    fails with code -1. *)
Theorem parse_firewall_rule_foo_accepted (ruleset : string) (w : process) :
  _parse_firewall_rule ruleset "foo" w
  = Returns 1
      (mk_process
         (set_rulesets
            (append_rule ruleset
               (mk_rule TARGET_REJECT None None (Some "0.0.0.0/0"))
               (rulesets (config w)))
            (config w))
         (missing_parms w) (errlog w))
  /\ _parse_firewall_rule ruleset "allow port abc" w
     = Returns (-3)
         (mk_process (config w) (missing_parms w) (errlog w ++ [Invalid_port "abc"]))
  /\ _parse_firewall_rule ruleset "foo tcp" w
     = Returns (-1)
         (mk_process (config w) (missing_parms w)
                     (errlog w ++ [Invalid_rule_type "foo"])).
Proof.
  split; [|split].
  - apply parse_firewall_rule_ok, parse_rule_foo.
  - apply parse_firewall_rule_fail, parse_rule_allow_port_abc.
  - apply parse_firewall_rule_fail. vm_compute. reflexivity.
Qed.

(** ** The trusted-MAC list *)

(** The walk compares [mac] with every entry but the last one. *)
Lemma trusted_walk_spec mac next p skipmac :
  trusted_walk mac p next skipmac
  = skipmac || existsb (fun q => streq q mac) (removelast (p :: next)).
Proof.
  revert p skipmac. induction next as [|q next IH]; intros p skipmac.
  - simpl. by rewrite orb_false_r.
  - change (removelast (p :: q :: next)) with (p :: removelast (q :: next)).
    cbn [trusted_walk existsb]. rewrite IH.
    destruct (streq p mac), skipmac; simpl; reflexivity.
Qed.

(** A value equal to the last entry of a list of two or more entries,
    and to no other, is appended again. *)
Lemma trusted_add_last_again mac p l :
  existsb (fun q => streq q mac) (p :: l) = false ->
  trusted_add mac (p :: l ++ [mac]) = p :: l ++ [mac; mac].
Proof.
  intros Hnot. unfold trusted_add.
  rewrite trusted_walk_spec.
  change (p :: l ++ [mac]) with ((p :: l) ++ [mac])%list.
  rewrite removelast_last.
  simpl in Hnot. apply orb_false_iff in Hnot as [Hp Hl].
  rewrite Hp. simpl. rewrite Hp, Hl. simpl.
  rewrite <- app_assoc. reflexivity.
Qed.

(** C3.  The value [a,b,b] given to [parse_trusted_mac_list] on an empty
    list leaves the three entries a, b, b: the second b is compared with
    a only, the last entry of the list being left out of the walk, and
    the list holds two equal values. *)
Theorem parse_trusted_mac_list_duplicate :
  parse_trusted_mac_list "a,b,b" process_at_start
  = Returns tt (mk_process (set_trustedmaclist ["a"; "b"; "b"] config_at_start) 0 [])
  /\ ~ NoDup ["a"; "b"; "b"].
Proof.
  split; [vm_compute; reflexivity|].
  intros Hnd. apply NoDup_cons in Hnd as [_ Hnd].
  apply NoDup_cons in Hnd as [Hin _]. apply Hin. by left.
Qed.

(** ** The loops of the block parsers *)

Section Properties.
Context `{Platform}.

Lemma read_line_length k s l r e :
  read_line k s = (l, r, e) ->
  String.length s = (String.length l + String.length r)%nat.
Proof.
  revert s l r e. induction k as [|k IH]; intros s l r e Hr; simpl in Hr.
  - inversion Hr; subst. reflexivity.
  - destruct s as [|c s]; [inversion Hr; subst; reflexivity|].
    destruct (Ascii.eqb c LF).
    + inversion Hr; subst. reflexivity.
    + destruct (read_line k s) as [[l0 r0] e0] eqn:E.
      inversion Hr; subst. simpl. rewrite (IH _ _ _ _ E). reflexivity.
Qed.

Lemma fgets_shrinks n f line f' :
  (2 <= n)%nat -> fgets n f = (Some line, f') ->
  (String.length (content f') < String.length (content f))%nat.
Proof.
  intros Hn. unfold fgets.
  destruct (read_line (n - 1) (content f)) as [[l r] e] eqn:E.
  pose proof (read_line_length _ _ _ _ _ E) as Hlen.
  destruct (n - 1)%nat as [|k] eqn:Hk; [lia|].
  simpl in E. destruct (content f) as [|c s] eqn:Hc.
  - inversion E; subst. simpl. discriminate.
  - assert (l <> EmptyString).
    { destruct (Ascii.eqb c LF); [inversion E; subst; discriminate|].
      destruct (read_line k s) as [[l0 r0] e0]. inversion E; subst. discriminate. }
    destruct l as [|a l]; [congruence|].
    intros Hf. inversion Hf; subst. simpl in *. lia.
Qed.

Lemma block_fgets_shrinks file line file' :
  (3 <= MAX_BUF)%nat -> block_fgets file = (Some line, file') ->
  (String.length (content file') < String.length (content file))%nat.
Proof.
  intros Hn. unfold block_fgets.
  destruct (fgets (MAX_BUF - 1) file) as [[l|] f0] eqn:E; [|discriminate].
  destruct (contains "}" l); [discriminate|].
  intros Hf; inversion Hf; subst.
  eapply fgets_shrinks; [|exact E]. lia.
Qed.

Lemma set_rulesets_same c : set_rulesets (rulesets c) c = c.
Proof. by destruct c. Qed.

Lemma set_rulesets_twice x y c : set_rulesets x (set_rulesets y c) = set_rulesets x c.
Proof. by destruct c. Qed.

Lemma rulesets_set_rulesets x c : rulesets (set_rulesets x c) = x.
Proof. by destruct c. Qed.


Lemma with_rules_nil ruleset w : with_rules ruleset [] w = w.
Proof.
  unfold with_rules, add_rules. cbn [fold_left].
  rewrite set_rulesets_same. by destruct w.
Qed.

Lemma logged_nil w : logged w [] = w.
Proof. unfold logged. rewrite app_nil_r. by destruct w. Qed.

Lemma with_rules_cons ruleset tmp rs w :
  with_rules ruleset rs (with_rules ruleset [tmp] w)
  = with_rules ruleset (tmp :: rs) w.
Proof.
  unfold with_rules, add_rules. cbn [fold_left config missing_parms errlog].
  by rewrite rulesets_set_rulesets, set_rulesets_twice.
Qed.

Lemma logged_with_rules_cons ruleset rs msg msgs w :
  logged (with_rules ruleset rs (logged w [msg])) msgs
  = logged (with_rules ruleset rs w) (msg :: msgs).
Proof.
  unfold logged, with_rules. cbn [config missing_parms errlog].
  by rewrite <- app_assoc.
Qed.

(** *** The loop of the ruleset block, turn by turn *)

Section RulesetLoop.
Variables (ruleset filename : string).

Lemma ruleset_loop_end fuel file file' linenum w :
  block_fgets file = (None, file') ->
  parse_firewall_ruleset_loop (S fuel) ruleset file filename linenum w
  = Returns (file', linenum) w.
Proof. intros Hf. simpl. rewrite Hf. reflexivity. Qed.

Lemma ruleset_loop_blank fuel file line file' linenum w :
  block_fgets file = (Some line, file') ->
  block_tokens line = None ->
  parse_firewall_ruleset_loop (S fuel) ruleset file filename linenum w
  = parse_firewall_ruleset_loop fuel ruleset file' filename (linenum + 1) w.
Proof. intros Hf Ht. simpl. rewrite Hf, Ht. reflexivity. Qed.

Lemma ruleset_loop_rule fuel file line file' p1 p2 tmp linenum w :
  block_fgets file = (Some line, file') ->
  block_tokens line = Some (p1, p2) ->
  keyword_search keywords p1 = Some oFirewallRule ->
  parse_rule p2 = inr tmp ->
  parse_firewall_ruleset_loop (S fuel) ruleset file filename linenum w
  = parse_firewall_ruleset_loop fuel ruleset file' filename (linenum + 1)
      (with_rules ruleset [tmp] w).
Proof.
  intros Hf Ht Hk Hp. simpl. rewrite Hf, Ht.
  unfold bind, config_parse_token. rewrite Hk. simpl.
  rewrite (parse_firewall_rule_ok _ _ _ _ Hp). reflexivity.
Qed.

(** A line whose rule does not parse: the message is logged, the code is
    dropped and the loop goes on with the next line. *)
Lemma ruleset_loop_violation fuel file line file' p1 p2 code msg linenum w :
  block_fgets file = (Some line, file') ->
  block_tokens line = Some (p1, p2) ->
  keyword_search keywords p1 = Some oFirewallRule ->
  parse_rule p2 = inl (code, msg) ->
  parse_firewall_ruleset_loop (S fuel) ruleset file filename linenum w
  = parse_firewall_ruleset_loop fuel ruleset file' filename (linenum + 1)
      (logged w [msg]).
Proof.
  intros Hf Ht Hk Hp. simpl. rewrite Hf, Ht.
  unfold bind, config_parse_token. rewrite Hk. simpl.
  rewrite (parse_firewall_rule_fail _ _ _ _ _ Hp). reflexivity.
Qed.

Lemma ruleset_loop_bad_option fuel file line file' opcode linenum w :
  block_fgets file = (Some line, file') ->
  line_opcode line = Some opcode ->
  opcode <> oFirewallRule ->
  exists w',
    parse_firewall_ruleset_loop (S fuel) ruleset file filename linenum w
    = Exits (-1) w'.
Proof.
  intros Hf Ho Hne. simpl. rewrite Hf. unfold line_opcode in Ho.
  destruct (block_tokens line) as [[p1 p2]|]; [|discriminate].
  unfold bind, config_parse_token.
  destruct (keyword_search keywords p1) as [op|]; simpl in Ho.
  - inversion Ho; subst. destruct opcode; try congruence; eexists; reflexivity.
  - eexists; reflexivity.
Qed.

(** The three ways the loop can end, in terms of the interior lines. *)
Lemma ruleset_loop_spec fuel : forall file linenum w,
  match parse_firewall_ruleset_loop fuel ruleset file filename linenum w with
  | Returns _ w' =>
      Forall (fun line => is_rule_line line = true) (block_lines fuel file)
      /\ w' = logged (with_rules ruleset (omap line_rule (block_lines fuel file)) w)
                     (omap line_error (block_lines fuel file))
  | Exits status w' =>
      status = -1
      /\ Exists (fun line => is_rule_line line = false) (block_lines fuel file)
  | NoResult => (3 <= MAX_BUF)%nat -> (fuel <= String.length (content file))%nat
  end.
Proof.
  induction fuel as [|fuel IH]; intros file linenum w.
  - simpl. lia.
  - destruct (block_fgets file) as [[line|] file'] eqn:Hf.
    2:{ rewrite (ruleset_loop_end _ _ _ _ _ Hf).
        assert (Hlines : block_lines (S fuel) file = [])
          by (simpl; by rewrite Hf).
        rewrite Hlines. split; [constructor|].
        change (omap line_rule []) with (@nil t_firewall_rule).
        change (omap line_error []) with (@nil log_msg).
        by rewrite with_rules_nil, logged_nil. }
    pose proof (fun Hn => block_fgets_shrinks _ _ _ Hn Hf) as Hshrink.
    assert (Hlines : block_lines (S fuel) file = line :: block_lines fuel file')
      by (simpl; by rewrite Hf).
    rewrite Hlines.
    destruct (block_tokens line) as [[p1 p2]|] eqn:Ht.
    + destruct (decide (line_opcode line = Some oFirewallRule)) as [Ho|Ho].
      * assert (Hk : keyword_search keywords p1 = Some oFirewallRule).
        { unfold line_opcode in Ho. rewrite Ht in Ho.
          destruct (keyword_search keywords p1); simpl in Ho; congruence. }
        assert (Hr : is_rule_line line = true)
          by (unfold is_rule_line; rewrite Ho; reflexivity).
        destruct (parse_rule p2) as [[code msg]|tmp] eqn:Hp.
        -- rewrite (ruleset_loop_violation _ _ _ _ _ _ _ _ _ _ Hf Ht Hk Hp).
           specialize (IH file' (linenum + 1) (logged w [msg])).
           assert (Hl : line_rule line = None)
             by (unfold line_rule; rewrite Ht, Hp; reflexivity).
           assert (He : line_error line = Some msg)
             by (unfold line_error; rewrite Ht, Hp; reflexivity).
           destruct (parse_firewall_ruleset_loop fuel ruleset file' filename
                       (linenum + 1) (logged w [msg])) as [r w'|st w'|].
           ++ destruct IH as (HF & ->).
              split; [by constructor|]. cbn [omap list_omap]. rewrite Hl, He.
              apply logged_with_rules_cons.
           ++ destruct IH as [-> HE]. split; [done|]. by apply Exists_cons_tl.
           ++ intros Hn. specialize (IH Hn). specialize (Hshrink Hn). lia.
        -- rewrite (ruleset_loop_rule _ _ _ _ _ _ _ _ _ Hf Ht Hk Hp).
           specialize (IH file' (linenum + 1) (with_rules ruleset [tmp] w)).
           assert (Hl : line_rule line = Some tmp)
             by (unfold line_rule; rewrite Ht, Hp; reflexivity).
           assert (He : line_error line = None)
             by (unfold line_error; rewrite Ht, Hp; reflexivity).
           destruct (parse_firewall_ruleset_loop fuel ruleset file' filename
                       (linenum + 1) (with_rules ruleset [tmp] w)) as [r w'|st w'|].
           ++ destruct IH as (HF & ->).
              split; [by constructor|]. cbn [omap list_omap]. rewrite Hl, He.
              by rewrite with_rules_cons.
           ++ destruct IH as [-> HE]. split; [done|]. by apply Exists_cons_tl.
           ++ intros Hn. specialize (IH Hn). specialize (Hshrink Hn). lia.
      * destruct (line_opcode line) as [opcode|] eqn:Ho'.
        2:{ unfold line_opcode in Ho'. rewrite Ht in Ho'. discriminate. }
        assert (Hne : opcode <> oFirewallRule) by congruence.
        destruct (ruleset_loop_bad_option fuel _ _ _ _ linenum w Hf Ho' Hne) as [w' ->].
        split; [done|]. apply Exists_cons_hd.
        unfold is_rule_line. rewrite Ho'. by apply bool_decide_eq_false.
    + rewrite (ruleset_loop_blank _ _ _ _ _ _ Hf Ht).
      specialize (IH file' (linenum + 1) w).
      assert (Hr : is_rule_line line = true)
        by (unfold is_rule_line, line_opcode; rewrite Ht; reflexivity).
      assert (Hl : line_rule line = None)
        by (unfold line_rule; rewrite Ht; reflexivity).
      assert (He : line_error line = None)
        by (unfold line_error; rewrite Ht; reflexivity).
      destruct (parse_firewall_ruleset_loop fuel ruleset file' filename
                  (linenum + 1) w) as [r w'|st w'|].
      * destruct IH as (HF & ->).
        split; [by constructor|]. cbn [omap list_omap]. by rewrite Hl, He.
      * destruct IH as [-> HE]. split; [done|]. by apply Exists_cons_tl.
      * intros Hn. specialize (IH Hn). specialize (Hshrink Hn). lia.
Qed.

End RulesetLoop.

(** What a ruleset block that returns has done. *)
Lemma parse_firewall_ruleset_returns ruleset file filename linenum w r w' :
  parse_firewall_ruleset ruleset file filename linenum w = Returns r w' ->
  w' = logged (with_rules ruleset (block_rules file) w)
              (omap line_error (block_interior file)).
Proof.
  unfold parse_firewall_ruleset. intros Hr.
  pose proof (ruleset_loop_spec ruleset filename
                (S (String.length (content file))) file linenum w) as Hs.
  rewrite Hr in Hs. by destruct Hs as [_ ->].
Qed.

(** C2.  A ruleset block whose lines are all blank, comments
    or [FirewallRule] lines is never fatal, whatever the rules say: the
    block parser returns, the configuration holds the rules that parsed,
    appended in file order, and each rule that did not parse has left
    its message in the log and nothing else. *)
Theorem ruleset_block_violations_not_fatal ruleset file filename linenum w :
  (3 <= MAX_BUF)%nat ->
  Forall (fun line => is_rule_line line = true) (block_interior file) ->
  exists file' linenum',
    parse_firewall_ruleset ruleset file filename linenum w
    = Returns (file', linenum')
        (logged (with_rules ruleset (block_rules file) w)
                (omap line_error (block_interior file))).
Proof.
  intros Hn Hall. unfold parse_firewall_ruleset.
  pose proof (ruleset_loop_spec ruleset filename
                (S (String.length (content file))) file linenum w) as Hs.
  destruct (parse_firewall_ruleset_loop (S (String.length (content file)))
              ruleset file filename linenum w) as [[file' n'] w'|st w'|].
  - destruct Hs as [_ ->]. by exists file', n'.
  - destruct Hs as [_ HE]. apply Exists_exists in HE as (line & Hin & Hfalse).
    rewrite Forall_forall in Hall.
    unfold block_interior in Hall. rewrite (Hall line) in Hfalse; [discriminate|].
    exact Hin.
  - specialize (Hs Hn). lia.
Qed.

(** ** Rulesets keep unique names and grow in file order *)

Lemma streq_true a b : streq a b = true <-> a = b.
Proof. apply String.eqb_eq. Qed.

Lemma streq_false a b : streq a b = false <-> a <> b.
Proof. apply String.eqb_neq. Qed.

(** The rules found under a name in a list of rulesets. *)
Lemma ruleset_rules_nil c ruleset :
  rulesets c = [] -> ruleset_rules c ruleset = [].
Proof. intros Hr. unfold ruleset_rules, get_ruleset. by rewrite Hr. Qed.

Lemma append_rule_names ruleset tmp l :
  map rs_name (append_rule ruleset tmp l)
  = if bool_decide (ruleset ∈ map rs_name l) then map rs_name l
    else (map rs_name l ++ [ruleset])%list.
Proof.
  induction l as [|tmpr l IH]; [reflexivity|].
  cbn [append_rule map].
  destruct (streq (rs_name tmpr) ruleset) eqn:E.
  - apply streq_true in E. rewrite bool_decide_eq_true_2; [reflexivity|].
    rewrite <- E. left.
  - apply streq_false in E. cbn [map]. rewrite IH.
    destruct (bool_decide (ruleset ∈ map rs_name l)) eqn:D.
    + apply bool_decide_eq_true in D. rewrite bool_decide_eq_true_2; [done|].
      by right.
    + apply bool_decide_eq_false in D. rewrite bool_decide_eq_false_2; [done|].
      intros Hin. apply elem_of_cons in Hin as [Heq|Hin]; [by subst|done].
Qed.

Lemma append_rule_NoDup ruleset tmp l :
  NoDup (map rs_name l) -> NoDup (map rs_name (append_rule ruleset tmp l)).
Proof.
  intros Hnd. rewrite append_rule_names.
  destruct (bool_decide (ruleset ∈ map rs_name l)) eqn:D; [done|].
  apply bool_decide_eq_false in D.
  apply NoDup_app. split; [done|]. split; [|apply NoDup_singleton].
  intros x Hx Hx'. apply list_elem_of_singleton in Hx'. by subst.
Qed.

Lemma ruleset_rules_rules_in c ruleset :
  ruleset_rules c ruleset = rules_in (rulesets c) ruleset.
Proof.
  unfold ruleset_rules, get_ruleset, rules_in.
  by destruct (List.find _ (rulesets c)).
Qed.

Lemma rules_in_append_rule ruleset tmp l :
  rules_in (append_rule ruleset tmp l) ruleset = (rules_in l ruleset ++ [tmp])%list.
Proof.
  induction l as [|tmpr l IH]; unfold rules_in in *.
  - simpl. unfold streq. by rewrite String.eqb_refl.
  - cbn [append_rule]. destruct (streq (rs_name tmpr) ruleset) eqn:E.
    + cbn [List.find rs_name]. rewrite E. reflexivity.
    + cbn [List.find]. rewrite E. exact IH.
Qed.

Lemma rules_in_add_rules ruleset rs l :
  rules_in (add_rules ruleset rs l) ruleset = (rules_in l ruleset ++ rs)%list.
Proof.
  revert l. induction rs as [|tmp rs IH]; intros l; unfold add_rules in *.
  - simpl. by rewrite app_nil_r.
  - cbn [fold_left]. rewrite IH, rules_in_append_rule, <- app_assoc. reflexivity.
Qed.

Lemma add_rules_NoDup ruleset rs l :
  NoDup (map rs_name l) -> NoDup (map rs_name (add_rules ruleset rs l)).
Proof.
  revert l. induction rs as [|tmp rs IH]; intros l Hnd; unfold add_rules in *.
  - exact Hnd.
  - cbn [fold_left]. by apply IH, append_rule_NoDup.
Qed.

Lemma ruleset_block_rules ruleset file filename linenum w r w' :
  parse_firewall_ruleset ruleset file filename linenum w = Returns r w' ->
  NoDup (ruleset_names (config w)) ->
  NoDup (ruleset_names (config w'))
  /\ ruleset_rules (config w') ruleset
     = (ruleset_rules (config w) ruleset ++ block_rules file)%list.
Proof.
  intros Hr Hnd. apply parse_firewall_ruleset_returns in Hr. subst w'.
  unfold ruleset_names. rewrite !ruleset_rules_rules_in.
  cbn [logged with_rules config]. rewrite rulesets_set_rulesets.
  split; [by apply add_rules_NoDup | apply rules_in_add_rules].
Qed.

(** C7.  Two blocks opened under the same name, the second one read
    after anything that left the rules of that name as the first block
    left them and the ruleset names unique: ruleset names are still
    unique, so one ruleset carries the name, and its rules are the rules
    it had before, then the rules parsed from the first block, then those
    parsed from the second, each in the order of their lines. *)
Theorem same_name_blocks_accumulate
    ruleset file1 file2 filename linenum1 linenum2 w r1 w1 w1' r2 w2 :
  NoDup (ruleset_names (config w)) ->
  parse_firewall_ruleset ruleset file1 filename linenum1 w = Returns r1 w1 ->
  NoDup (ruleset_names (config w1')) ->
  ruleset_rules (config w1') ruleset = ruleset_rules (config w1) ruleset ->
  parse_firewall_ruleset ruleset file2 filename linenum2 w1' = Returns r2 w2 ->
  NoDup (ruleset_names (config w2))
  /\ ruleset_rules (config w2) ruleset
     = (ruleset_rules (config w) ruleset ++ block_rules file1 ++ block_rules file2)%list.
Proof.
  intros Hnd H1 Hnd' Hsame H2.
  destruct (ruleset_block_rules _ _ _ _ _ _ _ H1 Hnd) as [_ Hr1].
  destruct (ruleset_block_rules _ _ _ _ _ _ _ H2 Hnd') as [Hnd2 Hr2].
  split; [exact Hnd2|].
  rewrite Hr2, Hsame, Hr1, <- app_assoc. reflexivity.
Qed.


(** ** Server blocks without a host name *)

(** A server directive other than [Hostname] returns, touches neither the
    process nor the host name. *)
Lemma parse_server_case_no_hostname opcode p2 filename linenum v w :
  server_field_not_hostname opcode = true ->
  exists v',
    parse_server_case opcode p2 filename linenum v w = Returns v' w
    /\ v_host v' = v_host v.
Proof.
  intros Hop. destruct v.
  destruct opcode; try discriminate Hop; eexists; split; reflexivity.
Qed.

Lemma parse_server_loop_no_hostname filename fuel : forall file linenum v w,
  (3 <= MAX_BUF)%nat ->
  (String.length (content file) < fuel)%nat ->
  Forall (fun line => sets_no_hostname line = true) (block_lines fuel file) ->
  exists file' linenum' v',
    parse_server_loop fuel file filename linenum v w
    = Returns (file', linenum', v') w
    /\ v_host v' = v_host v.
Proof.
  induction fuel as [|fuel IH]; intros file linenum v w Hn Hlen Hall; [lia|].
  cbn [parse_server_loop block_lines] in *.
  destruct (block_fgets file) as [[line|] file'] eqn:Hf.
  2:{ by exists file', linenum, v. }
  pose proof (block_fgets_shrinks _ _ _ Hn Hf) as Hshrink.
  apply Forall_cons in Hall as [Hline Hall].
  assert (Hlen' : (String.length (content file') < fuel)%nat) by lia.
  unfold sets_no_hostname, line_opcode in Hline.
  destruct (block_tokens line) as [[p1 p2]|].
  - unfold bind at 1. unfold config_parse_token.
    destruct (keyword_search keywords p1) as [opcode|]; [|discriminate Hline].
    cbn [default] in Hline. cbn [ret]. unfold bind at 1.
    destruct (parse_server_case_no_hostname opcode p2 filename (linenum + 1) v w Hline)
      as (v' & -> & Hv').
    destruct (IH file' (linenum + 1) v' w Hn Hlen' Hall) as (f'' & n'' & v'' & -> & Hv'').
    exists f'', n'', v''. split; [reflexivity|congruence].
  - apply (IH file' (linenum + 1) v w Hn Hlen' Hall).
Qed.

(** The switch of a server block either returns with the process as it
    was, or exits; it changes the host name on [Hostname] only. *)
Lemma parse_server_case_returns opcode p2 filename linenum v w v' w' :
  parse_server_case opcode p2 filename linenum v w = Returns v' w' ->
  w' = w /\ (opcode <> oServHostname -> v_host v' = v_host v).
Proof.
  destruct v. destruct opcode; cbn [parse_server_case];
    intros Hr; inversion Hr; subst; split; try reflexivity; congruence.
Qed.

Lemma config_parse_token_returns cp filename linenum w opcode w' :
  config_parse_token cp filename linenum w = Returns opcode w' ->
  opcode = default oBadOption (keyword_search keywords cp)
  /\ (opcode <> oBadOption -> w' = w).
Proof.
  unfold config_parse_token.
  destruct (keyword_search keywords cp) as [op|]; intros Hr;
    inversion Hr; subst; split; try reflexivity; congruence.
Qed.

Lemma parse_server_case_bad_option p2 filename linenum v w :
  exists w', parse_server_case oBadOption p2 filename linenum v w = Exits (-1) w'.
Proof. destruct v. eexists. reflexivity. Qed.

(** Whenever the loop of a server block returns, the process is as it
    was; the host name too when no line was a [Hostname] line. *)
Lemma parse_server_loop_returns filename fuel :
  forall file linenum v w file' linenum' v' w',
  parse_server_loop fuel file filename linenum v w
  = Returns (file', linenum', v') w' ->
  w' = w
  /\ (Forall (fun line => line_opcode line <> Some oServHostname)
             (block_lines fuel file) ->
      v_host v' = v_host v).
Proof.
  induction fuel as [|fuel IH]; intros file linenum v w file' linenum' v' w' Hr;
    [discriminate Hr|].
  cbn [parse_server_loop block_lines] in *.
  destruct (block_fgets file) as [[line|] file1] eqn:Hf.
  2:{ inversion Hr; subst. split; reflexivity. }
  destruct (block_tokens line) as [[p1 p2]|] eqn:Ht.
  - unfold bind at 1 in Hr.
    destruct (config_parse_token p1 filename (linenum + 1) w)
      as [opcode w1|n w1|] eqn:Hc; try discriminate Hr.
    apply config_parse_token_returns in Hc as [Hop Hw1].
    unfold bind at 1 in Hr.
    destruct (parse_server_case opcode p2 filename (linenum + 1) v w1)
      as [v1 w2|n w2|] eqn:Hs; try discriminate Hr.
    destruct (decide (opcode = oBadOption)) as [->|Hne].
    { destruct (parse_server_case_bad_option p2 filename (linenum + 1) v w1)
        as [w3 Hex]. rewrite Hex in Hs. discriminate. }
    specialize (Hw1 Hne). subst w1.
    apply parse_server_case_returns in Hs as [-> Hv1].
    destruct (IH _ _ _ _ _ _ _ _ Hr) as [-> Hv'].
    split; [reflexivity|]. intros Hall.
    apply Forall_cons in Hall as [Hline Hall].
    rewrite (Hv' Hall). apply Hv1. intros Heq. apply Hline.
    unfold line_opcode. rewrite Ht, <- Hop, Heq. reflexivity.
  - destruct (IH _ _ _ _ _ _ _ _ Hr) as [-> Hv'].
    split; [reflexivity|]. intros Hall.
    apply Forall_cons in Hall as [_ Hall]. auto.
Qed.

(** C9.  A server block in which no interior line is a [Hostname] line
    is dropped without a trace.  Whenever [parse_server] returns from
    such a block, for any kind of server, the process is as it was: no
    server was appended to any list and nothing was logged.  And it does
    return when the interior lines are blank, comments or server
    directives; the dispatcher's cases for [AuthServer], [PortalServer]
    and [PlatformServer] then return the same way, so that the reading
    loop goes on with the line after the block. *)
Theorem server_block_without_hostname_discarded
    (type : Z) fd filename linenum (p1 : string) w :
  (3 <= MAX_BUF)%nat ->
  Forall (fun line => line_opcode line <> Some oServHostname)
         (block_interior fd) ->
  (forall r w',
     parse_server fd filename linenum type w = Returns r w' -> w' = w)
  /\ (Forall (fun line => sets_no_hostname line = true) (block_interior fd) ->
      exists fd' linenum',
        parse_server fd filename linenum type w = Returns (fd', linenum') w
        /\ (exists fd1 n1, config_read_case oAuthServer p1 fd filename linenum w
                           = Returns (fd1, n1) w)
        /\ (exists fd2 n2, config_read_case oPortalServer p1 fd filename linenum w
                           = Returns (fd2, n2) w)
        /\ (exists fd3 n3, config_read_case oPlatServer p1 fd filename linenum w
                           = Returns (fd3, n3) w)).
Proof.
  intros Hn Hnohost. split.
  - intros r w' Hr. unfold parse_server in Hr. unfold bind at 1 in Hr.
    destruct (parse_server_loop (S (String.length (content fd))) fd filename
                linenum serv_defaults w) as [[[fd' n'] v'] w1|n w1|] eqn:Hloop;
      try discriminate Hr.
    apply parse_server_loop_returns in Hloop as [-> Hv'].
    specialize (Hv' Hnohost). cbn [v_host serv_defaults] in Hv'.
    rewrite Hv' in Hr. by inversion Hr.
  - intros Hall.
    assert (Hgen : forall ty, exists fd' linenum',
               parse_server fd filename linenum ty w = Returns (fd', linenum') w).
    { intros ty. unfold parse_server.
      destruct (parse_server_loop_no_hostname filename
                  (S (String.length (content fd))) fd linenum serv_defaults w Hn
                  (Nat.lt_succ_diag_r _) Hall)
        as (fd' & n' & v' & Hloop & Hv').
      unfold bind at 1. rewrite Hloop. cbn [v_host serv_defaults] in Hv'.
      rewrite Hv'. by exists fd', n'. }
    destruct (Hgen type) as (fd' & n' & Hty). exists fd', n'.
    split; [exact Hty|]. cbn [config_read_case].
    split; [apply Hgen|]. split; apply Hgen.
Qed.


(** ** What the parser keeps: the daemon flag *)

Lemma preserves_ret {A} I (a : A) : preserves I (ret a).
Proof. intros w Hw. exact Hw. Qed.

Lemma preserves_exit {A} I n : preserves I (@exit A n).
Proof. intros w Hw. exact Hw. Qed.

Lemma preserves_no_result {A} I : preserves I (@no_result A).
Proof. intros w Hw. exact Logic.I. Qed.

Lemma preserves_bind {A B} I (m : M A) (k : A -> M B) :
  preserves I m -> (forall a, preserves I (k a)) -> preserves I (bind m k).
Proof.
  intros Hm Hk w Hw. unfold bind. specialize (Hm w Hw).
  destruct (m w) as [a w'|n w'|]; [|exact Hm|exact Logic.I].
  apply (Hk a w' Hm).
Qed.

Section Daemon.
Variable d : Z.

Lemma daemon_debug_err msg : preserves (daemon_is d) (debug_err msg).
Proof. intros w Hw. exact Hw. Qed.

Lemma daemon_get_config : preserves (daemon_is d) get_config.
Proof. intros w Hw. exact Hw. Qed.

Lemma daemon_update_config f :
  (forall c, daemon (f c) = daemon c) ->
  preserves (daemon_is d) (update_config f).
Proof. intros Hf w Hw. unfold daemon_is in *. simpl. by rewrite Hf. Qed.

Lemma daemon_config_parse_token cp filename linenum :
  preserves (daemon_is d) (config_parse_token cp filename linenum).
Proof.
  unfold config_parse_token. destruct (keyword_search keywords cp).
  - apply preserves_ret.
  - apply preserves_bind; [apply daemon_debug_err|intros; apply preserves_ret].
Qed.

(** Closes a goal [preserves (daemon_is d) m] for a straight-line [m]
    made of returns, exits, log messages and assignments to fields other
    than the flag. *)
Ltac keeps_daemon :=
  repeat first
    [ apply preserves_ret
    | apply preserves_exit
    | apply daemon_debug_err
    | apply daemon_config_parse_token
    | apply daemon_update_config; intros []; reflexivity
    | apply preserves_bind; [|intros ?] ].

Lemma daemon_parse_firewall_rule ruleset leftover :
  preserves (daemon_is d) (_parse_firewall_rule ruleset leftover).
Proof.
  unfold _parse_firewall_rule.
  destruct (parse_rule leftover) as [[code msg]|tmp]; keeps_daemon.
Qed.

Lemma daemon_parse_firewall_ruleset ruleset file filename linenum :
  preserves (daemon_is d) (parse_firewall_ruleset ruleset file filename linenum).
Proof.
  unfold parse_firewall_ruleset.
  generalize (S (String.length (content file))). intros fuel.
  revert file linenum. induction fuel as [|fuel IH]; intros file linenum.
  - apply preserves_no_result.
  - cbn [parse_firewall_ruleset_loop].
    destruct (block_fgets file) as [[line|] file']; [|apply preserves_ret].
    destruct (block_tokens line) as [[p1 p2]|]; [|apply IH].
    apply preserves_bind; [apply daemon_config_parse_token|].
    intros opcode. destruct opcode; keeps_daemon.
    + apply daemon_parse_firewall_rule.
    + apply IH.
Qed.

Lemma daemon_parse_server_case opcode p2 filename linenum v :
  preserves (daemon_is d) (parse_server_case opcode p2 filename linenum v).
Proof. destruct v. destruct opcode; keeps_daemon. Qed.

Lemma daemon_parse_server_loop filename fuel : forall file linenum v,
  preserves (daemon_is d) (parse_server_loop fuel file filename linenum v).
Proof.
  induction fuel as [|fuel IH]; intros file linenum v.
  - apply preserves_no_result.
  - cbn [parse_server_loop].
    destruct (block_fgets file) as [[line|] file']; [|apply preserves_ret].
    destruct (block_tokens line) as [[p1 p2]|]; [|apply IH].
    apply preserves_bind; [apply daemon_config_parse_token|]. intros opcode.
    apply preserves_bind; [apply daemon_parse_server_case|]. intros v'.
    apply IH.
Qed.

Lemma daemon_parse_server file filename linenum type :
  preserves (daemon_is d) (parse_server file filename linenum type).
Proof.
  unfold parse_server.
  apply preserves_bind; [apply daemon_parse_server_loop|].
  intros [[file' linenum'] v]. destruct (v_host v); [|apply preserves_ret].
  apply preserves_bind; [|intros; apply preserves_ret].
  destruct type as [|[p|p|]|]; try destruct p; keeps_daemon.
Qed.

Lemma daemon_parse_trusted_mac_list ptr :
  preserves (daemon_is d) (parse_trusted_mac_list ptr).
Proof. unfold parse_trusted_mac_list. keeps_daemon. Qed.

(** The [Daemon] directive: the flag is assigned when it is -1 and the
    value is a boolean, and left alone otherwise. *)
Lemma config_read_case_daemon p1 fd filename linenum w :
  config_read_case oDaemon p1 fd filename linenum w
  = Returns (fd, linenum)
      (mk_process
         (if (daemon (config w) =? -1) && negb (parse_boolean_value p1 =? -1)
          then set_daemon (parse_boolean_value p1) (config w)
          else config w)
         (missing_parms w) (errlog w)).
Proof.
  cbn [config_read_case]. unfold bind, get_config.
  destruct ((daemon (config w) =? -1) && negb (parse_boolean_value p1 =? -1));
    simpl; [reflexivity|by destruct w].
Qed.

Hypothesis d_set : d <> -1.

Lemma daemon_config_read_case opcode p1 fd filename linenum :
  preserves (daemon_is d) (config_read_case opcode p1 fd filename linenum).
Proof using d_set.
  destruct opcode;
    try (cbn [config_read_case]; keeps_daemon; fail);
    try (cbn [config_read_case]; apply daemon_parse_server);
    try (cbn [config_read_case]; apply daemon_parse_firewall_ruleset).
  intros w Hw. rewrite config_read_case_daemon.
  unfold daemon_is in *. rewrite Hw.
  destruct (d =? -1) eqn:E; [apply Z.eqb_eq in E; contradiction|].
  exact Hw.
Qed.

Lemma daemon_config_read_line line fd filename linenum :
  preserves (daemon_is d) (config_read_line line fd filename linenum).
Proof using d_set.
  unfold config_read_line. destruct line as [|c line]; [apply preserves_no_result|].
  destruct (top_tokens (String c line)) as [s [p1|]]; [|apply preserves_ret].
  destruct (negb (streq p1 EmptyString)); [|apply preserves_ret].
  destruct (negb (has_prefix "#" s)); [|apply preserves_ret].
  apply preserves_bind; [apply daemon_config_parse_token|].
  intros opcode. apply daemon_config_read_case.
Qed.

Lemma daemon_config_read_loop filename fuel : forall fd linenum,
  preserves (daemon_is d) (config_read_loop fuel fd filename linenum).
Proof using d_set.
  induction fuel as [|fuel IH]; intros fd linenum.
  - apply preserves_no_result.
  - cbn [config_read_loop]. destruct (feof fd); [apply preserves_ret|].
    destruct (fgets MAX_BUF fd) as [[line|] fd']; [|apply preserves_ret].
    apply preserves_bind; [apply daemon_config_read_line|].
    intros [fd'' linenum']. apply IH.
Qed.

Lemma daemon_config_read fd filename :
  preserves (daemon_is d) (config_read fd filename).
Proof using d_set.
  unfold config_read. destruct fd as [fd|]; [|keeps_daemon].
  apply preserves_bind; [apply daemon_config_read_loop|]. intros _.
  apply preserves_bind; [apply daemon_get_config|]. intros c.
  destruct (not_null (httpdusername c) && negb (not_null (httpdpassword c)));
    keeps_daemon.
Qed.

End Daemon.

Lemma parse_boolean_value_range line :
  parse_boolean_value line = 1 \/ parse_boolean_value line = 0
  \/ parse_boolean_value line = -1.
Proof.
  unfold parse_boolean_value.
  destruct (strcaseeq line "yes"); [by left|].
  destruct (strcaseeq line "no"); [by right; left|].
  destruct (streq line "1"); [by left|].
  destruct (streq line "0"); [by right; left|by right; right].
Qed.

(** C10.  A [Daemon] directive assigns the flag exactly when the flag is
    -1 and the value is a boolean, the value assigned being 0 or 1; in
    every other case it leaves the process as it was.  Once the flag
    differs from -1, whether by an earlier directive or before the file
    is read, no run of [config_read] changes it, however the run ends. *)
Theorem daemon_flag_first_valid_wins p1 fd filename linenum w :
  (daemon (config w) = -1 -> parse_boolean_value p1 <> -1 ->
   config_read_case oDaemon p1 fd filename linenum w
   = Returns (fd, linenum)
       (mk_process (set_daemon (parse_boolean_value p1) (config w))
                   (missing_parms w) (errlog w))
   /\ (parse_boolean_value p1 = 0 \/ parse_boolean_value p1 = 1))
  /\ (daemon (config w) <> -1 \/ parse_boolean_value p1 = -1 ->
      config_read_case oDaemon p1 fd filename linenum w = Returns (fd, linenum) w)
  /\ (daemon (config w) <> -1 ->
      forall file w',
        final (config_read file filename w) = Some w' ->
        daemon (config w') = daemon (config w)).
Proof.
  split; [|split].
  - intros Hd Hv. rewrite config_read_case_daemon, Hd.
    destruct (parse_boolean_value p1 =? -1) eqn:E;
      [apply Z.eqb_eq in E; contradiction|].
    split; [reflexivity|].
    destruct (parse_boolean_value_range p1) as [?|[?|?]]; auto; contradiction.
  - intros Hcase. rewrite config_read_case_daemon.
    destruct Hcase as [Hd|Hv].
    + destruct (daemon (config w) =? -1) eqn:E;
        [apply Z.eqb_eq in E; contradiction|].
      by destruct w.
    + rewrite Hv. rewrite andb_false_r. by destruct w.
  - intros Hd file w' Hfin.
    pose proof (daemon_config_read (daemon (config w)) Hd file filename w
                  eq_refl) as Hp.
    destruct (config_read file filename w) as [a w0|n w0|]; simpl in Hfin;
      inversion Hfin; subst; exact Hp.
Qed.


(** ** Unknown keywords at the top level *)

(** A line with a value, not a comment, whose first word is no keyword:
    the body of the reading loop ends the process. *)
Lemma config_read_line_bad_option line s p1 fd filename linenum w :
  line <> EmptyString ->
  top_tokens line = (s, Some p1) ->
  p1 <> EmptyString ->
  has_prefix "#" s = false ->
  keyword_search keywords s = None ->
  config_read_line line fd filename linenum w
  = Exits (-1)
      (logged w [Bad_configuration_option filename linenum s;
                 Bad_option_on_line linenum filename; Exiting]).
Proof.
  intros Hline Ht Hp Hc Hk. unfold config_read_line.
  destruct line as [|c line]; [done|]. rewrite Ht.
  apply streq_false in Hp. rewrite Hp, Hc. cbn [negb].
  unfold config_parse_token. rewrite Hk.
  cbv [bind config_read_case debug_err ret exit logged config missing_parms errlog].
  by rewrite <- !app_assoc.
Qed.

(** A line with no value after its first word is passed over; its first
    word is not looked up. *)
Lemma config_read_line_no_value line s p fd filename linenum w :
  line <> EmptyString ->
  top_tokens line = (s, p) ->
  p = None \/ p = Some EmptyString ->
  config_read_line line fd filename linenum w = Returns (fd, linenum) w.
Proof.
  intros Hline Ht Hp. unfold config_read_line.
  destruct line as [|c line]; [done|]. rewrite Ht.
  destruct Hp as [->| ->]; reflexivity.
Qed.

Lemma fgets_nonempty n fd line fd' :
  (2 <= n)%nat -> fgets n fd = (Some line, fd') -> line <> EmptyString.
Proof.
  intros Hn. unfold fgets.
  destruct (read_line (n - 1) (content fd)) as [[l r] e] eqn:E.
  destruct l as [|a l].
  - destruct (n - 1)%nat as [|k] eqn:Hk; [lia|]. simpl in E.
    destruct (content fd) as [|c s].
    + inversion E; subst. discriminate.
    + destruct (Ascii.eqb c LF); [discriminate|].
      destruct (read_line k s) as [[l0 r0] e0]. discriminate.
  - intros Hf. inversion Hf. discriminate.
Qed.

(** C4.  When the reading loop of [config_read] gets a line
    that has a value after its first word and does not begin with ['#'],
    and that first word is no keyword (compared without case), the error
    is logged with the file name and line number and the process ends
    with [exit(-1)].  A line that has no value after its first word is
    passed over, whatever the first word is, and the loop goes on. *)
Theorem config_read_unknown_keyword fuel fd fd' line s p filename linenum w :
  (2 <= MAX_BUF)%nat ->
  feof fd = false ->
  fgets MAX_BUF fd = (Some line, fd') ->
  top_tokens line = (s, p) ->
  (forall p1, p = Some p1 -> p1 <> EmptyString ->
     has_prefix "#" s = false -> keyword_search keywords s = None ->
     config_read_loop (S fuel) fd filename linenum w
     = Exits (-1)
         (logged w [Bad_configuration_option filename (linenum + 1) s;
                    Bad_option_on_line (linenum + 1) filename; Exiting]))
  /\ (p = None \/ p = Some EmptyString ->
      config_read_loop (S fuel) fd filename linenum w
      = config_read_loop fuel fd' filename (linenum + 1) w).
Proof.
  intros Hn He Hf Ht.
  pose proof (fgets_nonempty _ _ _ _ Hn Hf) as Hline.
  split.
  - intros p1 -> Hp Hc Hk. cbn [config_read_loop]. rewrite He, Hf.
    unfold bind at 1.
    by rewrite (config_read_line_bad_option _ _ _ _ _ _ _ Hline Ht Hp Hc Hk).
  - intros Hp. cbn [config_read_loop]. rewrite He, Hf.
    unfold bind at 1.
    by rewrite (config_read_line_no_value _ _ _ _ _ _ _ Hline Ht Hp).
Qed.

(** ** Validation *)

Lemma config_validate_spec w :
  missing_parms w = 0 ->
  config_validate w
  = match missing_msgs (config w) with
    | [] => Returns tt w
    | msgs =>
        Exits (-1)
          (mk_process (config w) 1
                      (errlog w ++ msgs ++ [Configuration_not_complete]))
    end.
Proof.
  intros Hm. destruct w as [c mp log]. simpl in Hm. subst mp.
  unfold missing_msgs. cbn [config].
  destruct (gw_interface c) as [gi|] eqn:Hg;
    destruct (auth_servers c) as [|a l] eqn:Ha;
    cbv [config_validate bind get_config config_notnull config missing_parms
         errlog ret debug_err set_missing_parms get_missing_parms exit];
    rewrite Hg; cbv [not_null negb]; rewrite Ha; cbv [Z.eqb negb];
    cbn [app]; rewrite <- ?app_assoc; reflexivity.
Qed.

(** C8.  The validator reports the missing gateway
    interface and the missing authentication server together, then
    exits: with no missing-parameter flag raised before, it logs one
    message for each of the two that is missing, then the closing
    message, and ends with [exit(-1)]; with none missing it returns.  The
    user name without password is another matter: [config_read] checks
    it by itself once the file is read and exits at once with that one
    message, so that the validator called after it is not run. *)
Theorem completeness_violations_reporting fd filename w w1 :
  (missing_parms w1 = 0 ->
   config_validate w1
   = match missing_msgs (config w1) with
     | [] => Returns tt w1
     | msgs =>
         Exits (-1)
           (mk_process (config w1) 1
                       (errlog w1 ++ msgs ++ [Configuration_not_complete]))
     end)
  /\ (config_read_loop (S (String.length (content fd))) fd filename 0 w
        = Returns tt w1 ->
      not_null (httpdusername (config w1)) = true ->
      not_null (httpdpassword (config w1)) = false ->
      (config_read (Some fd) filename >> config_validate) w
      = Exits (-1) (logged w1 [Username_requires_password])).
Proof.
  split; [apply config_validate_spec|].
  intros Hloop Hu Hp. unfold config_read, bind, get_config.
  rewrite Hloop, Hu, Hp. reflexivity.
Qed.

End Properties.

(** * The properties on sample inputs *)

(** A ruleset block at work on the sample file of three rule lines, the
    second of which names no target. *)
Lemma ruleset_block_violation_counterexample :
  parse_rule "foo bar" = inl (-1, Invalid_rule_type "foo")
  /\ @parse_firewall_ruleset sample_platform "global"
       (file_of ["FirewallRule allow tcp"; "FirewallRule foo bar";
                 "FirewallRule block"; "}"])
       "wifidog.conf" 1 sample_start
     = Returns (mkFILE EmptyString false, 4)
         (logged
            (with_rules "global"
               [mk_rule TARGET_ACCEPT (Some "tcp") None (Some "0.0.0.0/0");
                mk_rule TARGET_REJECT None None (Some "0.0.0.0/0")]
               sample_start)
            [Invalid_rule_type "foo"])
  /\ ~ (exists status w',
          @parse_firewall_ruleset sample_platform "global"
            (file_of ["FirewallRule allow tcp"; "FirewallRule foo bar";
                      "FirewallRule block"; "}"])
            "wifidog.conf" 1 sample_start
          = Exits status w').
Proof.
  assert (Hrun :
    @parse_firewall_ruleset sample_platform "global"
       (file_of ["FirewallRule allow tcp"; "FirewallRule foo bar";
                 "FirewallRule block"; "}"])
       "wifidog.conf" 1 sample_start
     = Returns (mkFILE EmptyString false, 4)
         (logged
            (with_rules "global"
               [mk_rule TARGET_ACCEPT (Some "tcp") None (Some "0.0.0.0/0");
                mk_rule TARGET_REJECT None None (Some "0.0.0.0/0")]
               sample_start)
            [Invalid_rule_type "foo"])) by (vm_compute; reflexivity).
  split; [vm_compute; reflexivity|]. split; [exact Hrun|].
  intros (status & w' & Hex). rewrite Hrun in Hex. discriminate.
Qed.

Lemma ruleset_block_violations_not_fatal_witness :
  (3 <= @MAX_BUF sample_platform)%nat
  /\ Forall (fun line => is_rule_line line = true)
       (@block_interior sample_platform
          (file_of ["FirewallRule allow tcp"; "FirewallRule foo bar";
                    "FirewallRule block"; "}"]))
  /\ exists file' linenum',
       @parse_firewall_ruleset sample_platform "global"
         (file_of ["FirewallRule allow tcp"; "FirewallRule foo bar";
                   "FirewallRule block"; "}"])
         "wifidog.conf" 1 sample_start
       = Returns (file', linenum')
           (logged
              (with_rules "global"
                 (@block_rules sample_platform
                    (file_of ["FirewallRule allow tcp"; "FirewallRule foo bar";
                              "FirewallRule block"; "}"]))
                 sample_start)
              (omap line_error
                 (@block_interior sample_platform
                    (file_of ["FirewallRule allow tcp"; "FirewallRule foo bar";
                              "FirewallRule block"; "}"])))).
Proof.
  assert (Hn : (3 <= @MAX_BUF sample_platform)%nat) by (simpl; lia).
  assert (Hall : Forall (fun line => is_rule_line line = true)
       (@block_interior sample_platform
          (file_of ["FirewallRule allow tcp"; "FirewallRule foo bar";
                    "FirewallRule block"; "}"]))).
  { vm_compute. repeat constructor. }
  split; [exact Hn|]. split; [exact Hall|].
  apply (@ruleset_block_violations_not_fatal sample_platform "global" _
           "wifidog.conf" 1 sample_start Hn Hall).
Defined.

Lemma same_name_blocks_accumulate_witness :
  let rule1 := mk_rule TARGET_ACCEPT (Some "tcp") (Some "80") (Some "0.0.0.0/0") in
  let rule2 := mk_rule TARGET_DROP (Some "udp") None (Some "0.0.0.0/0") in
  let rule3 := mk_rule TARGET_REJECT None None (Some "0.0.0.0/0") in
  let file1 := file_of ["FirewallRule allow tcp port 80"; "FirewallRule drop udp"; "}"] in
  let file2 := file_of ["FirewallRule block"; "}"] in
  let w1 := with_rules "global" [rule1; rule2] sample_start in
  let w1' := with_rules "known-users" [rule1] w1 in
  let w2 := with_rules "global" [rule3] w1' in
  NoDup (ruleset_names (config sample_start))
  /\ @parse_firewall_ruleset sample_platform "global" file1 "wifidog.conf" 1
       sample_start
     = Returns (mkFILE EmptyString false, 3) w1
  /\ NoDup (ruleset_names (config w1'))
  /\ ruleset_rules (config w1') "global" = ruleset_rules (config w1) "global"
  /\ @parse_firewall_ruleset sample_platform "global" file2 "wifidog.conf" 7 w1'
     = Returns (mkFILE EmptyString false, 8) w2
  /\ NoDup (ruleset_names (config w2))
  /\ ruleset_rules (config w2) "global"
     = (ruleset_rules (config sample_start) "global"
        ++ @block_rules sample_platform file1
        ++ @block_rules sample_platform file2)%list.
Proof.
  intros rule1 rule2 rule3 file1 file2 w1 w1' w2.
  assert (H0 : NoDup (ruleset_names (config sample_start)))
    by (vm_compute; constructor).
  assert (H1 : @parse_firewall_ruleset sample_platform "global" file1
                 "wifidog.conf" 1 sample_start
               = Returns (mkFILE EmptyString false, 3) w1)
    by (vm_compute; reflexivity).
  assert (H2 : NoDup (ruleset_names (config w1'))).
  { vm_compute. apply NoDup_cons_2; [|apply NoDup_singleton].
    intros Hin. apply list_elem_of_singleton in Hin. discriminate. }
  assert (H3 : ruleset_rules (config w1') "global"
               = ruleset_rules (config w1) "global")
    by (vm_compute; reflexivity).
  assert (H4 : @parse_firewall_ruleset sample_platform "global" file2
                 "wifidog.conf" 7 w1'
               = Returns (mkFILE EmptyString false, 8) w2)
    by (vm_compute; reflexivity).
  split; [exact H0|]. split; [exact H1|]. split; [exact H2|].
  split; [exact H3|]. split; [exact H4|].
  exact (@same_name_blocks_accumulate sample_platform "global" file1 file2
           "wifidog.conf" 1 7 sample_start _ w1 w1' _ w2 H0 H1 H2 H3 H4).
Defined.

(** Two blocks named [global] in one file, with another directive between
    them: [config_read] leaves one ruleset of that name, holding the
    three rules in file order. *)
Example config_read_two_blocks :
  (@config_read sample_platform
     (Some (file_of ["FirewallRuleSet global {";
                     "    FirewallRule allow tcp port 80";
                     "    FirewallRule drop udp";
                     "}";
                     "GatewayInterface br-lan";
                     "FirewallRuleSet global {";
                     "    FirewallRule block";
                     "}"]))
     "wifidog.conf" sample_start)
  = Returns tt
      (mk_process
         (set_gw_interface (Some "br-lan")
            (set_rulesets
               [mk_ruleset "global"
                  [mk_rule TARGET_ACCEPT (Some "tcp") (Some "80") (Some "0.0.0.0/0");
                   mk_rule TARGET_DROP (Some "udp") None (Some "0.0.0.0/0");
                   mk_rule TARGET_REJECT None None (Some "0.0.0.0/0")]]
               (config sample_start)))
         0 []).
Proof. vm_compute. reflexivity. Qed.


Lemma server_block_without_hostname_discarded_witness :
  let fd := file_of ["    HTTPPort 8080"; "    # no host name here";
                     "    Path /portal/"; "}"; "GatewayID office"] in
  (3 <= @MAX_BUF sample_platform)%nat
  /\ Forall (fun line => line_opcode line <> Some oServHostname)
            (@block_interior sample_platform fd)
  /\ Forall (fun line => sets_no_hostname line = true)
            (@block_interior sample_platform fd)
  /\ @parse_server sample_platform fd "wifidog.conf" 1 2 sample_start
     = Returns (file_of ["GatewayID office"], 4) sample_start
  /\ exists fd' linenum',
       @parse_server sample_platform fd "wifidog.conf" 1 2 sample_start
       = Returns (fd', linenum') sample_start
       /\ (exists fd1 n1,
             @config_read_case sample_platform oAuthServer "{" fd "wifidog.conf"
               1 sample_start = Returns (fd1, n1) sample_start)
       /\ (exists fd2 n2,
             @config_read_case sample_platform oPortalServer "{" fd "wifidog.conf"
               1 sample_start = Returns (fd2, n2) sample_start)
       /\ (exists fd3 n3,
             @config_read_case sample_platform oPlatServer "{" fd "wifidog.conf"
               1 sample_start = Returns (fd3, n3) sample_start).
Proof.
  intros fd.
  assert (Hn : (3 <= @MAX_BUF sample_platform)%nat) by (simpl; lia).
  assert (Hnohost : Forall (fun line => line_opcode line <> Some oServHostname)
                           (@block_interior sample_platform fd)).
  { vm_compute. repeat constructor; discriminate. }
  assert (Hall : Forall (fun line => sets_no_hostname line = true)
                        (@block_interior sample_platform fd)).
  { vm_compute. repeat constructor. }
  assert (Hrun : @parse_server sample_platform fd "wifidog.conf" 1 2 sample_start
                 = Returns (file_of ["GatewayID office"], 4) sample_start)
    by (vm_compute; reflexivity).
  split; [exact Hn|]. split; [exact Hnohost|]. split; [exact Hall|].
  split; [exact Hrun|].
  exact (proj2 (@server_block_without_hostname_discarded sample_platform 2 fd
                  "wifidog.conf" 1 "{" sample_start Hn Hnohost) Hall).
Defined.

(** A file whose only server block sets no host name: the block leaves
    no server behind and the directive after it is read. *)
Example config_read_block_without_hostname :
  (@config_read sample_platform
     (Some (file_of ["AuthServer {"; "    HTTPPort 8080"; "    Path /portal/";
                     "}"; "GatewayID office"]))
     "wifidog.conf" sample_start)
  = Returns tt
      (mk_process (set_gw_id (Some "office") (config sample_start)) 0 []).
Proof. vm_compute. reflexivity. Qed.


(** A top-level line made of one unknown word: [config_read] does not
    look it up, logs nothing and reads on. *)
Lemma unknown_keyword_without_value_skipped :
  keyword_search keywords "Bogus" = None
  /\ @config_read sample_platform
       (Some (file_of ["Bogus"; "GatewayID office"])) "wifidog.conf"
       sample_start
     = Returns tt
         (mk_process (set_gw_id (Some "office") (config sample_start)) 0 [])
  /\ ~ (exists status w',
          @config_read sample_platform
            (Some (file_of ["Bogus"; "GatewayID office"])) "wifidog.conf"
            sample_start
          = Exits status w').
Proof.
  assert (Hrun :
    @config_read sample_platform
       (Some (file_of ["Bogus"; "GatewayID office"])) "wifidog.conf"
       sample_start
     = Returns tt
         (mk_process (set_gw_id (Some "office") (config sample_start)) 0 []))
    by (vm_compute; reflexivity).
  split; [vm_compute; reflexivity|]. split; [exact Hrun|].
  intros (status & w' & Hex). rewrite Hrun in Hex. discriminate.
Qed.

Lemma config_read_unknown_keyword_witness :
  let fd := file_of ["Bogus value"; "GatewayID office"] in
  let fd' := file_of ["GatewayID office"] in
  (2 <= @MAX_BUF sample_platform)%nat
  /\ feof fd = false
  /\ fgets (@MAX_BUF sample_platform) fd = (Some ("Bogus value" +:+ String LF EmptyString), fd')
  /\ top_tokens ("Bogus value" +:+ String LF EmptyString) = ("Bogus", Some "value")
  /\ has_prefix "#" "Bogus" = false
  /\ keyword_search keywords "Bogus" = None
  /\ @config_read_loop sample_platform 30 fd "wifidog.conf" 0 sample_start
     = Exits (-1)
         (logged sample_start
            [Bad_configuration_option "wifidog.conf" 1 "Bogus";
             Bad_option_on_line 1 "wifidog.conf"; Exiting]).
Proof.
  intros fd fd'.
  assert (Hn : (2 <= @MAX_BUF sample_platform)%nat) by (simpl; lia).
  assert (He : feof fd = false) by reflexivity.
  assert (Hf : fgets (@MAX_BUF sample_platform) fd
               = (Some ("Bogus value" +:+ String LF EmptyString), fd'))
    by (vm_compute; reflexivity).
  assert (Ht : top_tokens ("Bogus value" +:+ String LF EmptyString)
               = ("Bogus", Some "value")) by (vm_compute; reflexivity).
  assert (Hc : has_prefix "#" "Bogus" = false) by reflexivity.
  assert (Hk : keyword_search keywords "Bogus" = None)
    by (vm_compute; reflexivity).
  repeat (split; [assumption|]).
  destruct (@config_read_unknown_keyword sample_platform 29 fd fd' _ "Bogus"
              (Some "value") "wifidog.conf" 0 sample_start Hn He Hf Ht)
    as [Hbad _].
  apply (Hbad "value" eq_refl); [discriminate|exact Hc|exact Hk].
Defined.

(** A file that sets a user name and nothing else: [config_read] exits
    on the missing password, and the missing interface and server, which
    the validator would report, are not reported. *)
Lemma username_violation_reported_alone :
  (@config_read sample_platform (Some (file_of ["HTTPDUserName admin"]))
     "wifidog.conf" >> config_validate) sample_start
  = Exits (-1)
      (mk_process (set_httpdusername (Some "admin") (config sample_start)) 0
                  [Username_requires_password])
  /\ gw_interface (set_httpdusername (Some "admin") (config sample_start)) = None
  /\ auth_servers (set_httpdusername (Some "admin") (config sample_start)) = []
  /\ (Is_not_set "GatewayInterface" ∉ [Username_requires_password])
  /\ (Is_not_set "AuthServer" ∉ [Username_requires_password]).
Proof.
  split; [vm_compute; reflexivity|].
  split; [reflexivity|]. split; [reflexivity|].
  split; intros Hin; apply list_elem_of_singleton in Hin; discriminate.
Qed.

Lemma completeness_violations_reporting_witness :
  let fd := file_of ["HTTPDUserName admin"] in
  let w1 := mk_process (set_httpdusername (Some "admin") (config sample_start)) 0 [] in
  (missing_parms sample_start = 0
   /\ config_validate sample_start
      = Exits (-1)
          (mk_process (config sample_start) 1
             [Is_not_set "GatewayInterface"; Is_not_set "AuthServer";
              Configuration_not_complete]))
  /\ @config_read_loop sample_platform (S (String.length (content fd))) fd
       "wifidog.conf" 0 sample_start
     = Returns tt w1
  /\ not_null (httpdusername (config w1)) = true
  /\ not_null (httpdpassword (config w1)) = false
  /\ (@config_read sample_platform (Some fd) "wifidog.conf" >> config_validate)
       sample_start
     = Exits (-1) (logged w1 [Username_requires_password]).
Proof.
  intros fd w1.
  destruct (@completeness_violations_reporting sample_platform fd
              "wifidog.conf" sample_start sample_start) as [Hv _].
  destruct (@completeness_violations_reporting sample_platform fd
              "wifidog.conf" sample_start w1) as [_ Hu].
  assert (Hloop : @config_read_loop sample_platform
                    (S (String.length (content fd))) fd "wifidog.conf" 0
                    sample_start = Returns tt w1) by (vm_compute; reflexivity).
  split; [split; [reflexivity|exact (Hv eq_refl)]|].
  split; [exact Hloop|]. split; [reflexivity|]. split; [reflexivity|].
  exact (Hu Hloop eq_refl eq_refl).
Defined.

Lemma daemon_flag_first_valid_wins_witness :
  let fd := file_of ["Daemon yes"] in
  let w1 := mk_process (set_daemon 0 (config sample_start)) 0 [] in
  daemon (config sample_start) = -1
  /\ parse_boolean_value "no" <> -1
  /\ @config_read_case sample_platform oDaemon "no" fd "wifidog.conf" 1
       sample_start
     = Returns (fd, 1) w1
  /\ daemon (config w1) <> -1
  /\ @config_read_case sample_platform oDaemon "yes" fd "wifidog.conf" 2 w1
     = Returns (fd, 2) w1
  /\ final (@config_read sample_platform (Some fd) "wifidog.conf" w1) = Some w1
  /\ daemon (config w1) = 0.
Proof.
  intros fd w1.
  assert (H0 : daemon (config sample_start) = -1) by reflexivity.
  assert (H1 : parse_boolean_value "no" <> -1) by (vm_compute; discriminate).
  assert (H2 : daemon (config w1) <> -1) by (vm_compute; discriminate).
  assert (H3 : final (@config_read sample_platform (Some fd) "wifidog.conf" w1)
               = Some w1) by (vm_compute; reflexivity).
  destruct (@daemon_flag_first_valid_wins sample_platform "no" fd
              "wifidog.conf" 1 sample_start) as (Hset & _ & _).
  destruct (@daemon_flag_first_valid_wins sample_platform "yes" fd
              "wifidog.conf" 2 w1) as (_ & Hkeep & Hrun).
  split; [exact H0|]. split; [exact H1|].
  split; [exact (proj1 (Hset H0 H1))|]. split; [exact H2|].
  split; [exact (Hkeep (or_introl H2))|]. split; [exact H3|].
  exact (Hrun H2 (Some fd) w1 H3).
Defined.

(** The first valid [Daemon] line of a file wins over the later ones, and
    a line with an unknown value is passed over. *)
Example config_read_daemon_lines :
  (@config_read sample_platform
     (Some (file_of ["Daemon maybe"; "Daemon no"; "Daemon yes"]))
     "wifidog.conf" sample_start)
  = Returns tt (mk_process (set_daemon 0 (config sample_start)) 0 []).
Proof. vm_compute. reflexivity. Qed.

(** The trusted list through the dispatcher: the directive
    [TrustedMACList a,b,b] leaves three entries. *)
Example config_read_trusted_duplicate :
  (@config_read sample_platform (Some (file_of ["TrustedMACList a,b,b"]))
     "wifidog.conf" sample_start)
  = Returns tt
      (mk_process (set_trustedmaclist ["a"; "b"; "b"] (config sample_start)) 0 []).
Proof. vm_compute. reflexivity. Qed.

(** One-word rules through the dispatcher: [FirewallRule foo] and
    [FirewallRule allow] both leave a reject rule and no message. *)
Example config_read_one_word_rules :
  (@config_read sample_platform
     (Some (file_of ["FirewallRuleSet global {"; "    FirewallRule foo";
                     "    FirewallRule allow"; "}"]))
     "wifidog.conf" sample_start)
  = Returns tt
      (mk_process
         (set_rulesets
            [mk_ruleset "global"
               [mk_rule TARGET_REJECT None None (Some "0.0.0.0/0");
                mk_rule TARGET_REJECT None None (Some "0.0.0.0/0")]]
            (config sample_start))
         0 []).
Proof. vm_compute. reflexivity. Qed.

(** * Further properties of the parser *)

Section Termination.
Context `{Platform}.

(** ** Every run has a result, and exits are announced *)

Lemma orderly_ret {A} T (a : A) w : orderly T w (ret a w).
Proof. exists []. by rewrite app_nil_r. Qed.

Lemma orderly_weaken {A} (T T' : Prop) w (o : outcome A) :
  (T' -> T) -> orderly T' w o -> orderly T w o.
Proof. destruct o; simpl; auto. Qed.

Lemma orderly_after {A} T w w1 (o : outcome A) msgs :
  errlog w1 = (errlog w ++ msgs)%list -> orderly T w1 o -> orderly T w o.
Proof.
  intros Hw. destruct o as [a w'|n w'|]; simpl; [| |done].
  - intros [msgs' ->]. exists (msgs ++ msgs')%list. by rewrite Hw, app_assoc.
  - intros [-> (msgs' & Hne & ->)]. split; [done|].
    exists (msgs ++ msgs')%list. split; [|by rewrite Hw, app_assoc].
    destruct msgs; [done|discriminate].
Qed.

Lemma orderly_bind {A B} T (m : M A) (k : A -> M B) w :
  orderly T w (m w) ->
  (forall a w1, m w = Returns a w1 -> orderly T w1 (k a w1)) ->
  orderly T w (bind m k w).
Proof.
  intros Hm Hk. unfold bind.
  destruct (m w) as [a w1|n w1|] eqn:E; [|exact Hm|exact Hm].
  destruct Hm as [msgs Hmsgs]. eapply orderly_after; [exact Hmsgs|].
  by apply Hk.
Qed.

Lemma orderly_bad_option {A} T linenum filename w :
  orderly T w
    ((debug_err (Bad_option_on_line linenum filename) >>
      debug_err Exiting >> @exit A (-1)) w).
Proof.
  simpl. split; [done|].
  exists [Bad_option_on_line linenum filename; Exiting].
  split; [discriminate|]. by rewrite <- app_assoc.
Qed.

Lemma orderly_config_parse_token T cp filename linenum w :
  orderly T w (config_parse_token cp filename linenum w).
Proof.
  unfold config_parse_token. destruct (keyword_search keywords cp).
  - apply orderly_ret.
  - by exists [Bad_configuration_option filename linenum cp].
Qed.

Lemma orderly_update_config T f w : orderly T w (update_config f w).
Proof. exists []. simpl. by rewrite app_nil_r. Qed.

Lemma orderly_update_then {A} T f (a : A) w :
  orderly T w ((update_config f >> ret a) w).
Proof. exists []. simpl. by rewrite app_nil_r. Qed.

Lemma orderly_parse_firewall_rule T ruleset leftover w :
  orderly T w (_parse_firewall_rule ruleset leftover w).
Proof.
  unfold _parse_firewall_rule.
  destruct (parse_rule leftover) as [[code msg]|tmp].
  - by exists [msg].
  - apply orderly_update_then.
Qed.

Lemma orderly_parse_server_case T opcode p2 filename linenum v w :
  orderly T w (parse_server_case opcode p2 filename linenum v w).
Proof.
  destruct v. destruct opcode; cbn [parse_server_case];
    first [apply orderly_ret | apply orderly_bad_option].
Qed.

(** Reading never gives text back. *)
Lemma fgets_le n f o f' :
  fgets n f = (o, f') ->
  (String.length (content f') <= String.length (content f))%nat.
Proof.
  unfold fgets.
  destruct (read_line (n - 1) (content f)) as [[l r] e] eqn:E.
  pose proof (read_line_length _ _ _ _ _ E) as Hlen.
  destruct l; [destruct e|]; intros Hf; inversion Hf; subst; simpl; lia.
Qed.

Lemma block_fgets_le file o file' :
  block_fgets file = (o, file') ->
  (String.length (content file') <= String.length (content file))%nat.
Proof.
  unfold block_fgets.
  destruct (fgets (MAX_BUF - 1) file) as [[l|] f0] eqn:E.
  - destruct (contains "}" l); intros Hf; inversion Hf; subst;
      eapply fgets_le; exact E.
  - intros Hf; inversion Hf; subst. eapply fgets_le; exact E.
Qed.

Lemma parse_server_loop_file filename fuel :
  forall file linenum v w file' linenum' v' w',
  parse_server_loop fuel file filename linenum v w
  = Returns (file', linenum', v') w' ->
  (String.length (content file') <= String.length (content file))%nat.
Proof.
  induction fuel as [|fuel IH]; intros file linenum v w file' linenum' v' w' Hr;
    [discriminate Hr|].
  cbn [parse_server_loop] in Hr.
  destruct (block_fgets file) as [[line|] file1] eqn:Hf.
  2:{ inversion Hr; subst. eapply block_fgets_le; exact Hf. }
  apply block_fgets_le in Hf.
  destruct (block_tokens line) as [[p1 p2]|].
  - unfold bind at 1 in Hr.
    destruct (config_parse_token p1 filename (linenum + 1) w)
      as [opcode w1|n w1|]; try discriminate Hr.
    unfold bind at 1 in Hr.
    destruct (parse_server_case opcode p2 filename (linenum + 1) v w1)
      as [v1 w2|n w2|]; try discriminate Hr.
    apply IH in Hr. lia.
  - apply IH in Hr. lia.
Qed.

Lemma orderly_parse_server_loop filename fuel : forall file linenum v w,
  orderly ((3 <= MAX_BUF)%nat -> (fuel <= String.length (content file))%nat) w
          (parse_server_loop fuel file filename linenum v w).
Proof.
  induction fuel as [|fuel IH]; intros file linenum v w.
  - simpl. lia.
  - cbn [parse_server_loop].
    destruct (block_fgets file) as [[line|] file1] eqn:Hf;
      [|apply orderly_ret].
    assert (Hw : ((3 <= MAX_BUF)%nat ->
                  (fuel <= String.length (content file1))%nat) ->
                 ((3 <= MAX_BUF)%nat ->
                  (S fuel <= String.length (content file))%nat)).
    { intros Hh Hn. pose proof (block_fgets_shrinks _ _ _ Hn Hf).
      specialize (Hh Hn). lia. }
    destruct (block_tokens line) as [[p1 p2]|].
    + apply orderly_bind; [apply orderly_config_parse_token|].
      intros opcode w1 _.
      apply orderly_bind; [apply orderly_parse_server_case|].
      intros v1 w2 _. eapply orderly_weaken; [exact Hw|apply IH].
    + eapply orderly_weaken; [exact Hw|apply IH].
Qed.

Lemma parse_server_file file filename linenum type w file' linenum' w' :
  parse_server file filename linenum type w = Returns (file', linenum') w' ->
  (String.length (content file') <= String.length (content file))%nat.
Proof.
  unfold parse_server. unfold bind at 1.
  destruct (parse_server_loop (S (String.length (content file))) file filename
              linenum serv_defaults w) as [[[f1 n1] v1] w1|n w1|] eqn:Hl;
    try discriminate.
  apply parse_server_loop_file in Hl.
  destruct (v_host v1).
  - unfold bind.
    match goal with
    | |- context [match ?m w1 with _ => _ end] => destruct (m w1)
    end; intros Hr; inversion Hr; subst; exact Hl.
  - intros Hr; inversion Hr; subst; exact Hl.
Qed.

Lemma orderly_parse_server file filename linenum type w :
  orderly (~ (3 <= MAX_BUF)%nat) w (parse_server file filename linenum type w).
Proof.
  unfold parse_server. apply orderly_bind.
  - eapply orderly_weaken; [|apply orderly_parse_server_loop].
    intros Hh Hn. specialize (Hh Hn). lia.
  - intros [[f1 n1] v1] w1 _. destruct (v_host v1); [|apply orderly_ret].
    apply orderly_bind; [|intros; apply orderly_ret].
    destruct type as [|[p|p|]|]; try destruct p;
      first [apply orderly_update_config
            | exists [Bad_option_on_line n1 filename; Exiting]; simpl;
              by rewrite <- app_assoc ].
Qed.

Lemma ruleset_loop_file ruleset filename fuel :
  forall file linenum w file' linenum' w',
  parse_firewall_ruleset_loop fuel ruleset file filename linenum w
  = Returns (file', linenum') w' ->
  (String.length (content file') <= String.length (content file))%nat.
Proof.
  induction fuel as [|fuel IH]; intros file linenum w file' linenum' w' Hr;
    [discriminate Hr|].
  cbn [parse_firewall_ruleset_loop] in Hr.
  destruct (block_fgets file) as [[line|] file1] eqn:Hf.
  2:{ inversion Hr; subst. eapply block_fgets_le; exact Hf. }
  apply block_fgets_le in Hf.
  destruct (block_tokens line) as [[p1 p2]|].
  - unfold bind at 1 in Hr.
    destruct (config_parse_token p1 filename (linenum + 1) w)
      as [opcode w1|n w1|]; try discriminate Hr.
    destruct opcode; try discriminate Hr.
    unfold bind at 1 in Hr.
    destruct (_parse_firewall_rule ruleset p2 w1) as [c w2|n w2|];
      try discriminate Hr.
    apply IH in Hr. lia.
  - apply IH in Hr. lia.
Qed.

Lemma orderly_ruleset_loop ruleset filename fuel : forall file linenum w,
  orderly ((3 <= MAX_BUF)%nat -> (fuel <= String.length (content file))%nat) w
          (parse_firewall_ruleset_loop fuel ruleset file filename linenum w).
Proof.
  induction fuel as [|fuel IH]; intros file linenum w.
  - simpl. lia.
  - cbn [parse_firewall_ruleset_loop].
    destruct (block_fgets file) as [[line|] file1] eqn:Hf;
      [|apply orderly_ret].
    assert (Hw : ((3 <= MAX_BUF)%nat ->
                  (fuel <= String.length (content file1))%nat) ->
                 ((3 <= MAX_BUF)%nat ->
                  (S fuel <= String.length (content file))%nat)).
    { intros Hh Hn. pose proof (block_fgets_shrinks _ _ _ Hn Hf).
      specialize (Hh Hn). lia. }
    destruct (block_tokens line) as [[p1 p2]|].
    + apply orderly_bind; [apply orderly_config_parse_token|].
      intros opcode w1 _.
      destruct opcode; try apply orderly_bad_option.
      apply orderly_bind; [apply orderly_parse_firewall_rule|].
      intros c w2 _. eapply orderly_weaken; [exact Hw|apply IH].
    + eapply orderly_weaken; [exact Hw|apply IH].
Qed.

Lemma config_read_case_file opcode p1 fd filename linenum w fd' linenum' w' :
  config_read_case opcode p1 fd filename linenum w = Returns (fd', linenum') w' ->
  (String.length (content fd') <= String.length (content fd))%nat.
Proof.
  destruct opcode; cbn [config_read_case];
    try (intros Hr; apply parse_server_file in Hr; exact Hr);
    try (intros Hr; apply ruleset_loop_file in Hr; exact Hr);
    try (unfold bind, get_config;
         repeat match goal with
                | |- context [if ?b then _ else _] => destruct b
                end;
         intros Hr; inversion Hr; subst; lia).
Qed.

Lemma orderly_config_read_case opcode p1 fd filename linenum w :
  orderly (~ (3 <= MAX_BUF)%nat) w
          (config_read_case opcode p1 fd filename linenum w).
Proof.
  destruct opcode; cbn [config_read_case];
    try apply orderly_update_then;
    try apply orderly_ret;
    try apply orderly_parse_server;
    try apply orderly_bad_option.
  - unfold bind, get_config.
    destruct ((daemon (config w) =? -1) && negb (parse_boolean_value p1 =? -1));
      exists []; simpl; by rewrite app_nil_r.
  - unfold parse_firewall_ruleset.
    eapply orderly_weaken; [|apply orderly_ruleset_loop].
    intros Hh Hn. specialize (Hh Hn). lia.
Qed.

Lemma orderly_config_read_line line fd filename linenum w :
  orderly (line = EmptyString \/ ~ (3 <= MAX_BUF)%nat) w
          (config_read_line line fd filename linenum w).
Proof.
  unfold config_read_line. destruct line as [|c line]; [by left|].
  destruct (top_tokens (String c line)) as [s [p1|]]; [|apply orderly_ret].
  destruct (negb (streq p1 EmptyString)); [|apply orderly_ret].
  destruct (negb (has_prefix "#" s)); [|apply orderly_ret].
  apply orderly_bind; [apply orderly_config_parse_token|].
  intros opcode w1 _.
  eapply orderly_weaken; [|apply orderly_config_read_case]. by right.
Qed.

Lemma config_read_line_file line fd filename linenum w fd' linenum' w' :
  config_read_line line fd filename linenum w = Returns (fd', linenum') w' ->
  (String.length (content fd') <= String.length (content fd))%nat.
Proof.
  unfold config_read_line. destruct line as [|c line]; [discriminate|].
  destruct (top_tokens (String c line)) as [s [p1|]];
    [|intros Hr; inversion Hr; subst; lia].
  destruct (negb (streq p1 EmptyString));
    [|intros Hr; inversion Hr; subst; lia].
  destruct (negb (has_prefix "#" s));
    [|intros Hr; inversion Hr; subst; lia].
  unfold bind at 1.
  destruct (config_parse_token s filename linenum w) as [opcode w1|n w1|];
    try discriminate.
  apply config_read_case_file.
Qed.

Lemma orderly_config_read_loop filename fuel : forall fd linenum w,
  orderly ((3 <= MAX_BUF)%nat -> (fuel <= String.length (content fd))%nat) w
          (config_read_loop fuel fd filename linenum w).
Proof.
  induction fuel as [|fuel IH]; intros fd linenum w.
  - simpl. lia.
  - cbn [config_read_loop]. destruct (feof fd); [apply orderly_ret|].
    destruct (fgets MAX_BUF fd) as [[line|] fd1] eqn:Hf; [|apply orderly_ret].
    apply orderly_bind.
    + eapply orderly_weaken; [|apply orderly_config_read_line].
      intros Hh Hn. destruct Hh as [Hempty|Hno]; [|contradiction].
      exfalso. eapply fgets_nonempty; [|exact Hf|exact Hempty]. lia.
    + intros [fd2 n2] w2 Hline. apply config_read_line_file in Hline.
      eapply orderly_weaken; [|apply IH].
      intros Hh Hn. specialize (Hh Hn).
      assert (String.length (content fd1) < String.length (content fd))%nat
        by (eapply fgets_shrinks; [|exact Hf]; lia).
      lia.
Qed.


Lemma orderly_config_read fd filename w :
  orderly (~ (3 <= MAX_BUF)%nat) w (config_read (Some fd) filename w).
Proof.
  unfold config_read. apply orderly_bind.
  - eapply orderly_weaken; [|apply orderly_config_read_loop].
    intros Hh Hn. specialize (Hh Hn). lia.
  - intros _ w1 _. apply orderly_bind; [apply orderly_ret|]. intros c w2 _.
    destruct (not_null (httpdusername c) && negb (not_null (httpdpassword c)));
      [|apply orderly_ret].
    split; [done|]. exists [Username_requires_password]. by split.
Qed.


(** X2.  [config_read] ends the process in two ways only: with status 1
    when the file could not be opened, with status -1 otherwise; either
    way at least one error message was logged first, and the messages
    logged before the call are still there.  When it returns, the file
    was opened and the log was only added to. *)
Theorem config_read_exit_status fd filename w :
  match config_read fd filename w with
  | Exits status w' =>
      (fd = None /\ status = 1 \/ fd <> None /\ status = -1)
      /\ exists msgs, msgs <> [] /\ errlog w' = (errlog w ++ msgs)%list
  | Returns _ w' =>
      fd <> None /\ exists msgs, errlog w' = (errlog w ++ msgs)%list
  | NoResult => True
  end.
Proof.
  destruct fd as [fd|].
  - pose proof (orderly_config_read fd filename w) as Hr.
    destruct (config_read (Some fd) filename w) as [a w'|n w'|]; [| |done].
    + split; [done|exact Hr].
    + destruct Hr as [-> Hmsgs]. split; [by right|exact Hmsgs].
  - simpl. split; [by left|]. exists [Could_not_open filename]. by split.
Qed.

End Termination.

Section Shape.
Context `{Platform}.

(** ** The shape of what the parsers build *)

Lemma word_end_keeps_prefix lit : forall s,
  forallb (fun c => negb (isblank c)) (list_ascii_of_string lit) = true ->
  String.prefix lit s = true ->
  String.prefix lit (fst (word_end s)) = true.
Proof.
  induction lit as [|a lit IH]; intros s Hlit Hp; [by destruct (word_end s) as [[] ?]|].
  destruct s as [|b s]; [discriminate Hp|].
  simpl in Hp. destruct (ascii_dec a b) as [<-|]; [|discriminate Hp].
  simpl in Hlit. apply andb_true_iff in Hlit as [Ha Hlit].
  apply negb_true_iff in Ha. cbn [word_end]. rewrite Ha.
  destruct (word_end s) as [w r] eqn:E. cbn [fst]. simpl.
  destruct (ascii_dec a a); [|done].
  specialize (IH s Hlit Hp). by rewrite E in IH.
Qed.

Lemma TO_NEXT_WORD_keeps_prefix lit s e w s' e' :
  forallb (fun c => negb (isblank c)) (list_ascii_of_string lit) = true ->
  has_prefix lit s = true ->
  TO_NEXT_WORD s e = (w, s', e') ->
  has_prefix lit w = true.
Proof.
  intros Hlit Hp. unfold TO_NEXT_WORD.
  pose proof (word_end_keeps_prefix lit s Hlit Hp) as Hw.
  destruct (word_end s) as [w0 [r|]]; intros Ht; inversion Ht; subst; exact Hw.
Qed.

Lemma rule_mask_ok target protocol port leftover finished r :
  rule_mask target protocol port leftover finished = inr r ->
  fr_target r = target /\ fr_protocol r = protocol /\ fr_port r = port
  /\ match fr_mask r with Some m => all_mask_chars m | None => false end = true.
Proof.
  unfold rule_mask. destruct (negb finished).
  - destruct (TO_NEXT_WORD leftover finished) as [[other_kw l1] f1].
    destruct (negb (streq other_kw "to") || f1); [discriminate|].
    destruct (TO_NEXT_WORD l1 f1) as [[mask l2] f2].
    destruct (all_mask_chars mask) eqn:Hm; [|discriminate].
    intros Hr; inversion Hr; subst. simpl. by rewrite Hm.
  - intros Hr; inversion Hr; subst. simpl. by vm_compute.
Qed.

Lemma rule_port_ok target protocol leftover finished r :
  rule_port target protocol leftover finished = inr r ->
  fr_target r = target /\ fr_protocol r = protocol
  /\ match fr_port r with Some p => all_digits p | None => true end = true
  /\ match fr_mask r with Some m => all_mask_chars m | None => false end = true.
Proof.
  unfold rule_port. destruct (has_prefix "port" leftover).
  - destruct (TO_NEXT_WORD leftover finished) as [[w0 l1] f1].
    destruct (TO_NEXT_WORD l1 f1) as [[port l2] f2].
    destruct (all_digits port) eqn:Hd; [|discriminate]. cbn [negb].
    intros Hr. apply rule_mask_ok in Hr as (Ht & Hpr & Hpo & Hm).
    rewrite Hpo. auto.
  - intros Hr. apply rule_mask_ok in Hr as (Ht & Hpr & Hpo & Hm).
    rewrite Hpo. auto.
Qed.

(** Every rule the mini-parser accepts has its mask, its port and its
    protocol as the grammar wants them. *)
Lemma parse_rule_ok leftover r : parse_rule leftover = inr r -> rule_ok r = true.
Proof.
  unfold parse_rule, rule_ok.
  destruct (TO_NEXT_WORD (strlower leftover) false) as [[token l1] f1].
  destruct (rule_target token f1) as [target|]; [|discriminate].
  destruct (has_prefix "tcp" l1 || has_prefix "udp" l1 || has_prefix "icmp" l1)
    eqn:Hproto.
  - destruct (TO_NEXT_WORD l1 f1) as [[protocol l2] f2] eqn:Hw.
    intros Hr. apply rule_port_ok in Hr as (_ & Hpr & Hpo & Hm).
    rewrite Hm, Hpo, Hpr. cbn [andb].
    apply orb_true_iff in Hproto as [Hproto|Hicmp];
      [apply orb_true_iff in Hproto as [Htcp|Hudp]|].
    + rewrite (TO_NEXT_WORD_keeps_prefix "tcp" _ _ _ _ _ eq_refl Htcp Hw).
      reflexivity.
    + rewrite (TO_NEXT_WORD_keeps_prefix "udp" _ _ _ _ _ eq_refl Hudp Hw).
      by rewrite orb_true_r.
    + rewrite (TO_NEXT_WORD_keeps_prefix "icmp" _ _ _ _ _ eq_refl Hicmp Hw).
      by rewrite orb_true_r.
  - intros Hr. apply rule_port_ok in Hr as (_ & Hpr & Hpo & Hm).
    by rewrite Hm, Hpo, Hpr.
Qed.

Lemma append_rule_ok ruleset tmp l :
  rule_ok tmp = true ->
  forallb ruleset_ok l = true ->
  forallb ruleset_ok (append_rule ruleset tmp l) = true.
Proof.
  intros Htmp. induction l as [|tmpr l IH]; intros Hl.
  - cbn [append_rule forallb]. unfold ruleset_ok. cbn [rs_rules forallb].
    by rewrite Htmp.
  - cbn [forallb] in Hl. apply andb_true_iff in Hl as [Hr Hl].
    cbn [append_rule]. destruct (streq (rs_name tmpr) ruleset).
    + cbn [forallb]. rewrite Hl, andb_true_r.
      unfold ruleset_ok in *. cbn [rs_rules].
      destruct (rs_rules tmpr) as [|r0 rules]; [discriminate Hr|].
      cbn [app]. cbn [forallb] in *.
      apply andb_true_iff in Hr as [Hr0 Hrules].
      rewrite Hr0, forallb_app, Hrules. cbn [forallb]. by rewrite Htmp.
    + cbn [forallb]. by rewrite Hr, IH.
Qed.

Lemma scan_set_ok width s :
  (String.length (scan_set width s) <= width)%nat
  /\ forallb in_mac_scanset (list_ascii_of_string (scan_set width s)) = true.
Proof.
  revert s. induction width as [|width IH]; intros s; [by split|].
  destruct s as [|c s]; [split; simpl; [lia|done]|].
  cbn [scan_set]. destruct (in_mac_scanset c) eqn:Hc; [|split; simpl; [lia|done]].
  destruct (IH s) as [Hlen Hall]. split; simpl; [lia|].
  by rewrite Hc, Hall.
Qed.

(** What [sscanf] stores is a trusted entry of the expected shape. *)
Lemma sscanf_mac_ok s mac : sscanf_mac s = Some mac -> mac_ok mac = true.
Proof.
  unfold sscanf_mac, mac_ok.
  destruct (scan_set_ok 17 (skip_spaces s)) as [Hlen Hall].
  destruct (scan_set 17 (skip_spaces s)) as [|c m] eqn:E; [discriminate|].
  intros Hs; inversion Hs; subst. rewrite Hall.
  apply Nat.leb_le in Hlen. by rewrite Hlen.
Qed.

Lemma trusted_add_ok mac l :
  mac_ok mac = true -> forallb mac_ok l = true ->
  forallb mac_ok (trusted_add mac l) = true.
Proof.
  intros Hm Hl. unfold trusted_add. destruct l as [|p next]; [by simpl; rewrite Hm|].
  destruct (negb _); [|exact Hl].
  rewrite forallb_app, Hl. simpl. by rewrite Hm.
Qed.

Lemma trusted_tokens_ok toks : forall l,
  forallb mac_ok l = true ->
  forallb mac_ok (fold_left trusted_token toks l) = true.
Proof.
  induction toks as [|tok toks IH]; intros l Hl; [exact Hl|].
  cbn [fold_left]. apply IH. unfold trusted_token.
  destruct (sscanf_mac tok) as [mac|] eqn:E; [|exact Hl].
  apply trusted_add_ok; [by eapply sscanf_mac_ok|exact Hl].
Qed.

Lemma shape_frame f :
  (forall c, rulesets (f c) = rulesets c /\ trustedmaclist (f c) = trustedmaclist c) ->
  preserves parsed_ok (update_config f).
Proof.
  intros Hf w (Hnd & Hrs & Hmacs). unfold parsed_ok, ruleset_names in *.
  cbn [update_config config]. destruct (Hf (config w)) as [-> ->]. auto.
Qed.

Lemma shape_debug_err msg : preserves parsed_ok (debug_err msg).
Proof. intros w Hw. exact Hw. Qed.

Lemma shape_get_config : preserves parsed_ok get_config.
Proof. intros w Hw. exact Hw. Qed.

Lemma shape_config_parse_token cp filename linenum :
  preserves parsed_ok (config_parse_token cp filename linenum).
Proof.
  unfold config_parse_token. destruct (keyword_search keywords cp).
  - apply preserves_ret.
  - apply preserves_bind; [apply shape_debug_err|intros; apply preserves_ret].
Qed.

(** Closes a goal [preserves parsed_ok m] for a straight-line [m] that
    assigns neither the rulesets nor the trusted list. *)
Ltac keeps_shape :=
  repeat first
    [ apply preserves_ret
    | apply preserves_exit
    | apply shape_debug_err
    | apply shape_config_parse_token
    | apply shape_frame; intros []; split; reflexivity
    | apply preserves_bind; [|intros ?] ].

Lemma shape_parse_firewall_rule ruleset leftover :
  preserves parsed_ok (_parse_firewall_rule ruleset leftover).
Proof.
  unfold _parse_firewall_rule.
  destruct (parse_rule leftover) as [[code msg]|tmp] eqn:Hp; [keeps_shape|].
  apply preserves_bind; [|intros; apply preserves_ret].
  intros w (Hnd & Hrs & Hmacs). unfold parsed_ok, ruleset_names in *.
  cbn [update_config config]. rewrite rulesets_set_rulesets.
  split; [by apply append_rule_NoDup|]. split.
  - apply append_rule_ok; [by eapply parse_rule_ok|exact Hrs].
  - by destruct (config w).
Qed.

Lemma shape_parse_firewall_ruleset ruleset file filename linenum :
  preserves parsed_ok (parse_firewall_ruleset ruleset file filename linenum).
Proof.
  unfold parse_firewall_ruleset.
  generalize (S (String.length (content file))). intros fuel.
  revert file linenum. induction fuel as [|fuel IH]; intros file linenum.
  - apply preserves_no_result.
  - cbn [parse_firewall_ruleset_loop].
    destruct (block_fgets file) as [[line|] file']; [|apply preserves_ret].
    destruct (block_tokens line) as [[p1 p2]|]; [|apply IH].
    apply preserves_bind; [apply shape_config_parse_token|].
    intros opcode. destruct opcode; keeps_shape.
    + apply shape_parse_firewall_rule.
    + apply IH.
Qed.

Lemma shape_parse_server_case opcode p2 filename linenum v :
  preserves parsed_ok (parse_server_case opcode p2 filename linenum v).
Proof. destruct v. destruct opcode; keeps_shape. Qed.

Lemma shape_parse_server file filename linenum type :
  preserves parsed_ok (parse_server file filename linenum type).
Proof.
  unfold parse_server. apply preserves_bind.
  - generalize (S (String.length (content file))) serv_defaults. intros fuel.
    revert file linenum. induction fuel as [|fuel IH]; intros file linenum v.
    + apply preserves_no_result.
    + cbn [parse_server_loop].
      destruct (block_fgets file) as [[line|] file']; [|apply preserves_ret].
      destruct (block_tokens line) as [[p1 p2]|]; [|apply IH].
      apply preserves_bind; [apply shape_config_parse_token|]. intros opcode.
      apply preserves_bind; [apply shape_parse_server_case|]. intros v'.
      apply IH.
  - intros [[file' linenum'] v]. destruct (v_host v); [|apply preserves_ret].
    apply preserves_bind; [|intros; apply preserves_ret].
    destruct type as [|[p|p|]|]; try destruct p; keeps_shape.
Qed.

Lemma shape_parse_trusted_mac_list ptr :
  preserves parsed_ok (parse_trusted_mac_list ptr).
Proof.
  intros w (Hnd & Hrs & Hmacs). unfold parsed_ok, ruleset_names in *.
  cbn [parse_trusted_mac_list update_config config].
  assert (Hr : forall l c, rulesets (set_trustedmaclist l c) = rulesets c)
    by (by intros l []).
  assert (Ht : forall l c, trustedmaclist (set_trustedmaclist l c) = l)
    by (by intros l []).
  rewrite Hr, Ht. split; [exact Hnd|]. split; [exact Hrs|].
  by apply trusted_tokens_ok.
Qed.

Lemma shape_config_read_case opcode p1 fd filename linenum :
  preserves parsed_ok (config_read_case opcode p1 fd filename linenum).
Proof.
  destruct opcode;
    try (cbn [config_read_case]; keeps_shape; fail);
    try (cbn [config_read_case]; apply shape_parse_server);
    try (cbn [config_read_case]; apply shape_parse_firewall_ruleset).
  - cbn [config_read_case]. apply preserves_bind; [apply shape_get_config|].
    intros c. apply preserves_bind; [|intros; apply preserves_ret].
    destruct (_ && _); keeps_shape.
  - cbn [config_read_case].
    apply preserves_bind; [apply shape_parse_trusted_mac_list|].
    intros; apply preserves_ret.
Qed.

Lemma shape_config_read fd filename :
  preserves parsed_ok (config_read fd filename).
Proof.
  unfold config_read. destruct fd as [fd|]; [|keeps_shape].
  apply preserves_bind.
  - generalize (S (String.length (content fd))) 0. intros fuel.
    revert fd. induction fuel as [|fuel IH]; intros fd linenum.
    + apply preserves_no_result.
    + cbn [config_read_loop]. destruct (feof fd); [apply preserves_ret|].
      destruct (fgets MAX_BUF fd) as [[line|] fd']; [|apply preserves_ret].
      apply preserves_bind; [|intros [fd'' linenum']; apply IH].
      unfold config_read_line.
      destruct line as [|c line]; [apply preserves_no_result|].
      destruct (top_tokens (String c line)) as [s [p1|]]; [|apply preserves_ret].
      destruct (negb (streq p1 EmptyString)); [|apply preserves_ret].
      destruct (negb (has_prefix "#" s)); [|apply preserves_ret].
      apply preserves_bind; [apply shape_config_parse_token|].
      intros opcode. apply shape_config_read_case.
  - intros _. apply preserves_bind; [apply shape_get_config|]. intros c.
    destruct (_ && _); keeps_shape.
Qed.

Lemma get_ruleset_In c ruleset rules :
  get_ruleset c ruleset = Some rules ->
  exists tmp, tmp ∈ rulesets c /\ rs_name tmp = ruleset /\ rs_rules tmp = rules.
Proof.
  unfold get_ruleset.
  destruct (List.find _ (rulesets c)) as [tmp|] eqn:E; [|discriminate].
  intros Hr; inversion Hr; subst. apply find_some in E as [Hin Heq].
  exists tmp. split; [by apply list_elem_of_In|].
  split; [by apply streq_true|done].
Qed.

(** X3.  Reading a file keeps the configuration in shape, however the
    run ends: if before the call ruleset names are distinct, every
    ruleset has a rule, every rule has a mask of digits, dots and
    slashes, an all-digit port if any and a protocol beginning with tcp,
    udp or icmp if any, and every trusted entry is one to seventeen
    hexadecimal digits and colons, then the same holds afterwards.  So
    [get_ruleset] never finds an empty ruleset. *)
Theorem config_read_keeps_shape fd filename w w' :
  parsed_ok w ->
  final (config_read fd filename w) = Some w' ->
  parsed_ok w'
  /\ (forall ruleset rules,
        get_ruleset (config w') ruleset = Some rules ->
        rules <> [] /\ forallb rule_ok rules = true).
Proof.
  intros Hw Hfin.
  assert (Hw' : parsed_ok w').
  { pose proof (shape_config_read fd filename w Hw) as Hp.
    destruct (config_read fd filename w) as [a w0|n w0|]; simpl in Hfin;
      inversion Hfin; subst; exact Hp. }
  split; [exact Hw'|]. intros ruleset rules Hget.
  apply get_ruleset_In in Hget as (tmp & Hin & _ & <-).
  destruct Hw' as (_ & Hrs & _).
  rewrite forallb_forall in Hrs. specialize (Hrs tmp).
  unfold ruleset_ok in Hrs. apply list_elem_of_In in Hin. specialize (Hrs Hin).
  destruct (rs_rules tmp); [discriminate Hrs|]. by split.
Qed.

End Shape.

Section ServerBlocks.
Context `{Platform}.

(** ** Server blocks that set a host name *)

(** A local variable of [parse_server], read by [proj], that the switch
    assigns on the opcode [o] only, keeps its value along a block with no
    line of that opcode. *)
Section Field.
Context {T : Type} (proj : serv_vars -> T) (o : OpCodes).
Hypothesis case_frame :
  forall opcode p2 filename linenum v w v' w',
    parse_server_case opcode p2 filename linenum v w = Returns v' w' ->
    opcode <> o -> proj v' = proj v.

Lemma parse_server_loop_field filename fuel :
  forall file linenum v w file' linenum' v' w',
  parse_server_loop fuel file filename linenum v w
  = Returns (file', linenum', v') w' ->
  Forall (fun line => line_opcode line <> Some o) (block_lines fuel file) ->
  proj v' = proj v.
Proof using case_frame.
  induction fuel as [|fuel IH];
    intros file linenum v w file' linenum' v' w' Hr Hall; [discriminate Hr|].
  cbn [parse_server_loop block_lines] in *.
  destruct (block_fgets file) as [[line|] file1] eqn:Hf.
  2:{ by inversion Hr. }
  apply Forall_cons in Hall as [Hline Hall].
  unfold line_opcode in Hline.
  destruct (block_tokens line) as [[p1 p2]|] eqn:Ht.
  - unfold bind at 1 in Hr.
    destruct (config_parse_token p1 filename (linenum + 1) w)
      as [opcode w1|n w1|] eqn:Hc; try discriminate Hr.
    apply config_parse_token_returns in Hc as [Hop _].
    unfold bind at 1 in Hr.
    destruct (parse_server_case opcode p2 filename (linenum + 1) v w1)
      as [v1 w2|n w2|] eqn:Hs; try discriminate Hr.
    rewrite (IH _ _ _ _ _ _ _ _ Hr Hall).
    eapply case_frame; [exact Hs|]. intros Heq. apply Hline.
    by rewrite <- Hop, Heq.
  - by apply (IH _ _ _ _ _ _ _ _ Hr Hall).
Qed.

End Field.

(** The host name follows the last [Hostname] line. *)
Lemma parse_server_case_host opcode p2 filename linenum v w v' w' :
  parse_server_case opcode p2 filename linenum v w = Returns v' w' ->
  v_host v' = if decide (opcode = oServHostname) then Some p2 else v_host v.
Proof.
  destruct v. destruct opcode; cbn [parse_server_case];
    intros Hr; inversion Hr; subst; reflexivity.
Qed.

Lemma parse_server_loop_host filename fuel :
  forall file linenum v w file' linenum' v' w',
  parse_server_loop fuel file filename linenum v w
  = Returns (file', linenum', v') w' ->
  v_host v' = match block_hostname (block_lines fuel file) with
              | Some h => Some h
              | None => v_host v
              end.
Proof.
  unfold block_hostname.
  induction fuel as [|fuel IH];
    intros file linenum v w file' linenum' v' w' Hr; [discriminate Hr|].
  cbn [parse_server_loop block_lines] in *.
  destruct (block_fgets file) as [[line|] file1] eqn:Hf.
  2:{ by inversion Hr. }
  cbn [omap list_omap]. unfold line_hostname at 1.
  destruct (block_tokens line) as [[p1 p2]|] eqn:Ht.
  - unfold bind at 1 in Hr.
    destruct (config_parse_token p1 filename (linenum + 1) w)
      as [opcode w1|n w1|] eqn:Hc; try discriminate Hr.
    apply config_parse_token_returns in Hc as [Hop _].
    unfold bind at 1 in Hr.
    destruct (parse_server_case opcode p2 filename (linenum + 1) v w1)
      as [v1 w2|n w2|] eqn:Hs; try discriminate Hr.
    apply parse_server_case_host in Hs.
    rewrite (IH _ _ _ _ _ _ _ _ Hr), Hs, Hop.
    destruct (keyword_search keywords p1) as [op|]; cbn [default].
    + destruct op; try (rewrite decide_False by discriminate; reflexivity).
      rewrite decide_True by reflexivity. rewrite last_cons.
      by destruct (last _).
    + rewrite decide_False by discriminate. reflexivity.
  - by apply (IH _ _ _ _ _ _ _ _ Hr).
Qed.

Lemma servers_of_set_servers_of type l c :
  type = 1 \/ type = 2 \/ type = 3 ->
  servers_of type (set_servers_of type l c) = l.
Proof. intros [->|[->| ->]]; by destruct c. Qed.

(** What a server block that returns has done, in terms of the local
    variables its loop ends with. *)
Lemma parse_server_returns fd filename linenum type w r w' :
  type = 1 \/ type = 2 \/ type = 3 ->
  parse_server fd filename linenum type w = Returns r w' ->
  exists fd' linenum' v',
    parse_server_loop (S (String.length (content fd))) fd filename linenum
                      serv_defaults w
    = Returns (fd', linenum', v') w
    /\ w' = match v_host v' with
            | None => w
            | Some host =>
                mk_process
                  (set_servers_of type
                     (servers_of type (config w) ++ [new_server type host v'])
                     (config w))
                  (missing_parms w) (errlog w)
            end.
Proof.
  intros Htype. unfold parse_server. unfold bind at 1.
  destruct (parse_server_loop (S (String.length (content fd))) fd filename
              linenum serv_defaults w) as [[[fd' n'] v'] w1|n w1|] eqn:Hloop;
    try discriminate.
  pose proof Hloop as Hsame.
  apply parse_server_loop_returns in Hsame as [-> _].
  intros Hr. exists fd', n', v'. split; [reflexivity|].
  destruct (v_host v') as [host|]; [|by inversion Hr].
  destruct Htype as [->|[->| ->]]; inversion Hr; reflexivity.
Qed.

Lemma new_server_fields type host v :
  serv_hostname (new_server type host v) = Some host
  /\ serv_use_ssl (new_server type host v) = v_ssl_available v
  /\ serv_http_port (new_server type host v) = v_http_port v
  /\ serv_ssl_port (new_server type host v) = v_ssl_port v
  /\ serv_path (new_server type host v) = v_path v
  /\ serv_login_script_path_fragment (new_server type host v)
     = v_loginscriptpathfragment v
  /\ serv_portal_script_path_fragment (new_server type host v)
     = v_portalscriptpathfragment v
  /\ serv_msg_script_path_fragment (new_server type host v)
     = v_msgscriptpathfragment v
  /\ serv_ping_script_path_fragment (new_server type host v)
     = v_pingscriptpathfragment v
  /\ serv_auth_script_path_fragment (new_server type host v)
     = v_authscriptpathfragment v
  /\ serv_update_script_path_fragment (new_server type host v) = None
  /\ last_ip (new_server type host v)
     = match type with 2 | 3 => wd_gethostbyname host | _ => None end.
Proof.
  unfold new_server, resolve_last_ip.
  change (default EmptyString (Some host)) with host.
  destruct type as [|[[|p|]|[|p|]|]|]; try destruct p;
    try destruct (wd_gethostbyname host); repeat split; reflexivity.
Qed.

(** X4.  A server block of kind auth (1), portal (2) or platform (3)
    that returns has appended at most one server, and to the list of its
    kind only.  With no [Hostname] line it leaves the process as it was;
    otherwise the process differs by one server at the tail of that list,
    whose host name is the value of the last [Hostname] line, whose
    cached address is what the resolver gives for that name for portal
    and platform blocks and none for auth blocks; nothing is logged. *)
Theorem server_block_appends_one fd filename linenum type w r w' :
  type = 1 \/ type = 2 \/ type = 3 ->
  parse_server fd filename linenum type w = Returns r w' ->
  match block_hostname (block_interior fd) with
  | None => w' = w
  | Some host =>
      exists new,
        w' = mk_process
               (set_servers_of type (servers_of type (config w) ++ [new])
                               (config w))
               (missing_parms w) (errlog w)
        /\ serv_hostname new = Some host
        /\ last_ip new = (if type =? 1 then None else wd_gethostbyname host)
  end.
Proof.
  intros Htype Hr.
  destruct (parse_server_returns _ _ _ _ _ _ _ Htype Hr)
    as (fd' & n' & v' & Hloop & ->).
  apply parse_server_loop_host in Hloop. cbn [v_host serv_defaults] in Hloop.
  unfold block_interior.
  destruct (block_hostname _) as [host|]; rewrite Hloop; [|reflexivity].
  exists (new_server type host v'). split; [reflexivity|].
  destruct (new_server_fields type host v') as (-> & _ & _ & _ & _ & _ & _ & _ & _ & _ & _ & ->).
  split; [reflexivity|]. by destruct Htype as [->|[->| ->]].
Qed.

(** Proves that the switch of a server block assigns a local variable on
    its own opcode only. *)
Ltac field_case :=
  intros opcode p2 fn ln [] ? ? ? Hc Hne;
  destruct opcode; cbn [parse_server_case] in Hc;
  inversion Hc; subst; first [reflexivity|congruence].

(** X5.  In the server a block appends, every setting the block has no
    line for has its default: the ports, the SSL flag, the path and the
    five script path fragments each keep the value of their [DEFAULT_*]
    constant unless a line with their keyword occurs in the block, and
    the update fragment is never set. *)
Theorem server_block_defaults fd filename linenum type w r w' host :
  type = 1 \/ type = 2 \/ type = 3 ->
  parse_server fd filename linenum type w = Returns r w' ->
  block_hostname (block_interior fd) = Some host ->
  exists new,
    last (servers_of type (config w')) = Some new
    /\ serv_update_script_path_fragment new = None
    /\ (Forall (fun line => line_opcode line <> Some oServHTTPPort)
               (block_interior fd) ->
        serv_http_port new = DEFAULT_AUTHSERVPORT)
    /\ (Forall (fun line => line_opcode line <> Some oServSSLPort)
               (block_interior fd) ->
        serv_ssl_port new = DEFAULT_AUTHSERVSSLPORT)
    /\ (Forall (fun line => line_opcode line <> Some oServSSLAvailable)
               (block_interior fd) ->
        serv_use_ssl new = DEFAULT_AUTHSERVSSLAVAILABLE)
    /\ (Forall (fun line => line_opcode line <> Some oServPath)
               (block_interior fd) ->
        serv_path new = Some DEFAULT_AUTHSERVPATH)
    /\ (Forall (fun line => line_opcode line <> Some oServLoginScriptPathFragment)
               (block_interior fd) ->
        serv_login_script_path_fragment new
        = Some DEFAULT_AUTHSERVLOGINPATHFRAGMENT)
    /\ (Forall (fun line => line_opcode line <> Some oServPortalScriptPathFragment)
               (block_interior fd) ->
        serv_portal_script_path_fragment new
        = Some DEFAULT_AUTHSERVPORTALPATHFRAGMENT)
    /\ (Forall (fun line => line_opcode line <> Some oServMsgScriptPathFragment)
               (block_interior fd) ->
        serv_msg_script_path_fragment new
        = Some DEFAULT_AUTHSERVMSGPATHFRAGMENT)
    /\ (Forall (fun line => line_opcode line <> Some oServPingScriptPathFragment)
               (block_interior fd) ->
        serv_ping_script_path_fragment new
        = Some DEFAULT_AUTHSERVPINGPATHFRAGMENT)
    /\ (Forall (fun line => line_opcode line <> Some oServAuthScriptPathFragment)
               (block_interior fd) ->
        serv_auth_script_path_fragment new
        = Some DEFAULT_AUTHSERVAUTHPATHFRAGMENT).
Proof.
  intros Htype Hr Hhost.
  destruct (parse_server_returns _ _ _ _ _ _ _ Htype Hr)
    as (fd' & n' & v' & Hloop & ->).
  pose proof (parse_server_loop_host _ _ _ _ _ _ _ _ _ _ Hloop) as Hh.
  cbn [v_host serv_defaults] in Hh. unfold block_interior in Hhost.
  rewrite Hhost in Hh. rewrite Hh. cbn [config].
  rewrite (servers_of_set_servers_of _ _ _ Htype), last_snoc.
  exists (new_server type host v'). split; [reflexivity|].
  destruct (new_server_fields type host v')
    as (_ & -> & -> & -> & -> & -> & -> & -> & -> & -> & -> & _).
  split; [reflexivity|].
  unfold block_interior.
  split.
  { intros Hall.
    rewrite (parse_server_loop_field v_http_port oServHTTPPort ltac:(field_case)
               _ _ _ _ _ _ _ _ _ _ Hloop Hall). reflexivity. }
  split.
  { intros Hall.
    rewrite (parse_server_loop_field v_ssl_port oServSSLPort ltac:(field_case)
               _ _ _ _ _ _ _ _ _ _ Hloop Hall). reflexivity. }
  split.
  { intros Hall.
    rewrite (parse_server_loop_field v_ssl_available oServSSLAvailable ltac:(field_case)
               _ _ _ _ _ _ _ _ _ _ Hloop Hall). reflexivity. }
  split.
  { intros Hall.
    rewrite (parse_server_loop_field v_path oServPath ltac:(field_case)
               _ _ _ _ _ _ _ _ _ _ Hloop Hall). reflexivity. }
  split.
  { intros Hall.
    rewrite (parse_server_loop_field v_loginscriptpathfragment oServLoginScriptPathFragment ltac:(field_case)
               _ _ _ _ _ _ _ _ _ _ Hloop Hall). reflexivity. }
  split.
  { intros Hall.
    rewrite (parse_server_loop_field v_portalscriptpathfragment oServPortalScriptPathFragment ltac:(field_case)
               _ _ _ _ _ _ _ _ _ _ Hloop Hall). reflexivity. }
  split.
  { intros Hall.
    rewrite (parse_server_loop_field v_msgscriptpathfragment oServMsgScriptPathFragment ltac:(field_case)
               _ _ _ _ _ _ _ _ _ _ Hloop Hall). reflexivity. }
  split.
  { intros Hall.
    rewrite (parse_server_loop_field v_pingscriptpathfragment oServPingScriptPathFragment ltac:(field_case)
               _ _ _ _ _ _ _ _ _ _ Hloop Hall). reflexivity. }
  intros Hall.
  rewrite (parse_server_loop_field v_authscriptpathfragment oServAuthScriptPathFragment ltac:(field_case)
             _ _ _ _ _ _ _ _ _ _ Hloop Hall). reflexivity.
Qed.

End ServerBlocks.

(** ** Keywords, letter case and return codes *)

Lemma tolower_idem c : tolower (tolower c) = tolower c.
Proof. destruct c as [[] [] [] [] [] [] [] []]; reflexivity. Qed.

Lemma strlower_idem s : strlower (strlower s) = strlower s.
Proof. induction s as [|c s IH]; simpl; [done|]. by rewrite tolower_idem, IH. Qed.

Lemma strcaseeq_lower a b name :
  strlower a = strlower b -> strcaseeq a name = strcaseeq b name.
Proof. intros Hab. unfold strcaseeq. by rewrite Hab. Qed.

Lemma keyword_search_lower table a b :
  strlower a = strlower b -> keyword_search table a = keyword_search table b.
Proof.
  intros Hab. induction table as [|[name opcode] table IH]; [done|].
  cbn [keyword_search]. by rewrite (strcaseeq_lower a b name Hab), IH.
Qed.

Lemma keyword_search_found table cp opcode :
  keyword_search table cp = Some opcode ->
  exists name, (name, opcode) ∈ table /\ strcaseeq cp name = true.
Proof.
  induction table as [|[name op] table IH]; [discriminate|].
  cbn [keyword_search]. destruct (strcaseeq cp name) eqn:E.
  - intros Hs; inversion Hs; subst. exists name. split; [left|done].
  - intros Hs. destruct (IH Hs) as (name' & Hin & Heq).
    exists name'. split; [by right|done].
Qed.

(** X6.  The keyword table is sound and has no dead entry.  Two
    spellings that differ in letter case only are looked up alike; every
    keyword of the table, in any letter case, yields the opcode listed
    with it, so that no entry is hidden by an earlier one; and a word
    that is found is, in lower case, a keyword of the table and never
    yields the opcode of a bad option. *)
Theorem keyword_table_lookup :
  (forall a b, strlower a = strlower b ->
     keyword_search keywords a = keyword_search keywords b)
  /\ (forall name opcode cp,
        (name, opcode) ∈ keywords -> strlower cp = name ->
        keyword_search keywords cp = Some opcode)
  /\ (forall cp opcode,
        keyword_search keywords cp = Some opcode ->
        opcode <> oBadOption /\ (strlower cp, opcode) ∈ keywords).
Proof.
  assert (Hself : Forall (fun kw => keyword_search keywords (fst kw) = Some (snd kw)
                                    /\ strlower (fst kw) = fst kw
                                    /\ snd kw <> oBadOption) keywords).
  { unfold keywords. repeat constructor; try discriminate; vm_compute; reflexivity. }
  rewrite Forall_forall in Hself.
  split; [intros a b; apply keyword_search_lower|]. split.
  - intros name opcode cp Hin Hcp.
    destruct (Hself _ Hin) as (Hfound & Hlow & _). cbn [fst snd] in *.
    rewrite <- Hfound. apply keyword_search_lower. by rewrite Hcp, Hlow.
  - intros cp opcode Hs.
    destruct (keyword_search_found _ _ _ Hs) as (name & Hin & Heq).
    destruct (Hself _ Hin) as (_ & Hlow & Hne). cbn [fst snd] in *.
    split; [exact Hne|]. unfold strcaseeq in Heq.
    apply String.eqb_eq in Heq. by rewrite Heq, Hlow.
Qed.

Lemma streq_digit_lower s lit :
  lit = "1" \/ lit = "0" -> streq (strlower s) lit = streq s lit.
Proof.
  unfold streq. intros Hlit. destruct s as [|c [|d s]].
  - reflexivity.
  - destruct Hlit as [->| ->];
      destruct c as [[] [] [] [] [] [] [] []]; reflexivity.
  - destruct Hlit as [->| ->]; cbn [strlower String.eqb];
      destruct (Ascii.eqb (tolower c) _), (Ascii.eqb c _); reflexivity.
Qed.

Lemma parse_boolean_value_lower s :
  parse_boolean_value (strlower s) = parse_boolean_value s.
Proof.
  unfold parse_boolean_value, strcaseeq.
  rewrite strlower_idem.
  rewrite (streq_digit_lower s "1") by auto.
  rewrite (streq_digit_lower s "0") by auto. reflexivity.
Qed.

(** X7.  Letter case does not matter to the rule mini-parser nor to the
    boolean parser: two texts that differ in letter case only give the
    same rule or the same failure, and the same boolean. *)
Theorem parsers_ignore_case a b :
  strlower a = strlower b ->
  parse_rule a = parse_rule b
  /\ parse_boolean_value a = parse_boolean_value b.
Proof.
  intros Hab. split.
  - unfold parse_rule. by rewrite Hab.
  - by rewrite <- (parse_boolean_value_lower a), <- (parse_boolean_value_lower b),
         Hab.
Qed.

Lemma rule_mask_code target protocol port leftover finished code msg :
  rule_mask target protocol port leftover finished = inl (code, msg) ->
  code = -3 \/ code = -4.
Proof.
  unfold rule_mask. destruct (negb finished); [|discriminate].
  destruct (TO_NEXT_WORD leftover finished) as [[other_kw l1] f1].
  destruct (negb (streq other_kw "to") || f1);
    [intros Hr; inversion Hr; auto|].
  destruct (TO_NEXT_WORD l1 f1) as [[mask l2] f2].
  destruct (negb (all_mask_chars mask)); intros Hr; inversion Hr; auto.
Qed.

Lemma parse_rule_code leftover code msg :
  parse_rule leftover = inl (code, msg) -> code = -1 \/ code = -3 \/ code = -4.
Proof.
  unfold parse_rule, rule_port.
  destruct (TO_NEXT_WORD (strlower leftover) false) as [[token l1] f1].
  destruct (rule_target token f1) as [target|];
    [|intros Hr; inversion Hr; auto].
  destruct (has_prefix "tcp" l1 || has_prefix "udp" l1 || has_prefix "icmp" l1).
  - destruct (TO_NEXT_WORD l1 f1) as [[protocol l2] f2].
    destruct (has_prefix "port" l2).
    + destruct (TO_NEXT_WORD l2 f2) as [[w0 l3] f3].
      destruct (TO_NEXT_WORD l3 f3) as [[port l4] f4].
      destruct (negb (all_digits port)); [intros Hr; inversion Hr; auto|].
      intros Hr. apply rule_mask_code in Hr. tauto.
    + intros Hr. apply rule_mask_code in Hr. tauto.
  - destruct (has_prefix "port" l1).
    + destruct (TO_NEXT_WORD l1 f1) as [[w0 l3] f3].
      destruct (TO_NEXT_WORD l3 f3) as [[port l4] f4].
      destruct (negb (all_digits port)); [intros Hr; inversion Hr; auto|].
      intros Hr. apply rule_mask_code in Hr. tauto.
    + intros Hr. apply rule_mask_code in Hr. tauto.
Qed.

Lemma find_append_rule_same ruleset tmp l :
  List.find (fun r => streq (rs_name r) ruleset) (append_rule ruleset tmp l)
  = Some (mk_ruleset ruleset (rules_in l ruleset ++ [tmp])).
Proof.
  unfold rules_in. induction l as [|tmpr l IH].
  - simpl. unfold streq. by rewrite String.eqb_refl.
  - cbn [append_rule]. destruct (streq (rs_name tmpr) ruleset) eqn:E.
    + cbn [List.find rs_name]. rewrite E. cbn [fmap option_fmap option_map default rs_rules].
      apply streq_true in E. by rewrite E.
    + cbn [List.find]. by rewrite E.
Qed.

Lemma find_append_rule_other ruleset other tmp l :
  other <> ruleset ->
  rs_rules <$> List.find (fun r => streq (rs_name r) other) (append_rule ruleset tmp l)
  = rs_rules <$> List.find (fun r => streq (rs_name r) other) l.
Proof.
  intros Hne. induction l as [|tmpr l IH].
  - simpl. apply streq_false in Hne. unfold streq in *.
    rewrite String.eqb_sym. by rewrite Hne.
  - cbn [append_rule]. destruct (streq (rs_name tmpr) ruleset) eqn:E.
    + cbn [List.find rs_name]. apply streq_true in E.
      assert (Hf : streq (rs_name tmpr) other = false)
        by (apply streq_false; congruence).
      by rewrite Hf.
    + cbn [List.find]. destruct (streq (rs_name tmpr) other); [done|exact IH].
Qed.

Lemma get_ruleset_fmap c ruleset :
  get_ruleset c ruleset
  = rs_rules <$> List.find (fun r => streq (rs_name r) ruleset) (rulesets c).
Proof. unfold get_ruleset. by destruct (List.find _ _). Qed.

(** X8.  [_parse_firewall_rule] always returns, with 1 or with -1, -3
    or -4, never with another value.  With 1 the rule parsed is the last
    rule [get_ruleset] finds under the given name, after the rules that
    were there, the rules found under any other name are as before and
    nothing is logged.  With a negative value the configuration is as it
    was and one message was logged. *)
Theorem parse_firewall_rule_outcome ruleset leftover w :
  exists code w',
    _parse_firewall_rule ruleset leftover w = Returns code w'
    /\ ((code = 1
         /\ errlog w' = errlog w
         /\ (exists tmp,
               parse_rule leftover = inr tmp
               /\ get_ruleset (config w') ruleset
                  = Some (ruleset_rules (config w) ruleset ++ [tmp])%list)
         /\ (forall other, other <> ruleset ->
               get_ruleset (config w') other = get_ruleset (config w) other))
        \/ ((code = -1 \/ code = -3 \/ code = -4)
            /\ config w' = config w
            /\ exists msg, errlog w' = (errlog w ++ [msg])%list)).
Proof.
  destruct (parse_rule leftover) as [[code msg]|tmp] eqn:Hp.
  - eexists _, _. split; [apply (parse_firewall_rule_fail _ _ _ _ _ Hp)|].
    right. split; [by eapply parse_rule_code|]. split; [reflexivity|].
    by exists msg.
  - eexists _, _. split; [apply (parse_firewall_rule_ok _ _ _ _ Hp)|].
    left. split; [reflexivity|]. split; [reflexivity|]. cbn [config]. split.
    + exists tmp. split; [reflexivity|].
      rewrite get_ruleset_fmap, rulesets_set_rulesets, find_append_rule_same.
      by rewrite ruleset_rules_rules_in.
    + intros other Hne.
      rewrite !get_ruleset_fmap, rulesets_set_rulesets.
      by apply find_append_rule_other.
Qed.

(** ** The trusted list grows at its tail *)

Lemma existsb_streq mac l :
  existsb (fun q => streq q mac) l = true <-> mac ∈ l.
Proof.
  rewrite existsb_exists. split.
  - intros (q & Hin & Heq). apply streq_true in Heq. subst.
    by apply list_elem_of_In.
  - intros Hin. exists mac. split; [by apply list_elem_of_In|].
    by apply streq_true.
Qed.

(** One insertion: the list is left alone when the value equals the
    first entry or an entry other than the last, and gets the value at
    its tail otherwise. *)
Lemma trusted_add_cases mac l :
  (head l = Some mac \/ mac ∈ removelast l) /\ trusted_add mac l = l
  \/ (head l <> Some mac /\ mac ∉ removelast l)
     /\ trusted_add mac l = (l ++ [mac])%list.
Proof.
  destruct l as [|p next].
  - right. split; [split; [discriminate|apply not_elem_of_nil]|reflexivity].
  - unfold trusted_add. rewrite trusted_walk_spec.
    destruct (streq p mac) eqn:Hp; cbn [orb negb].
    + left. split; [|reflexivity]. left. apply streq_true in Hp. by subst.
    + apply streq_false in Hp.
      match goal with
      | |- context [existsb ?f ?l] => destruct (existsb f l) eqn:He
      end; cbn [negb].
      * left. split; [|reflexivity]. right. apply existsb_streq. exact He.
      * right. split; [|reflexivity]. split.
        -- intros Hh. apply Hp. by inversion Hh.
        -- intros Hin. apply existsb_streq in Hin.
           pose proof (eq_trans (eq_sym Hin) He) as Habs. discriminate Habs.
Qed.

Lemma removelast_snoc {A} (l : list A) x : removelast (l ++ [x]) = l.
Proof. apply removelast_last. Qed.

Lemma elem_of_removelast {A} (l : list A) x : x ∈ removelast l -> x ∈ l.
Proof.
  induction l as [|a [|b l] IH]; simpl; intros Hin.
  - done.
  - by apply elem_of_nil in Hin.
  - apply elem_of_cons in Hin as [->|Hin]; [left|right; by apply IH].
Qed.

Lemma trusted_tokens_grow toks : forall l,
  exists added,
    fold_left trusted_token toks l = (l ++ added)%list
    /\ (forall tok mac, tok ∈ toks -> sscanf_mac tok = Some mac ->
          mac ∈ (l ++ added)%list)
    /\ (forall mac, mac ∈ added ->
          (exists tok, tok ∈ toks /\ sscanf_mac tok = Some mac)
          /\ head l <> Some mac /\ mac ∉ removelast l).
Proof.
  induction toks as [|tok toks IH]; intros l.
  - exists []. rewrite app_nil_r. split; [reflexivity|]. split.
    + intros tok mac Hin. by apply elem_of_nil in Hin.
    + intros mac Hin. by apply elem_of_nil in Hin.
  - cbn [fold_left]. unfold trusted_token at 2.
    destruct (sscanf_mac tok) as [mac|] eqn:Hs.
    + destruct (trusted_add_cases mac l) as [[Hold ->]|[[Hh Hr] ->]].
      * destruct (IH l) as (added & Heq & Hall & Hnew).
        exists added. split; [exact Heq|]. split.
        -- intros tok' mac' Hin Hs'.
           apply elem_of_cons in Hin as [->|Hin]; [|by eapply Hall].
           rewrite Hs in Hs'. inversion Hs'; subst mac'.
           apply elem_of_app. left.
           destruct Hold as [Hhd|Hrl]; [|by apply elem_of_removelast].
           destruct l; inversion Hhd; subst. left.
        -- intros mac' Hin. destruct (Hnew mac' Hin) as ((tok' & Hin' & Hs') & Hrest).
           split; [|exact Hrest]. exists tok'. split; [by right|done].
      * destruct (IH (l ++ [mac])%list) as (added & Heq & Hall & Hnew).
        exists (mac :: added).
        split; [rewrite <- app_assoc in Heq; exact Heq|].
        split.
        -- intros tok' mac' Hin Hs'.
           apply elem_of_cons in Hin as [->|Hin].
           ++ rewrite Hs in Hs'. inversion Hs'; subst mac'.
              apply elem_of_app. right. left.
           ++ specialize (Hall tok' mac' Hin Hs').
              by rewrite <- app_assoc in Hall.
        -- intros mac' Hin. apply elem_of_cons in Hin as [->|Hin].
           ++ split; [|by split]. exists tok. split; [left|done].
           ++ destruct (Hnew mac' Hin) as ((tok' & Hin' & Hs') & Hh' & Hr').
              split; [exists tok'; split; [by right|done]|].
              rewrite removelast_snoc in Hr'. split.
              ** intros Hhd. apply Hh'. destruct l; [discriminate Hhd|exact Hhd].
              ** intros Hrl. apply Hr'. by apply elem_of_removelast.
    + destruct (IH l) as (added & Heq & Hall & Hnew).
      exists added. split; [exact Heq|]. split.
      * intros tok' mac' Hin Hs'.
        apply elem_of_cons in Hin as [->|Hin]; [congruence|by eapply Hall].
      * intros mac' Hin. destruct (Hnew mac' Hin) as ((tok' & Hin' & Hs') & Hrest).
        split; [|exact Hrest]. exists tok'. split; [by right|done].
Qed.

(** X9.  [parse_trusted_mac_list] only adds at the tail of the trusted
    list: the entries that were there keep their places, nothing else in
    the process changes, and it always returns.  Every address scanned
    from a token of the directive is on the list afterwards; every entry
    added was scanned from one of the tokens, and was equal neither to
    the first entry of the former list nor to any entry of it but the
    last. *)
Theorem trusted_list_grows ptr w :
  exists added,
    parse_trusted_mac_list ptr w
    = Returns tt
        (mk_process
           (set_trustedmaclist (trustedmaclist (config w) ++ added) (config w))
           (missing_parms w) (errlog w))
    /\ (forall tok mac,
          tok ∈ strsep_tokens ptr -> sscanf_mac tok = Some mac ->
          mac ∈ (trustedmaclist (config w) ++ added)%list)
    /\ (forall mac, mac ∈ added ->
          (exists tok, tok ∈ strsep_tokens ptr /\ sscanf_mac tok = Some mac)
          /\ head (trustedmaclist (config w)) <> Some mac
          /\ mac ∉ removelast (trustedmaclist (config w))).
Proof.
  destruct (trusted_tokens_grow (strsep_tokens ptr) (trustedmaclist (config w)))
    as (added & Heq & Hall & Hnew).
  exists added. split; [|split; assumption].
  exact (f_equal
           (fun l => Returns tt
                       (mk_process (set_trustedmaclist l (config w))
                                   (missing_parms w) (errlog w)))
           Heq).
Qed.

(** ** Lines that are passed over, and what a value is *)

Section Lines.
Context `{Platform}.

Lemma cut_at_before c s u v :
  cut_at c s = Some (u, v) -> contains c u = false.
Proof.
  unfold contains. revert u v. induction s as [|a s IH]; intros u v; [discriminate|].
  cbn [cut_at]. destruct (Ascii.eqb a c) eqn:E.
  - intros Hc; inversion Hc; subst. reflexivity.
  - destruct (cut_at c s) as [[u0 v0]|] eqn:Hs; [|discriminate].
    intros Hc; inversion Hc; subst. specialize (IH _ _ eq_refl).
    cbn [cut_at]. rewrite E. by destruct (cut_at c u0) as [[] |].
Qed.

Lemma contains_prefix c s u :
  contains c s = false -> String.prefix u s = true -> contains c u = false.
Proof.
  unfold contains. revert u. induction s as [|a s IH]; intros u Hs Hp.
  - destruct u; [done|discriminate Hp].
  - destruct u as [|b u]; [done|]. simpl in Hp.
    destruct (ascii_dec b a) as [->|]; [|discriminate Hp].
    cbn [cut_at] in *. destruct (Ascii.eqb a c); [discriminate Hs|].
    specialize (IH u). destruct (cut_at c s) as [[] |]; [discriminate Hs|].
    specialize (IH eq_refl Hp). by destruct (cut_at c u) as [[] |].
Qed.

Lemma cut_at_prefix c s u v : cut_at c s = Some (u, v) -> String.prefix u s = true.
Proof.
  revert u v. induction s as [|a s IH]; intros u v; [discriminate|].
  cbn [cut_at]. destruct (Ascii.eqb a c).
  - intros Hc; inversion Hc; subst. reflexivity.
  - destruct (cut_at c s) as [[u0 v0]|] eqn:E; [|discriminate].
    intros Hc; inversion Hc; subst. simpl.
    destruct (ascii_dec a a); [|done]. by eapply IH.
Qed.

Lemma cut_at_str_prefix needle s u :
  cut_at_str needle s = Some u -> String.prefix u s = true.
Proof.
  revert u. induction s as [|a s IH]; intros u.
  - cbn [cut_at_str]. destruct (String.prefix needle EmptyString);
      intros Hc; inversion Hc; subst; reflexivity.
  - cbn [cut_at_str]. destruct (String.prefix needle (String a s)).
    + intros Hc; inversion Hc; subst; reflexivity.
    + destruct (cut_at_str needle s) as [u0|]; [|discriminate].
      intros Hc; inversion Hc; subst. simpl.
      destruct (ascii_dec a a); [|done]. by apply IH.
Qed.

Lemma contains_none c s : cut_at c s = None -> contains c s = false.
Proof. unfold contains. by intros ->. Qed.

(** X10.  A directive and its value are single words: the keyword
    [config_read] looks up and the value it stores never contain a
    space; what follows the first space after the value is dropped. *)
Theorem top_tokens_no_space line s p1 :
  top_tokens line = (s, Some p1) ->
  contains " " s = false /\ contains " " p1 = false.
Proof.
  unfold top_tokens.
  set (s0 := chop_newline line).
  destruct (cut_at " " s0) as [[s1 r1]|] eqn:Hsp.
  - intros Ht; inversion Ht; subst s1. split; [by eapply cut_at_before|].
    destruct (cut_at " " (trim_spaces r1)) as [[u v]|] eqn:Hc;
      [by eapply cut_at_before|].
    apply contains_none in Hc.
    destruct (cut_at_str _ (trim_spaces r1)) as [u|] eqn:Hcr;
      [eapply contains_prefix; [exact Hc|by eapply cut_at_str_prefix]|].
    destruct (cut_at LF (trim_spaces r1)) as [[u v]|] eqn:Hlf;
      [eapply contains_prefix; [exact Hc|by eapply cut_at_prefix]|].
    exact Hc.
  - apply contains_none in Hsp.
    destruct (cut_at HT s0) as [[s1 r1]|] eqn:Htab; [|discriminate].
    intros Ht; inversion Ht; subst s1. split.
    + eapply contains_prefix; [exact Hsp|by eapply cut_at_prefix].
    + destruct (cut_at " " (trim_spaces r1)) as [[u v]|] eqn:Hc;
        [by eapply cut_at_before|].
      apply contains_none in Hc.
      destruct (cut_at_str _ (trim_spaces r1)) as [u|] eqn:Hcr;
        [eapply contains_prefix; [exact Hc|by eapply cut_at_str_prefix]|].
      destruct (cut_at LF (trim_spaces r1)) as [[u v]|] eqn:Hlf;
        [eapply contains_prefix; [exact Hc|by eapply cut_at_prefix]|].
      exact Hc.
Qed.

Lemma chop_newline_hash rest :
  exists rest', chop_newline (String "#" rest) = String "#" rest'.
Proof.
  destruct rest as [|c rest]; [by exists EmptyString|].
  by exists (chop_newline (String c rest)).
Qed.

Lemma has_prefix_hash u : has_prefix "#" (String "#" u) = true.
Proof.
  unfold has_prefix. simpl. destruct (ascii_dec "#" "#"); [|done].
  by destruct u.
Qed.

Lemma top_tokens_hash rest :
  exists s p, top_tokens (String "#" rest) = (s, p) /\ has_prefix "#" s = true.
Proof.
  unfold top_tokens. destruct (chop_newline_hash rest) as [rest' ->].
  cbn [cut_at]. change (Ascii.eqb "#" " ") with false. cbv iota.
  destruct (cut_at " " rest') as [[u v]|].
  - eexists _, _. split; [reflexivity|apply has_prefix_hash].
  - change (Ascii.eqb "#" HT) with false. cbv iota.
    destruct (cut_at HT rest') as [[u v]|]; eexists _, _;
      (split; [reflexivity|apply has_prefix_hash]).
Qed.

(** X11.  Comment lines change nothing.  At the top level a line whose
    first character is ['#'] is passed over by [config_read].  Inside a
    block, a line whose first character after blanks is ['#'], and that
    the loop lets through, is passed over by both block parsers: only the
    line count moves. *)
Theorem comment_lines_ignored rest fd filename linenum w :
  config_read_line (String "#" rest) fd filename linenum w
  = Returns (fd, linenum) w
  /\ (forall fuel file file' line ruleset v,
        block_fgets file = (Some line, file') ->
        skip_blanks line = String "#" rest ->
        parse_firewall_ruleset_loop (S fuel) ruleset file filename linenum w
        = parse_firewall_ruleset_loop fuel ruleset file' filename (linenum + 1) w
        /\ parse_server_loop (S fuel) file filename linenum v w
           = parse_server_loop fuel file' filename (linenum + 1) v w).
Proof.
  split.
  - unfold config_read_line.
    destruct (top_tokens_hash rest) as (s & p & -> & Hs). rewrite Hs.
    destruct p as [p1|]; [|reflexivity].
    by destruct (negb (streq p1 EmptyString)).
  - intros fuel file file' line ruleset v Hf Hline.
    assert (Ht : block_tokens line = None).
    { unfold block_tokens. rewrite Hline. reflexivity. }
    split; [by eapply ruleset_loop_blank|].
    cbn [parse_server_loop]. by rewrite Hf, Ht.
Qed.

Lemma not_a_number_strtol s : not_a_number s = true -> strtol s = None.
Proof.
  unfold not_a_number, strtol.
  destruct (skip_spaces s) as [|c s']; [reflexivity|].
  destruct (isdigit c) eqn:Hd; [discriminate|].
  destruct (Ascii.eqb c "+") eqn:Hplus.
  { apply Ascii.eqb_eq in Hplus. subst c. cbn [orb].
    destruct s' as [|d s'']; [reflexivity|].
    intros Hn. apply negb_true_iff in Hn. cbn [digits]. by rewrite Hn. }
  destruct (Ascii.eqb c "-") eqn:Hminus.
  { apply Ascii.eqb_eq in Hminus. subst c. cbn [orb].
    destruct s' as [|d s'']; [reflexivity|].
    intros Hn. apply negb_true_iff in Hn. cbn [digits]. by rewrite Hn. }
  intros _.
  assert (Hdig : digits (String c s') 0 false = None)
    by (cbn [digits]; by rewrite Hd).
  destruct c as [[] [] [] [] [] [] [] []]; try exact Hdig;
    first [discriminate Hplus | discriminate Hminus].
Qed.

(** X12.  A numeric directive whose value is no number changes nothing:
    for the port, the connection limit, the three intervals, the syslog
    facility and the proxy port, when the value begins, after white
    space, with neither a digit nor a sign followed by a digit, the case
    of the dispatcher returns with the process as it was. *)
Theorem numeric_directive_not_a_number opcode field p1 fd filename linenum w :
  numeric_field opcode = Some field ->
  not_a_number p1 = true ->
  config_read_case opcode p1 fd filename linenum w = Returns (fd, linenum) w.
Proof.
  intros Hfield Hnan. apply not_a_number_strtol in Hnan.
  destruct w as [c mp log].
  destruct opcode; try discriminate Hfield;
    cbn [config_read_case]; unfold bind, update_config, ret, sscanf_d;
    rewrite Hnan; cbn [config missing_parms errlog]; by destruct c.
Qed.

(** ** Initialisation *)

(** X13.  After [config_init] the flag of the daemon is unset, no
    gateway interface is known, the lists of authentication, portal and
    platform servers, of rulesets and of trusted entries are empty, and
    there is one update server and at least one log server.  Running it
    again changes nothing more, and validating at once ends the process:
    both mandatory parameters are reported missing. *)
Theorem config_init_state w :
  exists w1,
    config_init w = Returns tt w1
    /\ config_init w1 = Returns tt w1
    /\ daemon (config w1) = -1
    /\ gw_interface (config w1) = None
    /\ auth_servers (config w1) = []
    /\ portal_servers (config w1) = []
    /\ plat_servers (config w1) = []
    /\ rulesets (config w1) = []
    /\ trustedmaclist (config w1) = []
    /\ length (update_servers (config w1)) = 1%nat
    /\ log_servers (config w1) <> []
    /\ (missing_parms w = 0 ->
        config_validate w1
        = Exits (-1)
            (mk_process (config w1) 1
               (errlog w ++ [Is_not_set "GatewayInterface"; Is_not_set "AuthServer";
                             Configuration_not_complete]))).
Proof.
  destruct w as [c mp log]. eexists. split; [reflexivity|].
  split.
  { cbn [config_init config_update_server_init bind update_config ret config
         missing_parms errlog].
    destruct c as [? ? ? ? ? ? ? ? ? ? ? ? ? ? ls ? ? ? ? ? ? ? ? ? ? ? ? ? ? ? ?].
    cbn. by destruct ls. }
  do 8 (split; [reflexivity|]).
  split.
  { cbn [config log_servers]. by destruct (log_servers c). }
  intros Hm. cbn [missing_parms] in Hm. subst mp.
  rewrite config_validate_spec by reflexivity. reflexivity.
Qed.

End Lines.

Section Accounting.
Context `{Platform}.

(** ** Validation and line counting *)

(** X14.  With its flag clear, [config_validate] returns exactly when a
    gateway interface is set and the list of authentication servers is
    not empty, and it then leaves the process as it was; in every other
    case it ends the process with status -1, the configuration being
    what it was. *)
Theorem config_validate_passes w :
  missing_parms w = 0 ->
  (gw_interface (config w) <> None /\ auth_servers (config w) <> []
   -> config_validate w = Returns tt w)
  /\ (gw_interface (config w) = None \/ auth_servers (config w) = []
      -> exists w', config_validate w = Exits (-1) w'
                    /\ config w' = config w
                    /\ missing_parms w' = 1).
Proof.
  intros Hm. rewrite (config_validate_spec w Hm). unfold missing_msgs.
  split.
  - intros [Hg Ha]. destruct (gw_interface (config w)); [|done].
    by destruct (auth_servers (config w)).
  - intros Hmiss.
    destruct (gw_interface (config w)) as [g|];
      destruct (auth_servers (config w)) as [|a l]; cbn [not_null app];
      try (eexists; split; [reflexivity|split; reflexivity]).
    destruct Hmiss; discriminate.
Qed.

Lemma parse_server_loop_linenum filename fuel :
  forall file linenum v w file' linenum' v' w',
  parse_server_loop fuel file filename linenum v w
  = Returns (file', linenum', v') w' ->
  linenum' = linenum + Z.of_nat (length (block_lines fuel file)).
Proof.
  induction fuel as [|fuel IH];
    intros file linenum v w file' linenum' v' w' Hr; [discriminate Hr|].
  cbn [parse_server_loop block_lines] in *.
  destruct (block_fgets file) as [[line|] file1].
  2:{ inversion Hr; subst. simpl. lia. }
  cbn [length]. destruct (block_tokens line) as [[p1 p2]|].
  - unfold bind at 1 in Hr.
    destruct (config_parse_token p1 filename (linenum + 1) w)
      as [opcode w1|n w1|]; try discriminate Hr.
    unfold bind at 1 in Hr.
    destruct (parse_server_case opcode p2 filename (linenum + 1) v w1)
      as [v1 w2|n w2|]; try discriminate Hr.
    apply IH in Hr. lia.
  - apply IH in Hr. lia.
Qed.

Lemma ruleset_loop_linenum ruleset filename fuel :
  forall file linenum w file' linenum' w',
  parse_firewall_ruleset_loop fuel ruleset file filename linenum w
  = Returns (file', linenum') w' ->
  linenum' = linenum + Z.of_nat (length (block_lines fuel file)).
Proof.
  induction fuel as [|fuel IH];
    intros file linenum w file' linenum' w' Hr; [discriminate Hr|].
  cbn [parse_firewall_ruleset_loop block_lines] in *.
  destruct (block_fgets file) as [[line|] file1].
  2:{ inversion Hr; subst. simpl. lia. }
  cbn [length]. destruct (block_tokens line) as [[p1 p2]|].
  - unfold bind at 1 in Hr.
    destruct (config_parse_token p1 filename (linenum + 1) w)
      as [opcode w1|n w1|]; try discriminate Hr.
    destruct opcode; try discriminate Hr.
    unfold bind at 1 in Hr.
    destruct (_parse_firewall_rule ruleset p2 w1) as [c w2|n w2|];
      try discriminate Hr.
    apply IH in Hr. lia.
  - apply IH in Hr. lia.
Qed.

(** X15.  A block parser counts the interior lines of its block and not
    the line that closes it: when [parse_server] or
    [parse_firewall_ruleset] returns, the line counter has moved by the
    number of interior lines, so that after a block closed by a brace
    line the counter is one behind the lines read. *)
Theorem block_line_count fd filename linenum type ruleset w fd' linenum' w' :
  (parse_server fd filename linenum type w = Returns (fd', linenum') w' ->
   linenum' = linenum + Z.of_nat (length (block_interior fd)))
  /\ (parse_firewall_ruleset ruleset fd filename linenum w
      = Returns (fd', linenum') w' ->
      linenum' = linenum + Z.of_nat (length (block_interior fd))).
Proof.
  split.
  - unfold parse_server. unfold bind at 1.
    destruct (parse_server_loop (S (String.length (content fd))) fd filename
                linenum serv_defaults w) as [[[f1 n1] v1] w1|n w1|] eqn:Hl;
      try discriminate.
    apply parse_server_loop_linenum in Hl. subst n1.
    destruct (v_host v1).
    + unfold bind.
      match goal with
      | |- context [match ?m w1 with _ => _ end] => destruct (m w1)
      end; intros Hr; inversion Hr; subst; reflexivity.
    + intros Hr; inversion Hr; subst; reflexivity.
  - intros Hr. by apply ruleset_loop_linenum in Hr.
Qed.

End Accounting.

(** ** The authentication-server list: what is left alone *)

Lemma walk_to_last_end fuel (h : gmap positive AuthList.node) a t :
  AuthList.walk_to_last fuel h a = Some t ->
  exists n, h !! t = Some n /\ AuthList.next n = None.
Proof.
  revert a. induction fuel as [|fuel IH]; intros a; [discriminate|].
  cbn [AuthList.walk_to_last].
  destruct (h !! a) as [n|] eqn:Ha; [|discriminate].
  destruct (AuthList.next n) as [q|] eqn:Hn; [apply IH|].
  intros Hw; inversion Hw; subst. by exists n.
Qed.

(** X16.  [mark_auth_server_bad] never leaves a server changed:
    whenever it has a defined result, every node has the fields and the
    [next] pointer it had, and [config.auth_servers] is either unchanged
    or moved to the server after the former head; the latter only when
    the argument is the head and another server follows it. *)
Theorem mark_auth_server_bad_frame bad_server (m m' : AuthList.memory) :
  AuthList.mark_auth_server_bad bad_server m = Some m' ->
  AuthList.heap m' = AuthList.heap m
  /\ (AuthList.auth_servers m' = AuthList.auth_servers m
      \/ exists b n,
           bad_server = Some b /\ AuthList.auth_servers m = Some b
           /\ AuthList.heap m !! b = Some n
           /\ AuthList.next n <> None
           /\ AuthList.auth_servers m' = AuthList.next n).
Proof.
  unfold AuthList.mark_auth_server_bad.
  destruct (decide (AuthList.auth_servers m = bad_server)) as [Hhead|];
    [|intros Hr; inversion Hr; subst; auto].
  destruct bad_server as [b|]; [|discriminate].
  destruct (AuthList.heap m !! b) as [n|] eqn:Hb; [|discriminate].
  destruct (AuthList.next n) as [b2|] eqn:Hn;
    [|intros Hr; inversion Hr; subst; auto].
  destruct (AuthList.walk_to_last _ _ b) as [t|] eqn:Hw; [|discriminate].
  apply walk_to_last_end in Hw as (nt & Ht & Hnt).
  assert (Htb : t <> b) by (intros ->; congruence).
  cbv zeta. rewrite AuthList.lookup_set_next_ne by done. rewrite Hb.
  intros Hr; inversion Hr; subst. cbn [AuthList.heap AuthList.auth_servers].
  split; [by eapply AuthList.set_next_twice_id|].
  right. exists b, n. repeat split; try done. congruence.
Qed.

(** X17.  On a well-formed list that is not empty the call is always
    defined and never empties the list: the servers read from the head
    afterwards are the same as before, or the same without the first
    one; the first one goes only when the argument is the head and the
    list has two servers or more. *)
Theorem mark_auth_server_bad_keeps_rest bad_server (m : AuthList.memory) a l :
  AuthList.is_list (AuthList.heap m) (AuthList.auth_servers m) (a :: l) ->
  exists m',
    AuthList.mark_auth_server_bad bad_server m = Some m'
    /\ ((bad_server = Some a /\ l <> []
         /\ AuthList.is_list (AuthList.heap m') (AuthList.auth_servers m') l)
        \/ ((bad_server <> Some a \/ l = []) /\ m' = m)).
Proof.
  intros Hl. inversion Hl as [|a' n l' Ha Hn Hhead Heq]; subst.
  destruct (decide (bad_server = Some a)) as [->|Hne].
  - destruct l as [|b l].
    + exists m. split; [|right; auto].
      unfold AuthList.mark_auth_server_bad.
      rewrite decide_True by done. rewrite Ha.
      inversion Hn as [Hnone|]; subst. reflexivity.
    + eexists. split.
      * apply (AuthList.mark_auth_server_bad_result m a b l); [done|].
        by rewrite Hhead.
      * left. split; [done|]. split; [done|].
        cbn [AuthList.heap AuthList.auth_servers].
        inversion Hn as [|b' nb l'' Hb Hnb Hnext]; subst.
        econstructor; eauto.
  - exists m. split; [|right; auto].
    unfold AuthList.mark_auth_server_bad.
    rewrite decide_False; [done|]. congruence.
Qed.

Section Override.
Context `{Platform}.

(** ** The default of the daemon flag *)

(** X18.  [config_init_override] after [config_read]: it runs only when
    the file was read to its end, changes nothing but the daemon flag,
    and that only when the flag is still -1, which it replaces by the
    default.  So a flag set before the file was read is still there
    afterwards, and unless the default is itself -1 the flag is set once
    both have run. *)
Theorem daemon_flag_after_override fd filename w r w1 :
  (config_read fd filename >> config_init_override) w = Returns r w1 ->
  exists w0,
    config_read fd filename w = Returns tt w0
    /\ missing_parms w1 = missing_parms w0
    /\ errlog w1 = errlog w0
    /\ (daemon (config w0) <> -1 -> w1 = w0)
    /\ (daemon (config w0) = -1 ->
        config w1 = set_daemon DEFAULT_DAEMON (config w0))
    /\ (daemon (config w) <> -1 -> daemon (config w1) = daemon (config w))
    /\ (DEFAULT_DAEMON <> -1 -> daemon (config w1) <> -1).
Proof.
  unfold bind. destruct (config_read fd filename w) as [[] w0|n w0|] eqn:Hread;
    try discriminate.
  unfold config_init_override, update_config. intros Hr.
  inversion Hr; subst; clear Hr. exists w0.
  split; [reflexivity|]. split; [reflexivity|]. split; [reflexivity|].
  cbn [config].
  assert (Hkeep : daemon (config w) <> -1 ->
                  daemon (config w0) = daemon (config w)).
  { intros Hd.
    pose proof (daemon_config_read (daemon (config w)) Hd fd filename w
                  eq_refl) as Hp.
    by rewrite Hread in Hp. }
  destruct (daemon (config w0) =? -1) eqn:E.
  - apply Z.eqb_eq in E. split; [intros Hne; contradiction|].
    split; [reflexivity|]. split.
    + intros Hd. exfalso. apply Hd. rewrite <- (Hkeep Hd). exact E.
    + intros Hdef. by destruct (config w0).
  - apply Z.eqb_neq in E. split; [intros _; by destruct w0|].
    split; [intros He; contradiction|]. split; [exact Hkeep|].
    intros _. exact E.
Qed.

End Override.

(** ** The properties above on sample inputs *)


(** A file with a ruleset block and a list of trusted entries leaves one
    ruleset and two entries, all in shape. *)
Lemma config_read_keeps_shape_witness :
  let fd := Some (file_of ["FirewallRuleSet global {";
                           "    FirewallRule allow tcp port 80";
                           "    FirewallRule block to 10.0.0.0/8";
                           "}";
                           "TrustedMACList 00:11:22:33:44:55,aa:bb:cc:dd:ee:ff"]) in
  parsed_ok sample_start
  /\ exists w',
       final (@config_read sample_platform fd "wifidog.conf" sample_start)
       = Some w'
       /\ length (rulesets (config w')) = 1%nat
       /\ length (trustedmaclist (config w')) = 2%nat
       /\ parsed_ok w'
       /\ (forall ruleset rules,
             get_ruleset (config w') ruleset = Some rules ->
             rules <> [] /\ forallb rule_ok rules = true).
Proof.
  intros fd.
  assert (Hok : parsed_ok sample_start).
  { split; [constructor|]. split; reflexivity. }
  split; [exact Hok|].
  destruct (final (@config_read sample_platform fd "wifidog.conf" sample_start))
    as [w'|] eqn:Hfin; [|vm_compute in Hfin; discriminate Hfin].
  exists w'. split; [reflexivity|].
  split; [vm_compute in Hfin; inversion Hfin; reflexivity|].
  split; [vm_compute in Hfin; inversion Hfin; reflexivity|].
  exact (@config_read_keeps_shape sample_platform fd "wifidog.conf"
           sample_start w' Hok Hfin).
Defined.

(** A portal-server block with a host name appends one server. *)
Lemma server_block_appends_one_witness :
  let fd := file_of ["    Hostname portal.example.org"; "    HTTPPort 8080";
                     "}"; "GatewayID office"] in
  (2 = 1 \/ 2 = 2 \/ 2 = 3)
  /\ block_hostname (@block_interior sample_platform fd)
     = Some "portal.example.org"
  /\ exists r w',
       @parse_server sample_platform fd "wifidog.conf" 1 2 sample_start
       = Returns r w'
       /\ match block_hostname (@block_interior sample_platform fd) with
          | None => w' = sample_start
          | Some host =>
              exists new,
                w' = mk_process
                       (set_servers_of 2
                          (servers_of 2 (config sample_start) ++ [new])
                          (config sample_start))
                       (missing_parms sample_start) (errlog sample_start)
                /\ serv_hostname new = Some host
                /\ last_ip new
                   = (if 2 =? 1 then None
                      else @wd_gethostbyname sample_platform host)
          end.
Proof.
  intros fd.
  assert (Ht : 2 = 1 \/ 2 = 2 \/ 2 = 3) by (right; left; reflexivity).
  split; [exact Ht|]. split; [vm_compute; reflexivity|].
  destruct (@parse_server sample_platform fd "wifidog.conf" 1 2 sample_start)
    as [r w'|n w'|] eqn:Hrun;
    [|vm_compute in Hrun; discriminate Hrun..].
  exists r, w'. split; [reflexivity|].
  exact (@server_block_appends_one sample_platform fd "wifidog.conf" 1 2
           sample_start r w' Ht Hrun).
Defined.

(** An authentication-server block that sets a port and a path: the SSL
    port of its server is the default. *)
Lemma server_block_defaults_witness :
  let fd := file_of ["    Hostname auth.example.org"; "    HTTPPort 8080";
                     "    Path /portal/"; "}"] in
  (1 = 1 \/ 1 = 2 \/ 1 = 3)
  /\ block_hostname (@block_interior sample_platform fd)
     = Some "auth.example.org"
  /\ Forall (fun line => line_opcode line <> Some oServSSLPort)
            (@block_interior sample_platform fd)
  /\ exists r w',
       @parse_server sample_platform fd "wifidog.conf" 1 1 sample_start
       = Returns r w'
       /\ exists new,
            last (servers_of 1 (config w')) = Some new
            /\ serv_update_script_path_fragment new = None
            /\ serv_ssl_port new = @DEFAULT_AUTHSERVSSLPORT sample_platform.
Proof.
  intros fd.
  assert (Ht : 1 = 1 \/ 1 = 2 \/ 1 = 3) by (left; reflexivity).
  assert (Hh : block_hostname (@block_interior sample_platform fd)
               = Some "auth.example.org") by (vm_compute; reflexivity).
  assert (Hp : Forall (fun line => line_opcode line <> Some oServSSLPort)
                      (@block_interior sample_platform fd)).
  { vm_compute. repeat constructor; discriminate. }
  split; [exact Ht|]. split; [exact Hh|]. split; [exact Hp|].
  destruct (@parse_server sample_platform fd "wifidog.conf" 1 1 sample_start)
    as [r w'|n w'|] eqn:Hrun;
    [|vm_compute in Hrun; discriminate Hrun..].
  exists r, w'. split; [reflexivity|].
  destruct (@server_block_defaults sample_platform fd "wifidog.conf" 1 1
              sample_start r w' "auth.example.org" Ht Hrun Hh)
    as (new & Hlast & Hupd & _ & Hssl & _).
  exists new. split; [exact Hlast|]. split; [exact Hupd|]. exact (Hssl Hp).
Defined.

(** One rule written in two ways. *)
Lemma parsers_ignore_case_witness :
  strlower "ALLOW Tcp Port 80" = strlower "allow TCP port 80"
  /\ parse_rule "ALLOW Tcp Port 80" = parse_rule "allow TCP port 80"
  /\ parse_boolean_value "ALLOW Tcp Port 80"
     = parse_boolean_value "allow TCP port 80".
Proof.
  assert (Hl : strlower "ALLOW Tcp Port 80" = strlower "allow TCP port 80")
    by reflexivity.
  split; [exact Hl|].
  exact (parsers_ignore_case "ALLOW Tcp Port 80" "allow TCP port 80" Hl).
Defined.

(** A directive whose value is written in two words: the second is
    dropped. *)
Lemma top_tokens_no_space_witness :
  top_tokens ("GatewayID  my gateway" +:+ String LF EmptyString)
  = ("GatewayID", Some "my")
  /\ contains " " "GatewayID" = false /\ contains " " "my" = false.
Proof.
  assert (Ht : top_tokens ("GatewayID  my gateway" +:+ String LF EmptyString)
               = ("GatewayID", Some "my")) by reflexivity.
  split; [exact Ht|].
  exact (top_tokens_no_space _ _ _ Ht).
Defined.

(** A gateway port that is not a number is passed over. *)
Lemma numeric_directive_not_a_number_witness :
  numeric_field oGatewayPort = Some gw_port
  /\ not_a_number "http" = true
  /\ @config_read_case sample_platform oGatewayPort "http" (file_of [])
       "wifidog.conf" 1 sample_start
     = Returns (file_of [], 1) sample_start.
Proof.
  assert (Hf : numeric_field oGatewayPort = Some gw_port) by reflexivity.
  assert (Hn : not_a_number "http" = true) by reflexivity.
  split; [exact Hf|]. split; [exact Hn|].
  exact (@numeric_directive_not_a_number sample_platform oGatewayPort gw_port
           "http" (file_of []) "wifidog.conf" 1 sample_start Hf Hn).
Defined.

(** Right after [config_init] nothing mandatory is set and validation
    ends the process. *)
Lemma config_validate_passes_witness :
  missing_parms sample_start = 0
  /\ (gw_interface (config sample_start) <> None
      /\ auth_servers (config sample_start) <> []
      -> config_validate sample_start
         = Returns tt sample_start)
  /\ (gw_interface (config sample_start) = None
      \/ auth_servers (config sample_start) = []
      -> exists w', config_validate sample_start
                    = Exits (-1) w'
                    /\ config w' = config sample_start
                    /\ missing_parms w' = 1).
Proof.
  assert (Hm : missing_parms sample_start = 0) by reflexivity.
  split; [exact Hm|].
  exact (config_validate_passes sample_start Hm).
Defined.

(** A ruleset block of three interior lines, one of them empty. *)
Lemma block_line_count_witness :
  let fd := file_of ["    FirewallRule allow tcp port 80"; EmptyString;
                     "    FirewallRule block"; "}"; "GatewayID office"] in
  length (@block_interior sample_platform fd) = 3%nat
  /\ exists fd' linenum' w',
       @parse_firewall_ruleset sample_platform "global" fd "wifidog.conf" 1
         sample_start = Returns (fd', linenum') w'
       /\ linenum' = 1 + Z.of_nat (length (@block_interior sample_platform fd)).
Proof.
  intros fd. split; [vm_compute; reflexivity|].
  destruct (@parse_firewall_ruleset sample_platform "global" fd "wifidog.conf"
              1 sample_start) as [[fd' linenum'] w'|n w'|] eqn:Hrun;
    [|vm_compute in Hrun; discriminate Hrun..].
  exists fd', linenum', w'. split; [reflexivity|].
  exact (proj2 (@block_line_count sample_platform fd "wifidog.conf" 1 1
                  "global" sample_start fd' linenum' w') Hrun).
Defined.

(** The list of three servers, its head being marked: no node changes. *)
Lemma mark_auth_server_bad_frame_witness :
  exists m',
    AuthList.mark_auth_server_bad (Some 1%positive) AuthList.three_servers
    = Some m'
    /\ AuthList.heap m' = AuthList.heap AuthList.three_servers
    /\ (AuthList.auth_servers m'
        = AuthList.auth_servers AuthList.three_servers
        \/ exists b n,
             Some 1%positive = Some b
             /\ AuthList.auth_servers AuthList.three_servers = Some b
             /\ AuthList.heap AuthList.three_servers !! b = Some n
             /\ AuthList.next n <> None
             /\ AuthList.auth_servers m' = AuthList.next n).
Proof.
  destruct (AuthList.mark_auth_server_bad (Some 1%positive)
              AuthList.three_servers) as [m'|] eqn:Hrun;
    [|vm_compute in Hrun; discriminate Hrun].
  exists m'. split; [reflexivity|].
  exact (mark_auth_server_bad_frame (Some 1%positive) AuthList.three_servers
           m' Hrun).
Defined.

(** The list of three servers, its head being marked: the other two
    stay. *)
Lemma mark_auth_server_bad_keeps_rest_witness :
  AuthList.is_list (AuthList.heap AuthList.three_servers)
    (AuthList.auth_servers AuthList.three_servers)
    [1%positive; 2%positive; 3%positive]
  /\ exists m',
       AuthList.mark_auth_server_bad (Some 1%positive) AuthList.three_servers
       = Some m'
       /\ ((Some 1%positive = Some 1%positive
            /\ [2%positive; 3%positive] <> []
            /\ AuthList.is_list (AuthList.heap m') (AuthList.auth_servers m')
                 [2%positive; 3%positive])
           \/ ((Some 1%positive <> Some 1%positive
                \/ [2%positive; 3%positive] = [])
               /\ m' = AuthList.three_servers)).
Proof.
  split; [exact AuthList.three_servers_is_list|].
  exact (mark_auth_server_bad_keeps_rest (Some 1%positive)
           AuthList.three_servers 1%positive [2%positive; 3%positive]
           AuthList.three_servers_is_list).
Defined.

(** A file with three [Daemon] lines read with the flag unset: the first
    valid one decides and the default is not used. *)
Lemma daemon_flag_after_override_witness :
  let fd := Some (file_of ["Daemon maybe"; "Daemon no"; "Daemon yes"]) in
  exists r w1,
    (@config_read sample_platform fd "wifidog.conf"
     >> @config_init_override sample_platform) sample_start = Returns r w1
    /\ daemon (config w1) = 0
    /\ exists w0,
         @config_read sample_platform fd "wifidog.conf" sample_start
         = Returns tt w0
         /\ missing_parms w1 = missing_parms w0
         /\ errlog w1 = errlog w0
         /\ (daemon (config w0) <> -1 -> w1 = w0)
         /\ (daemon (config w0) = -1 ->
             config w1
             = set_daemon (@DEFAULT_DAEMON sample_platform) (config w0))
         /\ (daemon (config sample_start) <> -1 ->
             daemon (config w1) = daemon (config sample_start))
         /\ (@DEFAULT_DAEMON sample_platform <> -1 ->
             daemon (config w1) <> -1).
Proof.
  intros fd.
  destruct ((@config_read sample_platform fd "wifidog.conf"
             >> @config_init_override sample_platform) sample_start)
    as [r w1|n w1|] eqn:Hrun; [|vm_compute in Hrun; discriminate Hrun..].
  exists r, w1. split; [reflexivity|].
  split; [vm_compute in Hrun; inversion Hrun; reflexivity|].
  exact (@daemon_flag_after_override sample_platform fd "wifidog.conf"
           sample_start r w1 Hrun).
Defined.
